(** * moleculer-db: the entity-access mixin, embedded in Rocq

    A shallow embedding of [packages/moleculer-db/src/index.js] (the service
    mixin) and of [errors.js].  JavaScript values are modelled as trees
    (every occurrence of an object is a reference of its own), numbers as
    integers extended with [NaN] and the two infinities, objects as ordered
    association lists (insertion order, as [Object.keys] and [_.forIn] see
    them), and promises as computations over an explicit world: the state of
    the external collaborators (storage adapter, broker, cacher, hooks, clock)
    together with the log of the calls issued to them.

    Every object is a plain object and no value is callable: a conversion
    to a primitive goes through the methods of [Object.prototype] unless an
    own [toString] hides them, and is then a [TypeError].  Products are
    rounded to the nearest double; sums and differences are exact, which is
    what the doubles give as long as the magnitudes stay below 2^53.  The
    documents an adapter answers with are objects of their own; the one
    sharing that the mixin itself sets up, between the documents [_get]
    keeps ([origDoc]) and the documents [transformDocuments] writes into,
    is modelled: an adapter says whether [entityToObject] and
    [afterRetrieveTransformID] hand out the object they are given.

    What the model leaves out: the members that objects, arrays and strings
    inherit from their prototypes (only own properties are looked up; the
    properties of the field filter say which names they hold for), the
    bracket syntax of lodash paths, fractions, the negative zero, the
    exponent notation of the numbers from 1e21 on, and the named properties
    of arrays.  The methods are modelled as the action handlers call them,
    with a request context at hand.  Saving ([validateEntity],
    [_create], [_insert]) is modelled over the part of the adapter that it
    uses, with a validator that answers with a promise (one that throws is
    outside the model); the lifecycle ([connect], [disconnect], [started],
    [stopped]) over the logger and the timer, with fuel for the attempts to
    connect. *)

From Stdlib Require Import ZArith String Ascii List Bool Lia DecimalString.
From Stdlib Require DecimalZ.
Import ListNotations.
Open Scope string_scope.
Open Scope list_scope.
Set Warnings "-register-all".

(* ================================================================== *)
(** * JavaScript values and built-ins *)
(* ================================================================== *)

(** Numbers: integers, [NaN] and the infinities.  Fractions are outside the
    model (the action schemas ask for [integer: true]); division only occurs
    under [Math.floor]. *)
Inductive num : Type :=
| NaN
| NegInf
| Fin (z : Z)
| PosInf.

Inductive value : Type :=
| VUndef
| VNull
| VBool (b : bool)
| VNum (n : num)
| VStr (s : string)
| VArr (l : list value)
| VObj (m : list (string * value)).

Definition obj : Type := list (string * value).

Definition VInt (z : Z) : value := VNum (Fin z).

(** Errors of [errors.js], with the fields their constructors pass to
    [MoleculerClientError (message, code, type, data)]; [TypeError] is the
    exception of the language; [Rejected] is a rejection coming from a
    collaborator (adapter, remote action, hook, validator). *)
Inductive error : Type :=
| TypeError
| EntityNotFoundError (id : value)
| EntityLogicallyNotFoundError (id : value)
| MoleculerClientError (message : string) (code : Z)
| Rejected (reason : value).

Definition err_message (e : error) : string :=
  match e with
  | TypeError => "TypeError"
  | EntityNotFoundError _ => "Entity not found"
  | EntityLogicallyNotFoundError _ => "Entity logically not found"
  | MoleculerClientError m _ => m
  | Rejected _ => "rejected"
  end.

Definition err_code (e : error) : option Z :=
  match e with
  | EntityNotFoundError _ => Some 404%Z
  | EntityLogicallyNotFoundError _ => Some 404%Z
  | MoleculerClientError _ c => Some c
  | _ => None
  end.

(** [data] of the client errors: the object [{ id }]. *)
Definition err_data (e : error) : value :=
  match e with
  | EntityNotFoundError id => VObj [("id", id)]
  | EntityLogicallyNotFoundError id => VObj [("id", id)]
  | _ => VUndef
  end.

Inductive result (A : Type) : Type :=
| Ok (a : A)
| Err (e : error).
Arguments Ok {A} a.
Arguments Err {A} e.

Definition rbind {A B} (r : result A) (k : A -> result B) : result B :=
  match r with
  | Ok a => k a
  | Err e => Err e
  end.

(** ** Numbers *)

Definition num_truthy (n : num) : bool :=
  match n with
  | NaN => false
  | Fin z => negb (z =? 0)%Z
  | _ => true
  end.

Definition num_neg (n : num) : num :=
  match n with
  | NaN => NaN
  | NegInf => PosInf
  | Fin z => Fin (- z)
  | PosInf => NegInf
  end.

Definition num_add (a b : num) : num :=
  match a, b with
  | NaN, _ | _, NaN => NaN
  | PosInf, NegInf | NegInf, PosInf => NaN
  | PosInf, _ | _, PosInf => PosInf
  | NegInf, _ | _, NegInf => NegInf
  | Fin x, Fin y => Fin (x + y)
  end.

Definition num_sub (a b : num) : num := num_add a (num_neg b).

(** Sign of a number that is not [NaN]: -1, 0 or 1. *)
Definition num_sgn (n : num) : Z :=
  match n with
  | NaN => 0
  | NegInf => -1
  | Fin z => Z.sgn z
  | PosInf => 1
  end.

(** The double nearest to an integer.  Below 2^53 in magnitude the integer is
    a double; above, it is rounded to 53 significant bits, a tie going to
    the even significand, and to an infinity from 2^1024 on. *)
Definition double_of_Z (z : Z) : num :=
  let a := Z.abs z in
  if (a <? 9007199254740992)%Z then Fin z
  else
    let e := (Z.log2 a - 52)%Z in
    let q := Z.shiftr a e in
    let r := (a - Z.shiftl q e)%Z in
    let half := Z.shiftl 1 (e - 1) in
    let q' := if (half <? r)%Z || ((r =? half)%Z && Z.odd q)
              then (q + 1)%Z else q in
    let m := Z.shiftl q' e in
    if (Z.shiftl 1 1024 <=? m)%Z
    then (if (z <? 0)%Z then NegInf else PosInf)
    else Fin (Z.sgn z * m).

Definition num_mul (a b : num) : num :=
  match a, b with
  | NaN, _ | _, NaN => NaN
  | Fin x, Fin y => double_of_Z (x * y)
  | _, _ =>
      match (num_sgn a * num_sgn b)%Z with
      | Z0 => NaN
      | Zpos _ => PosInf
      | Zneg _ => NegInf
      end
  end.

(** [Math.floor (a / b)]. *)
Definition num_floor_div (a b : num) : num :=
  match a, b with
  | NaN, _ | _, NaN => NaN
  | Fin x, Fin y =>
      if (y =? 0)%Z then
        match x with
        | Z0 => NaN
        | Zpos _ => PosInf
        | Zneg _ => NegInf
        end
      else Fin (x / y)
  | Fin _, _ => Fin 0
  | _, Fin y =>
      match (num_sgn a * (if (y <? 0)%Z then -1 else 1))%Z with
      | Zneg _ => NegInf
      | _ => PosInf
      end
  | _, _ => NaN
  end.

(** [a > b] on numbers: false as soon as one side is [NaN]. *)
Definition num_gtb (a b : num) : bool :=
  match a, b with
  | NaN, _ | _, NaN => false
  | PosInf, PosInf => false
  | PosInf, _ => true
  | _, PosInf => false
  | NegInf, _ => false
  | _, NegInf => true
  | Fin x, Fin y => (y <? x)%Z
  end.

Definition num_eqb (a b : num) : bool :=
  match a, b with
  | Fin x, Fin y => (x =? y)%Z
  | PosInf, PosInf | NegInf, NegInf => true
  | _, _ => false
  end.

Definition string_of_Z (z : Z) : string :=
  NilZero.string_of_int (Z.to_int z).

Definition num_to_string (n : num) : string :=
  match n with
  | NaN => "NaN"
  | NegInf => "-Infinity"
  | Fin z => string_of_Z z
  | PosInf => "Infinity"
  end.

(** ** Strings *)

(** [s.replace(/,/g, " ")]. *)
Fixpoint replace_commas (s : string) : string :=
  match s with
  | EmptyString => EmptyString
  | String c r =>
      String (if Ascii.eqb c "," then " "%char else c) (replace_commas r)
  end.

(** [s.split(sep)] for a separator of one character: the pieces between the
    separators, empty pieces kept. *)
Fixpoint split_on (sep : ascii) (s : string) : list string :=
  match s with
  | EmptyString => [EmptyString]
  | String c r =>
      if Ascii.eqb c sep then EmptyString :: split_on sep r
      else
        match split_on sep r with
        | [] => [String c EmptyString]
        | p :: ps => String c p :: ps
        end
  end.

(** [parts.join(sep)]. *)
Fixpoint join (sep : string) (parts : list string) : string :=
  match parts with
  | [] => EmptyString
  | [p] => p
  | p :: ps => p ++ sep ++ join sep ps
  end.

(** [s.indexOf(sub) !== -1]. *)
Definition str_contains (sub s : string) : bool :=
  match String.index 0 sub s with
  | Some _ => true
  | None => false
  end.

Definition str_rev (s : string) : string :=
  string_of_list_ascii (rev (list_ascii_of_string s)).

(** [s.endsWith(suffix)]. *)
Definition endsWith (s suffix : string) : bool :=
  String.prefix (str_rev suffix) (str_rev s).

Definition is_lower (c : ascii) : bool :=
  (97 <=? nat_of_ascii c)%nat && (nat_of_ascii c <=? 122)%nat.
Definition is_upper (c : ascii) : bool :=
  (65 <=? nat_of_ascii c)%nat && (nat_of_ascii c <=? 90)%nat.
Definition to_upper (c : ascii) : ascii :=
  if is_lower c then ascii_of_nat (nat_of_ascii c - 32) else c.
Definition to_lower (c : ascii) : ascii :=
  if is_upper c then ascii_of_nat (nat_of_ascii c + 32) else c.

Fixpoint str_map (f : ascii -> ascii) (s : string) : string :=
  match s with
  | EmptyString => EmptyString
  | String c r => String (f c) (str_map f r)
  end.

(** ** Truthiness, [typeof], [ToString] *)

Definition js_truthy (v : value) : bool :=
  match v with
  | VUndef | VNull => false
  | VBool b => b
  | VNum n => num_truthy n
  | VStr s => negb (String.eqb s "")
  | VArr _ | VObj _ => true
  end.

Definition js_typeof (v : value) : string :=
  match v with
  | VUndef => "undefined"
  | VNull => "object"
  | VBool _ => "boolean"
  | VNum _ => "number"
  | VStr _ => "string"
  | VArr _ | VObj _ => "object"
  end.

Definition is_string (v : value) : bool :=
  match v with VStr _ => true | _ => false end.

Definition isArray (v : value) : bool :=
  match v with VArr _ => true | _ => false end.

(** [_.isObject]: objects and arrays. *)
Definition isObject (v : value) : bool :=
  match v with VArr _ | VObj _ => true | _ => false end.

(** [ToString]; an array is joined with commas, [null] and [undefined]
    elements printing as the empty string. *)
Fixpoint ToString (v : value) : string :=
  match v with
  | VUndef => "undefined"
  | VNull => "null"
  | VBool true => "true"
  | VBool false => "false"
  | VNum n => num_to_string n
  | VStr s => s
  | VArr l =>
      join ","
        (map (fun e => match e with
                       | VUndef | VNull => EmptyString
                       | _ => ToString e
                       end) l)
  | VObj _ => "[object Object]"
  end.

(** [a === b] where one side is a primitive; two objects are two references
    in the tree model and never equal. *)
Definition strict_eq (a b : value) : bool :=
  match a, b with
  | VUndef, VUndef | VNull, VNull => true
  | VBool x, VBool y => Bool.eqb x y
  | VNum x, VNum y => num_eqb x y
  | VStr x, VStr y => String.eqb x y
  | _, _ => false
  end.

(** [SameValueZero], the equality of [_.uniq]: as [===] but [NaN] equals
    itself. *)
Definition sameValueZero (a b : value) : bool :=
  match a, b with
  | VNum NaN, VNum NaN => true
  | _, _ => strict_eq a b
  end.

(** ** Objects *)

Fixpoint lookup (m : obj) (k : string) : option value :=
  match m with
  | [] => None
  | (k', v) :: r => if String.eqb k' k then Some v else lookup r k
  end.

(** [o[k]] on an object: [undefined] when the key is absent. *)
Definition obj_get (m : obj) (k : string) : value :=
  match lookup m k with
  | Some v => v
  | None => VUndef
  end.

(** [o[k] = v]: an existing key keeps its place, a new key goes last. *)
Fixpoint obj_set (m : obj) (k : string) (v : value) : obj :=
  match m with
  | [] => [(k, v)]
  | (k', v') :: r =>
      if String.eqb k' k then (k, v) :: r else (k', v') :: obj_set r k v
  end.

Definition obj_keys (m : obj) : list string := map fst m.

Definition has_key (m : obj) (k : string) : bool :=
  match lookup m k with Some _ => true | None => false end.

(** [Object.assign(target, source)]: own enumerable properties of the
    source, in order; [null], [undefined], numbers and booleans have none. *)
Fixpoint index_entries (i : nat) (l : list value) : obj :=
  match l with
  | [] => []
  | v :: r => (string_of_Z (Z.of_nat i), v) :: index_entries (S i) r
  end.

Definition own_entries (v : value) : obj :=
  match v with
  | VObj m => m
  | VArr l => index_entries 0 l
  | VStr s =>
      index_entries 0
        (map (fun c => VStr (String c EmptyString)) (list_ascii_of_string s))
  | _ => []
  end.

Definition own_entries_values (v : value) : list value :=
  map snd (own_entries v).

Definition Object_assign (target : obj) (source : value) : obj :=
  fold_left (fun acc kv => obj_set acc (fst kv) (snd kv))
            (own_entries source) target.

(** [v[k]] on any value: a [TypeError] on [null] and [undefined]; arrays and
    strings answer [length] and their indices. *)
Fixpoint nth_by_key (i : nat) (l : list value) (k : string) : value :=
  match l with
  | [] => VUndef
  | v :: r =>
      if String.eqb (string_of_Z (Z.of_nat i)) k then v
      else nth_by_key (S i) r k
  end.

Definition get_member (v : value) (k : string) : result value :=
  match v with
  | VUndef | VNull => Err TypeError
  | VObj m => Ok (obj_get m k)
  | VArr l =>
      if String.eqb k "length" then Ok (VInt (Z.of_nat (length l)))
      else Ok (nth_by_key 0 l k)
  | VStr s =>
      if String.eqb k "length" then Ok (VInt (Z.of_nat (String.length s)))
      else Ok (nth_by_key 0
                 (map (fun c => VStr (String c EmptyString))
                      (list_ascii_of_string s)) k)
  | VBool _ | VNum _ => Ok VUndef
  end.

(** ** Conversion to a primitive *)

(** [ToPrimitive] succeeds.  The [valueOf] of [Object.prototype] answers the
    object itself, so an object converts through [toString]: the inherited
    one answers ["[object Object]"], and an own property named [toString]
    hides it.  No value of the model is callable, so an object with an own
    [toString] has no primitive value and its conversion is a [TypeError].
    An array is joined, which converts its elements. *)
Fixpoint has_primitive (v : value) : bool :=
  match v with
  | VObj m => negb (has_key m "toString")
  | VArr l => forallb has_primitive l
  | _ => true
  end.

(** The key of [o[v]], and the string of [v + ""]: [ToString] where it can
    fail. *)
Definition ToPropertyKey (v : value) : result string :=
  if has_primitive v then Ok (ToString v) else Err TypeError.

(** ** Induction on values *)

Section ValueInduction.

Variable P : value -> Prop.
Hypothesis P_undef : P VUndef.
Hypothesis P_null : P VNull.
Hypothesis P_bool : forall b, P (VBool b).
Hypothesis P_num : forall n, P (VNum n).
Hypothesis P_str : forall s, P (VStr s).
Hypothesis P_arr : forall l, Forall P l -> P (VArr l).
Hypothesis P_obj : forall m, Forall (fun kv => P (snd kv)) m -> P (VObj m).

Fixpoint value_nested_ind (v : value) : P v :=
  match v with
  | VUndef => P_undef
  | VNull => P_null
  | VBool b => P_bool b
  | VNum n => P_num n
  | VStr s => P_str s
  | VArr l =>
      P_arr l
        ((fix all (l : list value) : Forall P l :=
            match l with
            | [] => Forall_nil P
            | x :: r => Forall_cons x (value_nested_ind x) (all r)
            end) l)
  | VObj m =>
      P_obj m
        ((fix all (m : list (string * value))
            : Forall (fun kv => P (snd kv)) m :=
            match m with
            | [] => Forall_nil _
            | kv :: r =>
                Forall_cons (P := fun kv => P (snd kv)) kv
                            (value_nested_ind (snd kv)) (all r)
            end) m)
  end.

End ValueInduction.

(** ** lodash *)

(** [_.compact]: the truthy elements. *)
Definition compact (l : list value) : list value := filter js_truthy l.

(** [_.flattenDeep]: arrays are opened at every depth. *)
Fixpoint flatten_value (v : value) : list value :=
  match v with
  | VArr l => flat_map flatten_value l
  | _ => [v]
  end.

Definition flattenDeep (l : list value) : list value :=
  flat_map flatten_value l.

(** [_.uniq]: an element is kept when no element kept before it is the same
    value ([SameValueZero]). *)
Fixpoint uniq_from (seen : list value) (l : list value) : list value :=
  match l with
  | [] => []
  | x :: r =>
      if existsb (sameValueZero x) seen then uniq_from seen r
      else x :: uniq_from (seen ++ [x]) r
  end.

Definition uniq (l : list value) : list value := uniq_from [] l.

(** [_.capitalize]: first character to upper case, the rest to lower case. *)
Definition capitalize (s : string) : string :=
  match str_map to_lower s with
  | EmptyString => EmptyString
  | String c r => String (to_upper c) r
  end.

(** [array.indexOf(x) !== -1]: membership by [===]. *)
Definition array_includes (l : list value) (x : value) : bool :=
  existsb (fun y => strict_eq y x) l.

(** [k] is one of the indices [0 .. n-1]. *)
Definition has_index (n : nat) (k : string) : bool :=
  existsb (fun i => String.eqb (string_of_Z (Z.of_nat i)) k) (seq 0 n).

(** [key in Object(o)], own properties only. *)
Definition has_property (o : value) (k : string) : bool :=
  match o with
  | VObj m => has_key m k
  | VArr l => String.eqb k "length" || has_index (length l) k
  | VStr s => String.eqb k "length" || has_index (String.length s) k
  | _ => false
  end.

(** The path of [_.get] and [_.set] ([castPath]): an array is a path as it
    is; a string that is a property of the object is a single key, otherwise
    it is cut at the dots; other values are a single key.  This is the path
    of lodash for the strings written without brackets, which is what the
    properties ask of the field names; the bracket syntax and the paths
    that are objects are outside the model. *)
Definition castPath (path : value) (o : value) : list string :=
  match path with
  | VArr keys => map ToString keys
  | VStr s => if has_property o s then [s] else split_on "." s
  | _ => [ToString path]
  end.

Definition is_nullish (v : value) : bool :=
  match v with VUndef | VNull => true | _ => false end.

(** [baseGet]: walk the keys while the current value is neither [null] nor
    [undefined]; the answer is [undefined] when the walk stops early or the
    path is empty. *)
Fixpoint baseGet (o : value) (keys : list string) : value :=
  match keys with
  | [] => o
  | k :: r =>
      if is_nullish o then VUndef
      else match get_member o k with
           | Ok v => baseGet v r
           | Err _ => VUndef
           end
  end.

Definition lodash_get (o : value) (path : value) : value :=
  match castPath path o with
  | [] => VUndef
  | keys => baseGet o keys
  end.

(** [isIndex]: the canonical decimal numerals. *)
Definition is_digit (c : ascii) : bool :=
  (48 <=? nat_of_ascii c)%nat && (nat_of_ascii c <=? 57)%nat.

Definition isIndex (k : string) : bool :=
  match k with
  | EmptyString => false
  | String "0" EmptyString => true
  | String "0" _ => false
  | _ => forallb is_digit (list_ascii_of_string k)
  end.

(** Value of a canonical numeral. *)
Definition index_of_key (k : string) : nat :=
  fold_left (fun acc c => (10 * acc + (nat_of_ascii c - 48))%nat)
            (list_ascii_of_string k) 0%nat.

(** [a[i] = v] on an array; the holes a longer index leaves read as
    [undefined]. *)
Fixpoint arr_set (l : list value) (i : nat) (v : value) : list value :=
  match i, l with
  | O, [] => [v]
  | O, _ :: r => v :: r
  | S j, [] => VUndef :: arr_set [] j v
  | S j, x :: r => x :: arr_set r j v
  end.

(** [o[k] = v] on an object or an array.  A named (non-index) property of an
    array is not represented (it does not survive serialization either);
    primitives are left as they are. *)
Definition assignValue (o : value) (k : string) (v : value) : value :=
  match o with
  | VObj m => VObj (obj_set m k v)
  | VArr l => if isIndex k then VArr (arr_set l (index_of_key k) v) else o
  | _ => o
  end.

Definition member_or_undef (o : value) (k : string) : value :=
  match get_member o k with
  | Ok v => v
  | Err _ => VUndef
  end.

(** The keys [baseSet] refuses to write. *)
Definition guarded_key (k : string) : bool :=
  String.eqb k "__proto__" || String.eqb k "constructor"
  || String.eqb k "prototype".

(** [baseSet] along the keys: an intermediate value that is not an object is
    replaced by a new array (when the next key is an index) or object; the
    walk ends at a guarded key, leaving what was written before it. *)
Fixpoint baseSet (o : value) (keys : list string) (v : value) : value :=
  match keys with
  | [] => o
  | [k] => if guarded_key k then o else assignValue o k v
  | k :: ((k2 :: _) as r) =>
      if guarded_key k then o
      else
        let objValue := member_or_undef o k in
        let newValue :=
          if isObject objValue then objValue
          else if isIndex k2 then VArr [] else VObj [] in
        assignValue o k (baseSet newValue r v)
  end.

Definition lodash_set (o : value) (path : value) (v : value) : value :=
  if isObject o then baseSet o (castPath path o) v else o.

(* ================================================================== *)
(** * The calls a request issues to the collaborators *)
(* ================================================================== *)

Inductive event : Type :=
| EvFind (params : value)
| EvCount (params : value)
| EvFindById (id : value)
| EvFindByIds (ids : value)
| EvUpdateById (id : value) (update : value)
| EvRemoveById (id : value)
| EvCall (relation : string) (action : string) (params : value)
| EvHandler (field : string) (ids : list value)
| EvBroadcast (name : string)
| EvCacheClean (pattern : string)
| EvHook (name : string) (json : value).

(** The remote calls issued to resolve one relation. *)
Definition is_call_for (relation : string) (e : event) : bool :=
  match e with
  | EvCall f _ _ => String.eqb f relation
  | _ => false
  end.

Definition is_remove_call (e : event) : bool :=
  match e with EvRemoveById _ => true | _ => false end.

Definition is_hook (name : string) (e : event) : bool :=
  match e with
  | EvHook n _ => String.eqb n name
  | _ => false
  end.

(** The events of a population: remote calls and custom handlers. *)
Definition is_populate_event (e : event) : bool :=
  match e with
  | EvCall _ _ _ | EvHandler _ _ => true
  | _ => false
  end.

(** The events of loading by id, transformation included. *)
Definition is_load_event (e : event) : bool :=
  match e with
  | EvFindById _ | EvFindByIds _ => true
  | _ => is_populate_event e
  end.

(** The events of the update pipeline: the write, the transformation, the
    cache invalidation and the [entityUpdated] hook. *)
Definition is_update_event (e : event) : bool :=
  match e with
  | EvUpdateById _ _ | EvBroadcast _ | EvCacheClean _ => true
  | EvHook name _ => String.eqb name "entityUpdated"
  | _ => is_populate_event e
  end.

(* ================================================================== *)
(** * The service mixin *)
(* ================================================================== *)

Section Model.

(** [Number(s)] on a string (the [StringToNumber] of the language), read in
    the number domain of the model. *)
Variable StringToNumber : string -> num.

(** State of the collaborators: the store behind the adapter, the services
    behind the broker, the cacher, the clock. *)
Variable Ext : Type.

(** ** Arithmetic and comparison on values *)

(** The number of a value that has a primitive: an object or an array
    reads as the number of its string. *)
Definition number_of (v : value) : num :=
  match v with
  | VUndef => NaN
  | VNull => Fin 0
  | VBool b => Fin (if b then 1 else 0)
  | VNum n => n
  | VStr s => StringToNumber s
  | VArr _ | VObj _ => StringToNumber (ToString v)
  end.

(** [ToNumber]: a [TypeError] on a value without primitive. *)
Definition ToNumber (v : value) : result num :=
  if has_primitive v then Ok (number_of v) else Err TypeError.

(** [v > n] with a number on the right: the comparison is numeric. *)
Definition js_gt (v : value) (n : num) : result bool :=
  rbind (ToNumber v) (fun x => Ok (num_gtb x n)).

Definition js_sub (a b : value) : result value :=
  rbind (ToNumber a) (fun x =>
  rbind (ToNumber b) (fun y => Ok (VNum (num_sub x y)))).

Definition js_mul (a b : value) : result value :=
  rbind (ToNumber a) (fun x =>
  rbind (ToNumber b) (fun y => Ok (VNum (num_mul x y)))).

(** [a + b]: concatenation as soon as one side is a string or an object
    (whose primitive is its string), a sum otherwise. *)
Definition is_numeric_prim (v : value) : bool :=
  match v with
  | VStr _ | VArr _ | VObj _ => false
  | _ => true
  end.

Definition js_add (a b : value) : result value :=
  if has_primitive a && has_primitive b then
    Ok (if is_numeric_prim a && is_numeric_prim b
        then VNum (num_add (number_of a) (number_of b))
        else VStr (ToString a ++ ToString b))
  else Err TypeError.

(** [Math.floor(a / b)]. *)
Definition js_floor_div (a b : value) : result value :=
  rbind (ToNumber a) (fun x =>
  rbind (ToNumber b) (fun y => Ok (VNum (num_floor_div x y)))).

(** The same operations on values that have a primitive, where they cannot
    fail. *)
Definition gt_prim (v : value) (n : num) : bool := num_gtb (number_of v) n.

Definition sub_prim (a b : value) : value :=
  VNum (num_sub (number_of a) (number_of b)).

Definition mul_prim (a b : value) : value :=
  VNum (num_mul (number_of a) (number_of b)).

Definition add_prim (a b : value) : value :=
  if is_numeric_prim a && is_numeric_prim b
  then VNum (num_add (number_of a) (number_of b))
  else VStr (ToString a ++ ToString b).

Definition floor_div_prim (a b : value) : value :=
  VNum (num_floor_div (number_of a) (number_of b)).

(** ** Promises: computations over the world *)

Record world : Type := mkWorld {
  ext : Ext;
  log : list event
}.

Definition M (A : Type) : Type := world -> world * result A.

Definition ret {A} (a : A) : M A := fun w => (w, Ok a).

Definition fail {A} (e : error) : M A := fun w => (w, Err e).

Definition bind {A B} (m : M A) (k : A -> M B) : M B :=
  fun w =>
    match m w with
    | (w', Ok a) => k a w'
    | (w', Err e) => (w', Err e)
    end.

Definition lift {A} (r : result A) : M A := fun w => (w, r).

(** A call is logged when it is issued. *)
Definition emit (e : event) : M unit :=
  fun w => (mkWorld (ext w) (log w ++ [e]), Ok tt).

(** Run a collaborator on its state. *)
Definition external {A} (f : Ext -> Ext * result A) : M A :=
  fun w => let (x, r) := f (ext w) in (mkWorld x (log w), r).

(** A promise that is started now and joined later: its outcome is kept as
    a value instead of cutting the computation short. *)
Definition attempt {A} (m : M A) : M (result A) :=
  fun w => let (w', r) := m w in (w', Ok r).

Notation "x <- m ;; k" := (bind m (fun x => k))
  (at level 61, m at next level, right associativity).
Notation "m ;;; k" := (bind m (fun _ => k))
  (at level 61, right associativity).

Fixpoint mapM {A B} (f : A -> result B) (l : list A) : result (list B) :=
  match l with
  | [] => Ok []
  | x :: r => rbind (f x) (fun y => rbind (mapM f r) (fun ys => Ok (y :: ys)))
  end.

(** ** Configuration *)

(** A custom populate handler: called with the id list, the documents and
    the name of the relation field; the documents it returns are the
    documents after its own replacement. *)
Definition Handler : Type :=
  list value -> list obj -> string -> Ext -> Ext * result (list obj).

(** A population rule: a string (the name of the action to call), an object
    [{ action, params, populate, handler }], or a function. *)
Inductive rule : Type :=
| RuleAction (action : string)
| RuleObject (action : string) (params : value) (populate : value)
             (handler : option Handler)
| RuleFunction (handler : Handler).

Record Settings : Type := mkSettings {
  idField : string;
  fields : option (list string);
  populates : option (list (string * rule));
  pageSize : Z;
  maxPageSize : Z;
  maxLimit : Z;
  softDelete : bool
}.

(** The storage adapter, as the mixin uses it. *)
Record Adapter : Type := mkAdapter {
  find : value -> Ext -> Ext * result value;
  count : value -> Ext -> Ext * result value;
  findById : value -> Ext -> Ext * result value;
  findByIds : value -> Ext -> Ext * result value;
  updateById : value -> value -> Ext -> Ext * result value;
  removeById : value -> Ext -> Ext * result value;
  entityToObject : value -> obj;
  afterRetrieveTransformID : obj -> string -> obj;
  (** Whether [entityToObject] answers with the entity it is given rather
      than with a copy of it, and whether [afterRetrieveTransformID] answers
      with the document it is given: what the transformer writes then shows
      in the entity the caller holds. *)
  returns_entity : bool;
  returns_document : bool
}.

Definition Hook : Type := value -> Ext -> Ext * result value.

(** [this]: settings, adapter, the hooks of the schema, the broker. *)
Record Service : Type := mkService {
  settings : Settings;
  adapter : Adapter;
  schema : string -> option Hook;
  fullName : string;
  broadcast : string -> Ext -> Ext;
  cacher : option (string -> Ext -> Ext * result value);
  encodeID : value -> value;
  decodeID : value -> value;
  getTime : Ext -> Z
}.

(** The request context: the action being served and the broker call. *)
Record Context : Type := mkContext {
  action : value;
  ctx_params : value;
  call : string -> value -> Ext -> Ext * result value
}.

Variable this : Service.

(** ** [sanitizeParams] *)

Definition prop (p : obj) (k : string) : value := obj_get p k.

(** [if (typeof(p.k) === "string") p.k = Number(p.k)]. *)
Definition number_field (k : string) (p : obj) : obj :=
  match prop p k with
  | VStr s => obj_set p k (VNum (StringToNumber s))
  | _ => p
  end.

(** [if (typeof(p.k) === "string") p.k = p.k.replace(/,/g, " ").split(" ")]. *)
Definition list_field (k : string) (p : obj) : obj :=
  match prop p k with
  | VStr s => obj_set p k (VArr (map VStr (split_on " " (replace_commas s))))
  | _ => p
  end.

(** [name.endsWith(".list")]: a method of strings only. *)
Definition call_endsWith (v : value) (suffix : string) : result bool :=
  match v with
  | VStr s => Ok (endsWith s suffix)
  | _ => Err TypeError
  end.

(** [max > 0 && v > max]: the comparison is not evaluated when the
    configured maximum is not positive. *)
Definition above_max (max : Z) (v : value) : result bool :=
  if (0 <? max)%Z then js_gt v (Fin max) else Ok false.

Definition paginate (p : obj) : result obj :=
  let st := settings this in
  let p := if js_truthy (prop p "pageSize") then p
           else obj_set p "pageSize" (VInt (pageSize st)) in
  let p := if js_truthy (prop p "page") then p
           else obj_set p "page" (VInt 1) in
  rbind (above_max (maxPageSize st) (prop p "pageSize")) (fun above =>
  let p := if above then obj_set p "pageSize" (VInt (maxPageSize st))
           else p in
  let p := obj_set p "limit" (prop p "pageSize") in
  rbind (js_sub (prop p "page") (VInt 1)) (fun pages =>
  rbind (js_mul pages (prop p "pageSize")) (fun offset =>
  Ok (obj_set p "offset" offset)))).

Definition limit_the_limit (p : obj) : result obj :=
  let st := settings this in
  rbind (above_max (maxLimit st) (prop p "limit")) (fun above =>
  Ok (if above then obj_set p "limit" (VInt (maxLimit st)) else p)).

(** What [paginate] and the clamping of the limit return when they return:
    the same steps on values that have a primitive. *)
Definition paginated (p : obj) : obj :=
  let st := settings this in
  let p := if js_truthy (prop p "pageSize") then p
           else obj_set p "pageSize" (VInt (pageSize st)) in
  let p := if js_truthy (prop p "page") then p
           else obj_set p "page" (VInt 1) in
  let p := if (0 <? maxPageSize st)%Z
              && gt_prim (prop p "pageSize") (Fin (maxPageSize st))
           then obj_set p "pageSize" (VInt (maxPageSize st)) else p in
  let p := obj_set p "limit" (prop p "pageSize") in
  obj_set p "offset"
          (mul_prim (sub_prim (prop p "page") (VInt 1)) (prop p "pageSize")).

Definition limited (p : obj) : obj :=
  let st := settings this in
  if (0 <? maxLimit st)%Z && gt_prim (prop p "limit") (Fin (maxLimit st))
  then obj_set p "limit" (VInt (maxLimit st)) else p.

(** The copy of the parameters and the conversions from strings. *)
Definition coerced (params : value) : obj :=
  let p := Object_assign [] params in
  let p := number_field "limit" p in
  let p := number_field "offset" p in
  let p := number_field "page" p in
  let p := number_field "pageSize" p in
  let p := list_field "sort" p in
  let p := list_field "fields" p in
  let p := list_field "populate" p in
  list_field "searchFields" p.

Definition sanitizeParams (ctx : Context) (params : value) : result obj :=
  let p := coerced params in
  rbind (get_member (action ctx) "name") (fun name =>
  rbind (call_endsWith name ".list") (fun is_list =>
  rbind (if is_list then paginate p else Ok p) (fun p =>
  limit_the_limit p))).

(** ** [authorizeFields] *)

(** [f.indexOf(".") !== -1]: strings and arrays have [indexOf]; on anything
    else the call is a [TypeError]. *)
Definition call_has_dot (f : value) : result bool :=
  match f with
  | VStr s => Ok (str_contains "." s)
  | VArr l => Ok (array_includes l (VStr "."))
  | _ => Err TypeError
  end.

(** [f.split(".")]: a method of strings only. *)
Definition call_split_dot (f : value) : result (list string) :=
  match f with
  | VStr s => Ok (split_on "." s)
  | _ => Err TypeError
  end.

Definition allowed (allow : list string) (s : string) : bool :=
  existsb (String.eqb s) allow.

(** The [while (parts.length > 1)] loop: pop the last part and look the
    joined rest up in the allow-list; [n] bounds the iterations by the
    number of parts. *)
Fixpoint parent_allowed (allow : list string) (n : nat) (parts : list string)
  : bool :=
  match n with
  | O => false
  | S n' =>
      if (1 <? length parts)%nat then
        let parts' := removelast parts in
        if allowed allow (join "." parts') then true
        else parent_allowed allow n' parts'
      else false
  end.

(** [settings.fields.filter(prop => prop.indexOf(f + ".") !== -1)], for an
    [f] that has a primitive. *)
Definition nestedFields (allow : list string) (f : value) : list string :=
  filter (str_contains (ToString f ++ ".")) allow.

(** The same where [f + "."] can fail. *)
Definition call_nestedFields (allow : list string) (f : value)
  : result (list string) :=
  rbind (ToPropertyKey f)
        (fun s => Ok (filter (str_contains (s ++ ".")) allow)).

(** The body of [fields.forEach]: the fields authorized for one requested
    field, appended to [res]. *)
Definition authorize_one (allow : list string) (res : list value) (f : value)
  : result (list value) :=
  if array_includes (map VStr allow) f then Ok (res ++ [f])
  else
    rbind (call_has_dot f) (fun dotted =>
    rbind (if dotted
           then rbind (call_split_dot f) (fun parts =>
                  Ok (if parent_allowed allow (length parts) parts
                      then res ++ [f] else res))
           else Ok res) (fun res =>
    rbind (call_nestedFields allow f) (fun nested =>
    Ok (res ++ map VStr nested)))).

Fixpoint authorize_each (allow : list string) (res : list value)
         (fs : list value) : result (list value) :=
  match fs with
  | [] => Ok res
  | f :: r => rbind (authorize_one allow res f) (fun res' =>
              authorize_each allow res' r)
  end.

Definition authorizeFields (fields_req : value) : result value :=
  match fields (settings this) with
  | Some ((_ :: _) as allow) =>
      match fields_req with
      | VArr fs => rbind (authorize_each allow [] fs) (fun res => Ok (VArr res))
      | _ => Ok (VArr [])
      end
  | _ => Ok fields_req
  end.

(** ** [filterFields] *)

Definition filterFields (doc : value) (fields_auth : value) : value :=
  match fields_auth with
  | VArr ns =>
      fold_left
        (fun res n =>
           let v := lodash_get doc n in
           if strict_eq v VUndef then res else lodash_set res n v)
        ns (VObj [])
  | _ => doc
  end.

(** ** [populateDocs] *)

(** [_.uniq(_.flattenDeep(_.compact(arr.map(doc => doc[field]))))]. *)
Definition idList_of (field : string) (docs : list obj) : list value :=
  uniq (flattenDeep (compact (map (fun doc => obj_get doc field) docs))).

(** [o[id]] for any value [id]. *)
Definition call_member (o : value) (id : value) : result value :=
  rbind (ToPropertyKey id) (get_member o).

(** The body of [arr.forEach] in [resultTransform]. *)
Definition populate_one (populatedDocs : value) (field : string) (doc : obj)
  : result obj :=
  match obj_get doc field with
  | VArr ids =>
      rbind (mapM (call_member populatedDocs) ids)
            (fun models => Ok (obj_set doc field (VArr (compact models))))
  | id =>
      rbind (call_member populatedDocs id)
            (fun model => Ok (obj_set doc field model))
  end.

Definition resultTransform (field : string) (populatedDocs : value)
           (docs : list obj) : result (list obj) :=
  mapM (populate_one populatedDocs field) docs.

Definition rule_handler (r : rule) : option Handler :=
  match r with
  | RuleAction _ => None
  | RuleObject _ _ _ h => h
  | RuleFunction h => Some h
  end.

Definition rule_action (r : rule) : string :=
  match r with
  | RuleAction a => a
  | RuleObject a _ _ _ => a
  | RuleFunction _ => EmptyString
  end.

Definition rule_populate (r : rule) : value :=
  match r with
  | RuleObject _ _ p _ => p
  | _ => VUndef
  end.

Definition rule_params (r : rule) : value :=
  match r with
  | RuleObject _ p _ _ => p
  | _ => VUndef
  end.

(** [Object.assign({ id, mapping: true, populate }, rule.params || {})],
    then [params.ignoreSoftDelete = true]. *)
Definition call_params (idList : list value) (r : rule) : value :=
  VObj (obj_set
          (Object_assign
             [("id", VArr idList); ("mapping", VBool true);
              ("populate", rule_populate r)]
             (if js_truthy (rule_params r) then rule_params r else VObj []))
          "ignoreSoftDelete" (VBool true)).

(** The promises pushed so far: the relation field and the outcome of its
    call. *)
Definition pending : Type := list (string * result value).

(** The body of [_.forIn(this.settings.populates, ...)] for one rule.  A
    handler makes its replacement when it is called; the answer of a remote
    call is kept for [resultTransform], which runs once the loop is over. *)
Definition populate_rule (ctx : Context) (populateFields : list value)
           (st : list obj * pending) (fr : string * rule)
  : M (list obj * pending) :=
  let (docs, pend) := st in
  let (field, r) := fr in
  if negb (array_includes populateFields (VStr field)) then ret st
  else
    let idList := idList_of field docs in
    match rule_handler r with
    | Some h =>
        emit (EvHandler field idList) ;;;
        o <- attempt (external (h idList docs field)) ;;
        match o with
        | Ok docs' => ret (docs', pend)
        | Err e => ret (docs, pend ++ [(field, Err e)])
        end
    | None =>
        if (0 <? length idList)%nat then
          let params := call_params idList r in
          emit (EvCall field (rule_action r) params) ;;;
          o <- attempt (external (call ctx (rule_action r) params)) ;;
          ret (docs, pend ++ [(field, o)])
        else ret st
    end.

Fixpoint foldM {A B} (f : A -> B -> M A) (a : A) (l : list B) : M A :=
  match l with
  | [] => ret a
  | x :: r => a' <- f a x ;; foldM f a' r
  end.

(** [Promise.all(promises)]: every answer is mapped back onto the
    documents; a rejection fails the whole step. *)
Fixpoint settle (pend : pending) (docs : list obj) : result (list obj) :=
  match pend with
  | [] => Ok docs
  | (_, Err e) :: _ => Err e
  | (field, Ok populatedDocs) :: r =>
      rbind (resultTransform field populatedDocs docs) (settle r)
  end.

Definition populateDocs (ctx : Context) (docs : list obj)
           (populateFields : value) : M (list obj) :=
  match populates (settings this), populateFields with
  | Some rules, VArr ((_ :: _) as pf) =>
      st <- foldM (populate_rule ctx pf) (docs, []) rules ;;
      lift (settle (snd st) (fst st))
  | _, _ => ret docs
  end.

(** ** [transformDocuments] *)

Definition split_spaces (v : value) : value :=
  match v with
  | VStr s => VArr (map VStr (split_on " " s))
  | _ => v
  end.

Definition settings_fields : value :=
  match fields (settings this) with
  | Some l => VArr (map VStr l)
  | None => VNull
  end.

(** The stages of the pipeline, in the order of the [then] chain. *)

Definition to_objects (docs : list value) : list obj :=
  map (entityToObject (adapter this)) docs.

Definition encode_ids (docs : list obj) : list obj :=
  let idf := idField (settings this) in
  map (fun doc => obj_set doc idf (encodeID this (obj_get doc idf))) docs.

Definition apply_idField (docs : list obj) : list obj :=
  map (fun doc =>
         afterRetrieveTransformID (adapter this) doc (idField (settings this)))
      docs.

Definition populate_stage (ctx : Context) (params : value) (json : list obj)
  : M (list obj) :=
  populate <- lift (get_member params "populate") ;;
  if js_truthy populate then populateDocs ctx json populate else ret json.

(** The field list the filter works with: the requested fields, or the
    configured ones, authorized. *)
Definition effective_fields (params : value) : result value :=
  rbind (get_member params "fields") (fun pfields =>
  authorizeFields
    (split_spaces (if js_truthy pfields then pfields else settings_fields))).

Definition filter_stage (params : value) (json : list obj)
  : M (list value) :=
  authFields <- lift (effective_fields params) ;;
  ret (map (fun item => filterFields (VObj item) authFields) json).

Definition transformDocuments (ctx : Context) (params : value) (docs : value)
  : M value :=
  let run (l : list value) (isDoc : bool) : M value :=
    json <- populate_stage ctx params
              (apply_idField (encode_ids (to_objects l))) ;;
    json <- filter_stage params json ;;
    ret (if isDoc then nth 0 json VUndef else VArr json)
  in
  match docs with
  | VArr l => run l false
  | VObj _ => run [docs] true
  | _ => ret docs
  end.

(** What the caller sees afterwards in the documents [l] that it handed to
    [transformDocuments], [written] being the documents as the encoding,
    [afterRetrieveTransformID] and the population leave them: nothing of it
    when [entityToObject] hands out copies; the encoded id when it hands
    out the entity itself; and all of it when [afterRetrieveTransformID]
    in its turn answers with the document it is given. *)
Definition seen_after (l : list value) (written : list obj) : list value :=
  if returns_entity (adapter this) then
    map VObj (if returns_document (adapter this) then written
              else encode_ids (to_objects l))
  else l.

(** [transformDocuments] together with what it leaves in the documents it
    was given. *)
Definition transformDocuments_traced (ctx : Context) (params : value)
           (docs : value) : M (value * value) :=
  let run (l : list value) (isDoc : bool) : M (value * value) :=
    written <- populate_stage ctx params
                 (apply_idField (encode_ids (to_objects l))) ;;
    json <- filter_stage params written ;;
    ret (if isDoc then (nth 0 json VUndef, nth 0 (seen_after l written) VUndef)
         else (VArr json, VArr (seen_after l written)))
  in
  match docs with
  | VArr l => run l false
  | VObj _ => run [docs] true
  | _ => ret (docs, docs)
  end.

(** ** [getById], [clearCache], [entityChanged] *)

Definition getById (id : value) (decoding : bool) : M value :=
  match id with
  | VArr ids =>
      let ids' := VArr (if decoding then map (decodeID this) ids else ids) in
      emit (EvFindByIds ids') ;;;
      external (findByIds (adapter this) ids')
  | _ =>
      let id' := if decoding then decodeID this id else id in
      emit (EvFindById id') ;;;
      external (findById (adapter this) id')
  end.

Definition clearCache : M value :=
  let name := ("cache.clean." ++ fullName this)%string in
  emit (EvBroadcast name) ;;;
  external (fun x => (broadcast this name x, Ok tt)) ;;;
  match cacher this with
  | Some clean =>
      let pattern := (fullName this ++ ".*")%string in
      emit (EvCacheClean pattern) ;;;
      external (clean pattern)
  | None => ret VUndef
  end.

Definition entityChanged (type : string) (json : value) (ctx : Context)
  : M value :=
  clearCache ;;;
  let eventName := ("entity" ++ capitalize type)%string in
  match schema this eventName with
  | Some hook =>
      emit (EvHook eventName json) ;;;
      external (hook json)
  | None => ret VUndef
  end.

(** ** The methods behind the actions *)

Definition _find (ctx : Context) (params : value) : M value :=
  emit (EvFind params) ;;;
  docs <- external (find (adapter this) params) ;;
  transformDocuments ctx params docs.

(** [if (o.k) o.k = null]. *)
Definition null_if_truthy (k : string) (p : obj) : obj :=
  if js_truthy (prop p k) then obj_set p k VNull else p.

Definition _count (ctx : Context) (params : obj) : M value :=
  let params := null_if_truthy "offset" (null_if_truthy "limit" params) in
  emit (EvCount (VObj params)) ;;;
  external (count (adapter this) (VObj params)).

Definition _list (ctx : Context) (params : value) : M value :=
  let countParams :=
    null_if_truthy "offset"
      (null_if_truthy "limit" (Object_assign [] params)) in
  emit (EvFind params) ;;;
  rows <- attempt (external (find (adapter this) params)) ;;
  emit (EvCount (VObj countParams)) ;;;
  total <- attempt (external (count (adapter this) (VObj countParams))) ;;
  match rows, total with
  | Err e, _ => fail e
  | _, Err e => fail e
  | Ok rows, Ok total =>
      docs <- transformDocuments ctx params rows ;;
      page <- lift (get_member params "page") ;;
      size <- lift (get_member params "pageSize") ;;
      totalPages <- lift (rbind (js_add total size) (fun sum =>
                          rbind (js_sub sum (VInt 1)) (fun above =>
                          js_floor_div above size))) ;;
      ret (VObj [("rows", docs);
                 ("total", total);
                 ("page", page);
                 ("pageSize", size);
                 ("totalPages", totalPages)])
  end.

(** [json.forEach((doc, i) => { res[origDoc[i][idField]] = doc })]. *)
Fixpoint mapping_from (origDoc : value) (i : nat) (json : list value)
         (res : obj) : result obj :=
  match json with
  | [] => Ok res
  | doc :: r =>
      rbind (get_member origDoc (string_of_Z (Z.of_nat i))) (fun o =>
      rbind (get_member o (idField (settings this))) (fun id =>
      rbind (ToPropertyKey id) (fun key =>
      mapping_from origDoc (S i) r (obj_set res key doc))))
  end.

(** [origDoc] is read once the transformation has run: it shows what the
    transformation has left in it. *)
Definition _get (ctx : Context) (params : value) : M value :=
  id <- lift (get_member params "id") ;;
  doc <- getById id true ;;
  if negb (js_truthy doc) then fail (EntityNotFoundError id)
  else
    transformed <- transformDocuments_traced ctx params doc ;;
    let (json, origDoc) := transformed in
    mapping <- lift (get_member params "mapping") ;;
    match json with
    | VArr items =>
        if strict_eq mapping (VBool true)
        then res <- lift (mapping_from origDoc 0 items []) ;; ret (VObj res)
        else ret json
    | _ => ret json
    end.

(** [Object.keys(params).forEach(...)]: the id and the [$set] object. *)
Definition update_sets (entries : obj) : value * obj :=
  fold_left
    (fun (acc : value * obj) (kv : string * value) =>
       let (id, sets) := acc in
       let (k, v) := kv in
       if String.eqb k "id" || String.eqb k (idField (settings this))
       then (decodeID this v, sets)
       else (id, obj_set sets k v))
    entries (VUndef, []).

(** [Object.keys(v)]: a [TypeError] on [null] and [undefined]. *)
Definition own_entries_of (v : value) : result obj :=
  if is_nullish v then Err TypeError else Ok (own_entries v).

Definition _update (ctx : Context) (params : value) : M value :=
  entries <- lift (own_entries_of params) ;;
  let (id, sets) := update_sets entries in
  let update := VObj [("$set", VObj sets)] in
  emit (EvUpdateById id update) ;;;
  doc <- external (updateById (adapter this) id update) ;;
  if negb (js_truthy doc) then fail (EntityNotFoundError id)
  else
    json <- transformDocuments ctx params doc ;;
    entityChanged "updated" json ctx ;;;
    ret json.

Definition _remove (ctx : Context) (params : value) : M value :=
  pid <- lift (get_member params "id") ;;
  let id := decodeID this pid in
  emit (EvRemoveById id) ;;;
  doc <- external (removeById (adapter this) id) ;;
  if negb (js_truthy doc) then fail (EntityNotFoundError pid)
  else
    json <- transformDocuments ctx params doc ;;
    entityChanged "removed" json ctx ;;;
    ret json.

(** ** The action handlers *)

Definition find_handler (ctx : Context) : M value :=
  params <- lift (sanitizeParams ctx (ctx_params ctx)) ;;
  _find ctx (VObj params).

Definition count_handler (ctx : Context) : M value :=
  params <- lift (sanitizeParams ctx (ctx_params ctx)) ;;
  _count ctx params.

(** [Object.assign(params.query || {}, { isDeleted: "-1" })]; a query that
    is not an object is read through its own entries. *)
Definition not_deleted_query (query : value) : value :=
  VObj (Object_assign
          (if js_truthy query then own_entries query else [])
          (VObj [("isDeleted", VStr "-1")])).

Definition list_handler (ctx : Context) : M value :=
  params <- lift (sanitizeParams ctx (ctx_params ctx)) ;;
  let params :=
    if softDelete (settings this)
       && negb (js_truthy (prop params "ignoreSoftDelete"))
    then obj_set params "query" (not_deleted_query (prop params "query"))
    else params in
  _list ctx (VObj params).

(** [data.isDeleted !== "-1"]. *)
Definition marked_deleted (data : value) : result bool :=
  rbind (get_member data "isDeleted") (fun d =>
  Ok (negb (strict_eq d (VStr "-1")))).

Definition get_handler (ctx : Context) : M value :=
  params <- lift (sanitizeParams ctx (ctx_params ctx)) ;;
  data <- _get ctx (VObj params) ;;
  if softDelete (settings this)
     && negb (js_truthy (prop params "ignoreSoftDelete"))
  then
    deleted <- lift (marked_deleted data) ;;
    if deleted then fail (EntityLogicallyNotFoundError (prop params "id"))
    else ret data
  else ret data.

Definition update_handler (ctx : Context) : M value :=
  let params := ctx_params ctx in
  data <- _get ctx params ;;
  if softDelete (settings this)
  then
    deleted <- lift (marked_deleted data) ;;
    if deleted
    then id <- lift (get_member params "id") ;;
         fail (EntityLogicallyNotFoundError id)
    else _update ctx params
  else _update ctx params.

Definition remove_handler (ctx : Context) : M value :=
  params <- lift (sanitizeParams ctx (ctx_params ctx)) ;;
  if negb (softDelete (settings this)) then _remove ctx (VObj params)
  else
    data <- _get ctx (VObj params) ;;
    deleted <- lift (marked_deleted data) ;;
    if deleted then fail (EntityLogicallyNotFoundError (prop params "id"))
    else
      now <- external (fun x => (x, Ok (getTime this x))) ;;
      _update ctx (VObj (obj_set params "isDeleted" (VInt now))).

End Model.

Arguments mkWorld {Ext} ext log.
Arguments ext {Ext} w.
Arguments log {Ext} w.
Arguments ret {Ext A} a.
Arguments fail {Ext A} e.
Arguments bind {Ext A B} m k.
Arguments lift {Ext A} r.
Arguments emit {Ext} e.
Arguments external {Ext A} f.
Arguments attempt {Ext A} m.
Arguments foldM {Ext A B} f a l.
Arguments RuleAction {Ext} action.
Arguments RuleObject {Ext} action params populate handler.
Arguments RuleFunction {Ext} handler.
Arguments rule_handler {Ext} r.
Arguments rule_action {Ext} r.
Arguments call_params {Ext} idList r.
Arguments rule_populate {Ext} r.
Arguments rule_params {Ext} r.
Arguments authorizeFields {Ext} this fields_req.
Arguments populate_rule {Ext} ctx populateFields st fr.
Arguments populateDocs {Ext} this ctx docs populateFields.
Arguments to_objects {Ext} this docs.
Arguments encode_ids {Ext} this docs.
Arguments apply_idField {Ext} this docs.
Arguments populate_stage {Ext} this ctx params json.
Arguments effective_fields {Ext} this params.
Arguments filter_stage {Ext} this params json.
Arguments settings_fields {Ext} this.
Arguments transformDocuments {Ext} this ctx params docs.
Arguments seen_after {Ext} this l written.
Arguments transformDocuments_traced {Ext} this ctx params docs.
Arguments getById {Ext} this id decoding.
Arguments clearCache {Ext} this.
Arguments entityChanged {Ext} this type json ctx.
Arguments _find {Ext} this ctx params.
Arguments _count {Ext} this ctx params.
Arguments _list StringToNumber {Ext} this ctx params.
Arguments mapping_from {Ext} this origDoc i json res.
Arguments _get {Ext} this ctx params.
Arguments update_sets {Ext} this entries.
Arguments _update {Ext} this ctx params.
Arguments _remove {Ext} this ctx params.
Arguments find_handler StringToNumber {Ext} this ctx.
Arguments count_handler StringToNumber {Ext} this ctx.
Arguments list_handler StringToNumber {Ext} this ctx.
Arguments get_handler StringToNumber {Ext} this ctx.
Arguments update_handler {Ext} this ctx.
Arguments remove_handler StringToNumber {Ext} this ctx.
Arguments call {Ext} c.
Arguments schema {Ext} s.
Arguments fullName {Ext} s.
Arguments cacher {Ext} s.
Arguments encodeID {Ext} s.
Arguments decodeID {Ext} s.
Arguments getTime {Ext} s.
Arguments broadcast {Ext} s.
Arguments find {Ext} a.
Arguments count {Ext} a.
Arguments findById {Ext} a.
Arguments findByIds {Ext} a.
Arguments updateById {Ext} a.
Arguments removeById {Ext} a.
Arguments entityToObject {Ext} a.
Arguments afterRetrieveTransformID {Ext} a.
Arguments returns_entity {Ext} a.
Arguments returns_document {Ext} a.

(* ================================================================== *)
(** * A store to run the model on *)
(* ================================================================== *)

(** Modelled from the spec: [Number(s)] for the examples, which the
    language defines and the properties take as a parameter.  It reads the
    decimal integer numerals, an optional minus sign and digits, as the
    nearest double and the empty string as 0; the examples use it on such
    strings only.  On the other strings (blanks, a plus sign, fractions,
    exponents, other radices) it answers [NaN] where the language may give
    a number. *)
Fixpoint digits_value (acc : Z) (s : string) : option Z :=
  match s with
  | EmptyString => Some acc
  | String c r =>
      if is_digit c
      then digits_value (10 * acc + Z.of_nat (nat_of_ascii c - 48)) r
      else None
  end.

Definition decimal_number (s : string) : num :=
  match s with
  | EmptyString => Fin 0
  | String "-" (String _ _ as r) =>
      match digits_value 0 r with
      | Some z => double_of_Z (- z)
      | None => NaN
      end
  | _ =>
      match digits_value 0 s with
      | Some z => double_of_Z z
      | None => NaN
      end
  end.

(** Modelled from the spec: the storage adapter.  The mixin requires
    [./memory-adapter], which is not among the sources; the properties are
    proved for any adapter, and the examples run on this one: a list-backed
    collection with a clock, under the adapter contract ([find], [count],
    [findById], [findByIds], [updateById], [removeById], [entityToObject],
    [afterRetrieveTransformID]).  Documents are found by the equality of
    the fields of [query] and identified by [_id]; the transformer works on
    a converted copy of what the adapter holds. *)
Record Store : Type := mkStore {
  collection : list obj;
  clock : Z
}.

Definition matches_query (query : value) (doc : obj) : bool :=
  forallb (fun kv => strict_eq (obj_get doc (fst kv)) (snd kv))
          (own_entries query).

Definition has_id (id : value) (doc : obj) : bool :=
  strict_eq (obj_get doc "_id") id.

Definition page_of (params : value) (rows : list obj) : list obj :=
  let rows := match member_or_undef params "offset" with
              | VNum (Fin z) => skipn (Z.to_nat z) rows
              | _ => rows
              end in
  match member_or_undef params "limit" with
  | VNum (Fin z) => firstn (Z.to_nat z) rows
  | _ => rows
  end.

Definition mem_find (params : value) (s : Store) : Store * result value :=
  (s, Ok (VArr (map VObj
     (page_of params
        (filter (matches_query (member_or_undef params "query"))
                (collection s)))))).

Definition mem_count (params : value) (s : Store) : Store * result value :=
  (s, Ok (VInt (Z.of_nat (length
     (filter (matches_query (member_or_undef params "query"))
             (collection s)))))).

Definition mem_findById (id : value) (s : Store) : Store * result value :=
  (s, Ok (match List.find (has_id id) (collection s) with
          | Some doc => VObj doc
          | None => VNull
          end)).

Definition mem_findByIds (ids : value) (s : Store) : Store * result value :=
  (s, Ok (VArr (map VObj
     (filter (fun doc => array_includes (own_entries_values ids)
                                        (obj_get doc "_id"))
             (collection s))))).

Definition mem_updateById (id update : value) (s : Store)
  : Store * result value :=
  let patch := member_or_undef update "$set" in
  let docs := map (fun doc => if has_id id doc
                              then Object_assign doc patch else doc)
                  (collection s) in
  (mkStore docs (clock s),
   Ok (match List.find (has_id id) docs with
       | Some doc => VObj doc
       | None => VNull
       end)).

Definition mem_removeById (id : value) (s : Store) : Store * result value :=
  (mkStore (filter (fun doc => negb (has_id id doc)) (collection s)) (clock s),
   Ok (match List.find (has_id id) (collection s) with
       | Some doc => VObj doc
       | None => VNull
       end)).

(** Modelled from the spec: the adapter contract over the list-backed
    collection. *)
Definition mem_adapter : Adapter Store :=
  mkAdapter Store mem_find mem_count mem_findById mem_findByIds
            mem_updateById mem_removeById own_entries (fun doc _ => doc)
            false false.

(** A remote [get] in mapping mode over a directory of entities: the answer
    maps every requested id that is known to its entity. *)
Definition directory_call (directory : obj) (action : string) (params : value)
           (s : Store) : Store * result value :=
  (s, Ok (VObj (filter
     (fun kv => existsb (fun id => String.eqb (ToString id) (fst kv))
                        (own_entries_values (member_or_undef params "id")))
     directory))).

Definition mem_settings : Settings Store :=
  mkSettings Store "_id" None None 10 100 (-1) false.

Definition mem_service (st : Settings Store) : Service Store :=
  mkService Store st mem_adapter (fun _ => None) "posts"
            (fun _ s => s) None (fun id => id) (fun id => id) clock.

Definition mem_context (action_name : string) (params : value)
  : Context Store :=
  mkContext Store (VObj [("name", VStr action_name)]) params
            (directory_call []).

Definition run {A} (m : M Store A) (s : Store) : world Store * result A :=
  m (mkWorld s []).

Arguments sanitizeParams StringToNumber {Ext} this ctx params.
Arguments paginate StringToNumber {Ext} this p.
Arguments limit_the_limit StringToNumber {Ext} this p.
Arguments paginated StringToNumber {Ext} this p.
Arguments limited StringToNumber {Ext} this p.
Arguments settings {Ext} s.
Arguments adapter {Ext} s.
Arguments action {Ext} c.
Arguments ctx_params {Ext} c.
Arguments pageSize {Ext} s.
Arguments maxPageSize {Ext} s.
Arguments maxLimit {Ext} s.
Arguments idField {Ext} s.
Arguments fields {Ext} s.
Arguments populates {Ext} s.
Arguments softDelete {Ext} s.

(* ================================================================== *)
(** * The specification, in its own words *)
(* ================================================================== *)

(** What the caller supplied under a key. *)
Definition raw_param (params : value) (k : string) : value :=
  obj_get (Object_assign [] params) k.

(** Numeric coercion of a string-typed parameter. *)
Definition coerce_number (N : string -> num) (v : value) : value :=
  match v with
  | VStr s => VNum (N s)
  | _ => v
  end.

(** List coercion of a string-typed parameter: the pieces between commas
    and spaces. *)
Definition coerce_list (v : value) : value :=
  match v with
  | VStr s => VArr (map VStr (split_on " " (replace_commas s)))
  | _ => v
  end.

(** When the sanitizer can compare and compute: under a listing action the
    page and the page size have a primitive value; under another action the
    limit has one, or there is no positive [maxLimit] to compare it with.
    Every value a request can hold has a primitive value but an object
    with a member named [toString], and a list that holds such an object. *)
Definition sanitizer_converts {Ext} (st : Settings Ext) (name : string)
           (params : value) : bool :=
  if endsWith name ".list"
  then has_primitive (raw_param params "pageSize")
       && has_primitive (raw_param params "page")
  else negb (0 <? maxLimit st)%Z
       || has_primitive (raw_param params "limit").

(** Effective page size: the supplied one, the configured default when
    there is none, clamped to the configured maximum when that maximum is
    positive and exceeded. *)
Definition spec_pageSize (N : string -> num) {Ext} (st : Settings Ext)
           (supplied : value) : value :=
  let size := coerce_number N supplied in
  let size := if js_truthy size then size else VInt (pageSize st) in
  if (0 <? maxPageSize st)%Z && gt_prim N size (Fin (maxPageSize st))
  then VInt (maxPageSize st) else size.

(** Effective page: the supplied one, 1 when there is none. *)
Definition spec_page (N : string -> num) (supplied : value) : value :=
  let page := coerce_number N supplied in
  if js_truthy page then page else VInt 1.

(** Clamping of the limit to a positive configured maximum. *)
Definition spec_limit (N : string -> num) {Ext} (st : Settings Ext)
           (limit : value) : value :=
  if (0 <? maxLimit st)%Z && gt_prim N limit (Fin (maxLimit st))
  then VInt (maxLimit st) else limit.

(** The field authorizer in the words of the specification: a requested
    field is kept when it is in the allow-list; otherwise it is kept when a
    dotted-path parent of it is in the allow-list; otherwise the allow-list
    entries that are strict sub-paths of it stand in for it. *)
Fixpoint proper_prefixes (parts : list string) : list (list string) :=
  match parts with
  | [] => []
  | [_] => []
  | p :: r => [p] :: map (cons p) (proper_prefixes r)
  end.

Definition has_allowed_parent (allow : list string) (f : string) : bool :=
  existsb (fun pre => allowed allow (join "." pre))
          (proper_prefixes (split_on "." f)).

Definition strict_subpaths (allow : list string) (f : string) : list string :=
  filter (String.prefix (f ++ ".")) allow.

Definition spec_authorize_one (allow : list string) (f : string)
  : list string :=
  if allowed allow f then [f]
  else if has_allowed_parent allow f then [f]
  else strict_subpaths allow f.

Definition spec_authorizeFields (allow : option (list string))
           (requested : list string) : list string :=
  match allow with
  | Some ((_ :: _) as a) => flat_map (spec_authorize_one a) requested
  | _ => requested
  end.

(** A requested field on which the allow-list is well-formed for the
    authorizer: when the field is not itself allowed, the entries that
    contain it followed by a dot are those that start with it, and there is
    none when a parent of the field is allowed. *)
Definition plainly_nested (allow : list string) (f : string) : Prop :=
  allowed allow f = false ->
  nestedFields allow (VStr f) = strict_subpaths allow f /\
  (has_allowed_parent allow f = true -> nestedFields allow (VStr f) = []).

(** The id list of a relation in the words of the specification: the
    relation values of all documents, flattened, without nulls, without
    duplicates. *)
Definition spec_idList (field : string) (docs : list obj) : list value :=
  uniq (filter (fun v => negb (is_nullish v))
               (flattenDeep (map (fun doc => obj_get doc field) docs))).

(** What a relation value becomes under an answer that maps ids to
    entities: a list of ids becomes the list of the entities found, a single
    id the entity found (or [undefined]). *)
Definition resolved (populatedDocs : value) (v : value) : value :=
  match v with
  | VArr ids =>
      VArr (compact (map (fun id => member_or_undef populatedDocs
                                                    (ToString id)) ids))
  | id => member_or_undef populatedDocs (ToString id)
  end.

(** A relation value that holds no id: a falsy value, or an array that is
    empty at every depth. *)
Definition holds_no_id (v : value) : bool :=
  negb (js_truthy v)
  || match flatten_value v with [] => true | _ => false end.

(** The log of a cache invalidation and of the dispatch of a lifecycle
    event to its hook. *)
Definition clear_events {Ext} (this : Service Ext) : list event :=
  EvBroadcast ("cache.clean." ++ fullName this)
  :: match cacher this with
     | Some _ => [EvCacheClean (fullName this ++ ".*")]
     | None => []
     end.

Definition hook_events {Ext} (this : Service Ext) (name : string)
           (json : value) : list event :=
  match schema this name with
  | Some _ => [EvHook name json]
  | None => []
  end.

(** [ceil (a / b)] on integers. *)
Definition ceil_div (a b : Z) : Z := (- ((- a) / b))%Z.

(** A numeric parameter the schema of the action has validated: absent, or
    an integer. *)
Definition opt_value (o : option Z) : value :=
  match o with
  | Some z => VInt z
  | None => VUndef
  end.

(** Effective page size and page on validated parameters. *)
Definition effective_size {Ext} (st : Settings Ext) (supplied : option Z)
  : Z :=
  let size := match supplied with
              | Some a => if (a =? 0)%Z then pageSize st else a
              | None => pageSize st
              end in
  if (0 <? maxPageSize st)%Z && (maxPageSize st <? size)%Z
  then maxPageSize st else size.

Definition effective_page (supplied : option Z) : Z :=
  match supplied with
  | Some b => if (b =? 0)%Z then 1%Z else b
  | None => 1%Z
  end.

(** The parameters the [list] action hands to [_list], and those of the
    count. *)
Definition list_params {Ext} (this : Service Ext) (p : obj) : obj :=
  if softDelete (settings this)
     && negb (js_truthy (prop p "ignoreSoftDelete"))
  then obj_set p "query" (not_deleted_query (prop p "query"))
  else p.

Definition count_params (params : obj) : obj :=
  null_if_truthy "offset"
    (null_if_truthy "limit" (Object_assign [] (VObj params))).

(** A requested relation with ids to resolve. *)
Definition wanted {Ext} (pf : list value) (docs : list obj)
           (fr : string * rule Ext) : bool :=
  array_includes pf (VStr (fst fr))
  && (0 <? length (idList_of (fst fr) docs))%nat.

(** The call that resolves it. *)
Definition call_event {Ext} (docs : list obj) (fr : string * rule Ext)
  : event :=
  EvCall (fst fr) (rule_action (snd fr))
         (call_params (idList_of (fst fr) docs) (snd fr)).

(** The requested relations resolve through remote actions. *)
Definition remote_rules {Ext} (pf : list value)
           (rules : list (string * rule Ext)) : Prop :=
  Forall (fun fr => array_includes pf (VStr (fst fr)) = true ->
                    rule_handler (snd fr) = None) rules.

(** A blank identity: [undefined], [null] or the empty string. *)
Definition is_blank (v : value) : bool :=
  is_nullish v || strict_eq v (VStr "").

(** First segment of a dotted path. *)
Definition first_segment (s : string) : string :=
  hd EmptyString (split_on "." s).

(** A path written with dots alone: the bracket syntax of lodash paths is
    outside the model. *)
Definition dotted (s : string) : Prop :=
  str_contains "[" s = false /\ str_contains "]" s = false.

(** A plain name: a path of one segment. *)
Definition plain_name (s : string) : Prop :=
  str_contains "." s = false /\ dotted s.

(** The members that every object inherits from [Object.prototype]: a
    document answers to these names whether or not it holds them. *)
Definition inherited_names : list string :=
  ["constructor"; "__defineGetter__"; "__defineSetter__"; "hasOwnProperty";
   "__lookupGetter__"; "__lookupSetter__"; "isPrototypeOf";
   "propertyIsEnumerable"; "toString"; "valueOf"; "__proto__";
   "toLocaleString"].

(** A name under which an object holds what was put there and nothing
    else: a plain name that is neither inherited nor refused by [_.set]. *)
Definition own_name (s : string) : Prop :=
  plain_name s /\ ~ In s inherited_names /\ guarded_key s = false.

(** A name the field filter can be trusted with: a plain name that is not
    inherited, unless it is one of the names [_.set] refuses to write. *)
Definition filter_name (s : string) : Prop :=
  plain_name s /\ (guarded_key s = true \/ ~ In s inherited_names).

(** A field list that keeps the identity field [idf]: no list at all (the
    filter then returns the entity as it is), or a list of names written
    with dots alone, with [idf] among them and no other entry that is a
    path into [idf]. *)
Definition fields_keep (idf : string) (fields_auth : value) : Prop :=
  match fields_auth with
  | VArr ns =>
      exists names,
        ns = map VStr names /\
        In idf names /\
        Forall (fun s => dotted s /\ (s = idf \/ first_segment s <> idf))
               names
  | _ => True
  end.

(** A population that leaves the field [idf] to itself: nothing to
    populate, or remote rules none of which is a rule for [idf]. *)
Definition population_spares {Ext} (this : Service Ext) (populate : value)
           (idf : string) : Prop :=
  match populates (settings this), populate with
  | Some rules, VArr pf => remote_rules pf rules /\ ~ In idf (map fst rules)
  | _, _ => True
  end.

(** No string is left under a key. *)
Definition typed_at (p : obj) (k : string) : Prop :=
  is_string (prop p k) = false.

(** Every event a computation adds to the log satisfies [P]. *)
Definition emits {Ext A} (P : event -> Prop) (m : M Ext A) : Prop :=
  forall w w' r, m w = (w', r) ->
    exists l, log w' = log w ++ l /\ Forall P l.

(** The parameters the sanitizer coerces. *)
Definition coerced_params : list string :=
  ["limit"; "offset"; "page"; "pageSize";
   "sort"; "fields"; "populate"; "searchFields"].

(* ================================================================== *)
(** * The stores of the examples *)
(* ================================================================== *)

(** A listing request with string-typed and caller-supplied values. *)
Definition list_request : value :=
  VObj [("pageSize", VStr "100"); ("page", VInt 2);
        ("limit", VInt 7); ("offset", VInt 3)].

(** A service over the store with an allow-list of fields. *)
Definition allow_service (allow : list string) : Service Store :=
  mem_service (mkSettings Store "_id" (Some allow) None 10 100 (-1) false).

(** The store and the service of the population examples: posts whose
    [owner] is resolved by the action [users.get] over a directory that
    knows the user 42. *)
Definition users : obj :=
  [("42", VObj [("_id", VStr "42"); ("name", VStr "Ann")])].

Definition posts_service : Service Store :=
  mem_service (mkSettings Store "_id" None
                 (Some [("owner", RuleAction "users.get")]) 10 100 (-1) false).

Definition posts_context : Context Store :=
  mkContext Store (VObj [("name", VStr "posts.find")]) VNull
            (directory_call users).

Definition empty_store : Store := mkStore [] 0.

(** Posts without owner. *)
Definition orphan_posts : list obj :=
  [[("_id", VInt 1); ("owner", VNull)]; [("_id", VInt 2); ("owner", VArr [])]].

(** A custom handler is called whether or not there are ids, and what
    becomes of the relation is its affair. *)
Definition touch_handler : Handler Store :=
  fun ids docs field s =>
    (s, Ok (map (fun d => obj_set d field (VStr "resolved")) docs)).

(** [get] of the id [missing] on an empty collection. *)
Definition get_missing : Context Store :=
  mem_context "posts.get" (VObj [("id", VStr "missing")]).

(** A service with soft deletion, a cacher and a hook for every lifecycle
    event, over a store with one live post. *)
Definition audited_service : Service Store :=
  mkService Store (mkSettings Store "_id" None None 10 100 (-1) true)
            mem_adapter (fun _ => Some (fun _ s => (s, Ok VUndef))) "posts"
            (fun _ s => s) (Some (fun _ s => (s, Ok VUndef)))
            (fun id => id) (fun id => id) clock.

Definition live_post : obj :=
  [("_id", VStr "1"); ("title", VStr "t"); ("isDeleted", VStr "-1")].

Definition marked_post : obj :=
  [("_id", VStr "1"); ("title", VStr "t"); ("isDeleted", VInt 1000)].

Definition one_post : Store := mkStore [live_post] 1000.

Definition remove_1 : Context Store :=
  mem_context "posts.remove" (VObj [("id", VStr "1")]).

(** The world after the soft [remove] of that post. *)
Definition soft_removed : world Store :=
  mkWorld (mkStore [marked_post] 1000)
    [EvFindById (VStr "1");
     EvUpdateById (VStr "1") (VObj [("$set", VObj [("isDeleted", VInt 1000)])]);
     EvBroadcast "cache.clean.posts";
     EvCacheClean "posts.*";
     EvHook "entityUpdated" (VObj marked_post)].

Definition get_1 : Context Store :=
  mem_context "posts.get" (VObj [("id", VStr "1")]).

Definition after_get (w : world Store) : world Store :=
  mkWorld (ext w) (log w ++ [EvFindById (VStr "1")]).

(** A collection of 25 posts, and the first page of 10. *)
Definition posts25 : list obj :=
  map (fun i => [("_id", VInt (Z.of_nat i)); ("title", VStr "post")])
      (seq 1 25).

Definition store25 : Store := mkStore posts25 0.

Definition first_page : Context Store :=
  mem_context "posts.list" (VObj [("page", VInt 1); ("pageSize", VInt 10)]).

Definition first_page_params : obj :=
  [("page", VInt 1); ("pageSize", VInt 10);
   ("limit", VInt 10); ("offset", VInt 0)].

Definition first_page_rows : value := VArr (map VObj (firstn 10 posts25)).

Definition first_page_world : world Store :=
  mkWorld store25
    [EvFind (VObj first_page_params);
     EvCount (VObj (count_params first_page_params))].

(** Two users under the allow-list [_id, name]: the transformed entities
    keep their identities and lose the field that is not allowed. *)
Definition two_users : list value :=
  [VObj [("_id", VStr "1"); ("name", VStr "Ann"); ("secret", VStr "x")];
   VObj [("_id", VStr "2"); ("name", VStr "Bob"); ("secret", VStr "y")]].

(* ================================================================== *)
(** * Predicates of the further properties *)
(* ================================================================== *)

(** What an authorized field is: an entry of the allow-list, or a requested
    field below an entry of the allow-list (the entry followed by a dot
    starts it). *)
Definition authorized (allow : list string) (fs : list value) (g : value)
  : Prop :=
  exists s, g = VStr s /\
    (In s allow \/
     (In g fs /\ exists parent, In parent allow
                                /\ String.prefix (parent ++ ".") s = true)).

(** An entity that shows nothing at its top level but the first segments of
    the entries of the allow-list. *)
Definition exposes_only (allow : list string) (item : value) : Prop :=
  exists r, item = VObj r
            /\ Forall (fun k => In k (map first_segment allow)) (obj_keys r).

(** Two objects that hold the same value under every key. *)
Definition same_entries (a b : obj) : Prop :=
  forall k, lookup a k = lookup b k.

(** A remote call that asks the target to look past soft deletion. *)
Definition ignores_soft_delete (e : event) : Prop :=
  match e with
  | EvCall _ _ params =>
      member_or_undef params "ignoreSoftDelete" = VBool true
  | _ => True
  end.

(** The string of the identity that a document holds. *)
Definition stored_key {Ext} (this : Service Ext) (d : obj) : string :=
  ToString (obj_get d (idField (settings this))).

(** The identity under which the mapping of a [get] holds the entity of a
    loaded document: [origDoc] is read once the transformation has run, so
    it is the encoded identity when [entityToObject] hands out the entity
    itself, and the identity as loaded when it hands out a copy. *)
Definition mapping_id {Ext} (this : Service Ext) (d : obj) : value :=
  let idf := idField (settings this) in
  if returns_entity (adapter this)
  then encodeID this (obj_get (entityToObject (adapter this) (VObj d)) idf)
  else obj_get d idf.

Definition mapping_key {Ext} (this : Service Ext) (d : obj) : string :=
  ToString (mapping_id this d).

(** The parameters that name the entity of an update: [id] and the
    identity field. *)
Definition is_id_key {Ext} (this : Service Ext) (k : string) : bool :=
  String.eqb k "id" || String.eqb k (idField (settings this)).

(** The last of the entries that names the entity. *)
Definition last_id_entry {Ext} (this : Service Ext) (entries : obj)
  : option (string * value) :=
  List.find (fun kv => is_id_key this (fst kv)) (rev entries).

(* ================================================================== *)
(** * Saving: [validateEntity], [_create], [_insert] *)
(* ================================================================== *)

Section Saving.

Variable StringToNumber : string -> num.
Variable Ext : Type.

(** [settings.entityValidator] once it is a function: called with an
    entity, it answers with a promise. *)
Definition Validator : Type := value -> Ext -> Ext * result value.

(** The part of the storage adapter that saving uses. *)
Record SaveAdapter : Type := mkSaveAdapter {
  beforeSaveTransformID : value -> string -> value;
  insert : value -> Ext -> Ext * result value;
  insertMany : value -> Ext -> Ext * result value
}.

Variable this : Service Ext.
Variable saver : SaveAdapter.
Variable entityValidator : option Validator.

(** [entities.map(entity => validator.call(this, entity))]: the validator
    is called on every entity, in order, and every promise is kept. *)
Fixpoint validate_each (v : Validator) (entities : list value)
  : M Ext (list (result value)) :=
  match entities with
  | [] => ret []
  | e :: r =>
      bind (attempt (external (v e))) (fun o =>
      bind (validate_each v r) (fun os =>
      ret (o :: os)))
  end.

(** [Promise.all]: the values of the promises, or the rejection of the
    first of them that is rejected. *)
Definition Promise_all (os : list (result value)) : result (list value) :=
  mapM (fun o => o) os.

Definition validateEntity (entity : value) : M Ext value :=
  match entityValidator with
  | None => ret entity
  | Some v =>
      let entities := match entity with
                      | VArr l => l
                      | _ => [entity]
                      end in
      bind (validate_each v entities) (fun os =>
      bind (lift (Promise_all os)) (fun _ =>
      ret entity))
  end.

Definition _create (ctx : Context Ext) (params : value) : M Ext value :=
  bind (validateEntity params) (fun entity =>
  let entity := beforeSaveTransformID saver entity (idField (settings this)) in
  bind (external (insert saver entity)) (fun doc =>
  bind (transformDocuments this ctx (VObj []) doc) (fun json =>
  bind (entityChanged this "created" json ctx) (fun _ =>
  ret json)))).

(** [entities.map(f)]: a method of arrays. *)
Definition array_map (f : value -> value) (v : value) : result value :=
  match v with
  | VArr l => Ok (VArr (map f l))
  | _ => Err TypeError
  end.

Definition invalid_insert : error :=
  MoleculerClientError
    "Invalid request! The 'params' must contain 'entity' or 'entities'!" 400.

Definition _insert (ctx : Context Ext) (params : value) : M Ext value :=
  let idf := idField (settings this) in
  bind (lift (get_member params "entities")) (fun entities =>
  bind (if isArray entities then
          bind (validateEntity entities) (fun entities =>
          bind (if String.eqb idf "_id" then ret entities
                else lift (array_map
                             (fun entity =>
                                beforeSaveTransformID saver entity idf)
                             entities)) (fun entities =>
          external (insertMany saver entities)))
        else
          bind (lift (get_member params "entity")) (fun entity =>
          if js_truthy entity then
            bind (validateEntity entity) (fun entity =>
            external (insert saver (beforeSaveTransformID saver entity idf)))
          else fail invalid_insert)) (fun docs =>
  bind (transformDocuments this ctx params docs) (fun json =>
  bind (entityChanged this "created" json ctx) (fun _ =>
  ret json)))).

(** The action handlers. *)

Definition create_handler (ctx : Context Ext) : M Ext value :=
  _create ctx (ctx_params ctx).

Definition insert_handler (ctx : Context Ext) : M Ext value :=
  bind (lift (sanitizeParams StringToNumber this ctx (ctx_params ctx)))
       (fun params => _insert ctx (VObj params)).

(** The validator that [created] makes of a validation schema: [check] is
    the schema compiled by the validator of the broker; the entity passes
    when [check] answers [true], and is rejected with a [ValidationError]
    (message, type, data) that carries the answer otherwise. *)
Definition ValidationError (data : value) : error :=
  Rejected (VObj [("name", VStr "ValidationError");
                  ("message", VStr "Entity validation error!");
                  ("type", VNull);
                  ("data", data)]).

Definition schema_validator (check : value -> value) : Validator :=
  fun entity x =>
    let res := check entity in
    (x, if strict_eq res (VBool true) then Ok VUndef
        else Err (ValidationError res)).

End Saving.

Arguments mkSaveAdapter {Ext} beforeSaveTransformID insert insertMany.
Arguments beforeSaveTransformID {Ext} s.
Arguments insert {Ext} s.
Arguments insertMany {Ext} s.
Arguments validate_each {Ext} v entities.
Arguments validateEntity {Ext} entityValidator entity.
Arguments _create {Ext} this saver entityValidator ctx params.
Arguments _insert {Ext} this saver entityValidator ctx params.
Arguments create_handler {Ext} this saver entityValidator ctx.
Arguments insert_handler StringToNumber {Ext} this saver entityValidator ctx.
Arguments schema_validator {Ext} check.

(* ================================================================== *)
(** * The lifecycle: [connect], [disconnect], [started], [stopped] *)
(* ================================================================== *)

Section Lifecycle.

Variable Ext : Type.

(** What the service tells its logger, and when it waits
    ([setTimeout]). *)
Inductive notice : Type :=
| LogError (message : string) (err : error)
| LogWarn (message : string)
| Wait (ms : Z).

(** What a call of [schema.afterConnected] comes to: it throws, or it
    returns (a value or a promise, read as its outcome). *)
Inductive outcome : Type :=
| Throws (err : error)
| Returns (r : result value).

(** The adapter and the schema, as the lifecycle uses them. *)
Record Lifecycle : Type := mkLifecycle {
  adapter_connect : Ext -> Ext * result value;
  adapter_disconnect : option (Ext -> Ext * result value);
  afterConnected : option (Ext -> Ext * outcome)
}.

(** A promise, as far as it has been watched. *)
Inductive promise : Type :=
| Pending
| Settled (r : result value).

(** The state of the collaborators and what has been logged. *)
Definition life : Type := (Ext * list notice)%type.

Definition connect (c : Lifecycle) (s : life) : life * result value :=
  let (x, notes) := s in
  match adapter_connect c x with
  | (x1, Err e) => ((x1, notes), Err e)
  | (x1, Ok _) =>
      match afterConnected c with
      | None => ((x1, notes), Ok VUndef)
      | Some f =>
          match f x1 with
          | (x2, Throws err) =>
              ((x2, notes ++ [LogError "afterConnected error!" err]),
               Ok VUndef)
          | (x2, Returns r) => ((x2, notes), r)
          end
      end
  end.

Definition disconnect (c : Lifecycle) (s : life) : life * result value :=
  let (x, notes) := s in
  match adapter_disconnect c with
  | Some f => let (x1, r) := f x in ((x1, notes), r)
  | None => (s, Ok VUndef)
  end.

(** The loop of [started]: a connection that fails is logged and tried
    again after a second; [fuel] bounds the attempts that are watched. *)
Fixpoint connecting (c : Lifecycle) (fuel : nat) (s : life) : life * promise :=
  match fuel with
  | O => (s, Pending)
  | S fuel' =>
      match connect c s with
      | (s1, Ok v) => (s1, Settled (Ok v))
      | ((x, notes), Err err) =>
          connecting c fuel'
            (x, notes ++ [LogError "Connection error!" err;
                          Wait 1000;
                          LogWarn "Reconnecting..."])
      end
  end.

Definition missing_adapter : error :=
  Rejected (VObj [("name", VStr "Error");
                  ("message", VStr "Please set the store adapter in schema!")]).

Definition started (c : option Lifecycle) (fuel : nat) (s : life)
  : life * promise :=
  match c with
  | Some c => connecting c fuel s
  | None => (s, Settled (Err missing_adapter))
  end.

Definition stopped (c : option Lifecycle) (s : life) : life * result value :=
  match c with
  | Some c => disconnect c s
  | None => (s, Ok VUndef)
  end.

End Lifecycle.

Arguments mkLifecycle {Ext} adapter_connect adapter_disconnect afterConnected.
Arguments adapter_connect {Ext} l.
Arguments adapter_disconnect {Ext} l.
Arguments afterConnected {Ext} l.
Arguments connect {Ext} c s.
Arguments disconnect {Ext} c s.
Arguments connecting {Ext} c fuel s.
Arguments started {Ext} c fuel s.
Arguments stopped {Ext} c s.

(** The three notices that a failed attempt to connect leaves: the error
    is logged, a second is waited, the new attempt is announced. *)
Definition retry_notices (err : error) : list notice :=
  [LogError "Connection error!" err; Wait 1000; LogWarn "Reconnecting..."].

(** The errors of the first [n] calls of the connect of the adapter, one
    after the other from the store [x], up to the first call that succeeds,
    and the store they leave. *)
Fixpoint failures {Ext : Type} (c : Lifecycle Ext) (n : nat) (x : Ext)
  : Ext * list error :=
  match n with
  | O => (x, [])
  | S n' =>
      match adapter_connect c x with
      | (x1, Err e) => let (x', errs) := failures c n' x1 in (x', e :: errs)
      | (x1, Ok _) => (x1, [])
      end
  end.

(* ================================================================== *)
(** * More stores for the examples *)
(* ================================================================== *)

(** A service whose [maxLimit] is 50. *)
Definition capped_service : Service Store :=
  mem_service (mkSettings Store "_id" None None 10 100 50 false).

(** A service with a cacher and a hook for every lifecycle event, without
    soft deletion. *)
Definition hooked_service : Service Store :=
  mkService Store mem_settings mem_adapter
            (fun _ => Some (fun _ s => (s, Ok VUndef))) "posts"
            (fun _ s => s) (Some (fun _ s => (s, Ok VUndef)))
            (fun id => id) (fun id => id) clock.

(** Modelled from the spec: the saving side of the list-backed adapter.
    Documents are appended to the collection as they are given, and the
    identity field is stored under its own name. *)
Definition mem_saver : SaveAdapter Store :=
  mkSaveAdapter
    (fun entity _ => entity)
    (fun entity s =>
       (mkStore (collection s ++ [own_entries entity]) (clock s), Ok entity))
    (fun entities s =>
       (mkStore (collection s ++ map own_entries (own_entries_values entities))
                (clock s),
        Ok entities)).

(** A compiled schema that asks for a [name]. *)
Definition requires_name (entity : value) : value :=
  if is_string (member_or_undef entity "name") then VBool true
  else VArr [VStr "name is required"].

(** A service over an adapter whose [find] is rejected. *)
Definition broken_service : Service Store :=
  mkService Store mem_settings
            (mkAdapter Store (fun _ s => (s, Err (Rejected (VStr "down"))))
                       mem_count mem_findById mem_findByIds
                       mem_updateById mem_removeById own_entries
                       (fun doc _ => doc) false false)
            (fun _ => None) "posts" (fun _ s => s) None
            (fun id => id) (fun id => id) clock.

(** Two posts, and the request for both in one mapping. *)
Definition two_posts : list obj :=
  [[("_id", VStr "1"); ("title", VStr "one")];
   [("_id", VStr "2"); ("title", VStr "two")]].

Definition get_both : value :=
  VObj [("id", VArr [VStr "1"; VStr "2"]); ("mapping", VBool true)].

(** A service that shows its identities with the prefix [id-], over an
    adapter that hands out the entities themselves and works in place; the
    request for the two posts under their encoded identities. *)
Definition sharing_adapter : Adapter Store :=
  mkAdapter Store mem_find mem_count mem_findById mem_findByIds
            mem_updateById mem_removeById own_entries (fun doc _ => doc)
            true true.

Definition prefixed (id : value) : value := VStr ("id-" ++ ToString id).

Definition unprefixed (id : value) : value :=
  match id with
  | VStr s => VStr (String.substring 3 (String.length s - 3) s)
  | _ => id
  end.

Definition encoding_service : Service Store :=
  mkService Store mem_settings sharing_adapter (fun _ => None) "posts"
            (fun _ s => s) None prefixed unprefixed clock.

Definition get_both_encoded : value :=
  VObj [("id", VArr [VStr "id-1"; VStr "id-2"]); ("mapping", VBool true)].

(** An adapter that cannot connect, and a schema whose [afterConnected]
    throws. *)
Definition unreachable : Lifecycle Store :=
  mkLifecycle (fun s => (s, Err (Rejected (VStr "ECONNREFUSED")))) None None.

Definition throwing_hook : Lifecycle Store :=
  mkLifecycle (fun s => (s, Ok VUndef)) None
              (Some (fun s => (s, Throws TypeError))).

(* ================================================================== *)
(** * Properties *)
(* ================================================================== *)

(** ** Objects as association lists *)

Lemma lookup_set_same (m : obj) (k : string) (v : value) :
  lookup (obj_set m k v) k = Some v.
Proof.
  induction m as [|[k0 v0] m IH]; simpl.
  - now rewrite String.eqb_refl.
  - destruct (String.eqb k0 k) eqn:E; simpl.
    + now rewrite String.eqb_refl.
    + now rewrite E.
Qed.

Lemma lookup_set_other (m : obj) (k k' : string) (v : value) :
  k <> k' -> lookup (obj_set m k v) k' = lookup m k'.
Proof.
  intros Hne. induction m as [|[k0 v0] m IH]; simpl.
  - destruct (String.eqb k k') eqn:E; [|reflexivity].
    apply String.eqb_eq in E. contradiction.
  - destruct (String.eqb k0 k) eqn:E; simpl.
    + apply String.eqb_eq in E. subst k0.
      destruct (String.eqb k k') eqn:E2; [|reflexivity].
      apply String.eqb_eq in E2. contradiction.
    + destruct (String.eqb k0 k'); [reflexivity|exact IH].
Qed.

Lemma get_set_same (m : obj) (k : string) (v : value) :
  obj_get (obj_set m k v) k = v.
Proof. unfold obj_get. now rewrite lookup_set_same. Qed.

Lemma get_set_other (m : obj) (k k' : string) (v : value) :
  k <> k' -> obj_get (obj_set m k v) k' = obj_get m k'.
Proof. intros H. unfold obj_get. now rewrite lookup_set_other. Qed.

Lemma get_set_cases (m : obj) (k k' : string) (v : value) :
  obj_get (obj_set m k v) k' = if String.eqb k k' then v else obj_get m k'.
Proof.
  destruct (String.eqb k k') eqn:E.
  - apply String.eqb_eq in E. subst. apply get_set_same.
  - apply String.eqb_neq in E. now apply get_set_other.
Qed.

(** ** Dotted paths *)

Lemma split_on_plain (s : string) :
  str_contains "." s = false -> split_on "." s = [s].
Proof.
  unfold str_contains. induction s as [|c r IH]; [reflexivity|].
  cbn [String.index split_on prefix].
  destruct (ascii_dec "." c) as [<-|Hc];
    [destruct r; cbn [prefix]; intros H; discriminate H|].
  destruct (Ascii.eqb c ".") eqn:E.
  - apply Ascii.eqb_eq in E. subst c. contradiction.
  - destruct (String.index 0 "." r); [discriminate|].
    intros _. now rewrite IH.
Qed.

Lemma split_on_cons (sep : ascii) (s : string) :
  exists k rest, split_on sep s = k :: rest.
Proof.
  destruct s as [|c r]; cbn; [now eexists; eexists|].
  destruct (Ascii.eqb c sep); [now eexists; eexists|].
  destruct (split_on sep r); now eexists; eexists.
Qed.

(** ** Parameter sanitizer *)

Section SanitizerProperties.

Variable N : string -> num.
Variable Ext : Type.
Variable this : Service Ext.

Lemma number_field_same (k : string) (p : obj) :
  prop (number_field N k p) k = coerce_number N (prop p k).
Proof.
  unfold number_field, prop.
  destruct (obj_get p k) eqn:E; simpl; rewrite ?E; try reflexivity.
  apply get_set_same.
Qed.

Lemma number_field_other (k k' : string) (p : obj) :
  k <> k' -> prop (number_field N k p) k' = prop p k'.
Proof.
  intros H. unfold number_field, prop.
  destruct (obj_get p k); try reflexivity.
  now apply get_set_other.
Qed.

Lemma list_field_other (k k' : string) (p : obj) :
  k <> k' -> prop (list_field k p) k' = prop p k'.
Proof.
  intros H. unfold list_field, prop.
  destruct (obj_get p k); try reflexivity.
  now apply get_set_other.
Qed.

Lemma typed_set (p : obj) (k k' : string) (v : value) :
  is_string v = false -> typed_at p k' -> typed_at (obj_set p k v) k'.
Proof.
  unfold typed_at, prop. intros Hv Hp. rewrite get_set_cases.
  now destruct (String.eqb k k').
Qed.

Lemma number_field_typed (k : string) (p : obj) :
  typed_at (number_field N k p) k.
Proof.
  unfold typed_at. rewrite number_field_same.
  now destruct (prop p k).
Qed.

Lemma number_field_keeps (k k' : string) (p : obj) :
  typed_at p k' -> typed_at (number_field N k p) k'.
Proof.
  intros H. unfold number_field.
  destruct (prop p k); try exact H. now apply typed_set.
Qed.

Lemma list_field_typed (k : string) (p : obj) :
  typed_at (list_field k p) k.
Proof.
  unfold typed_at, list_field, prop.
  destruct (obj_get p k) eqn:E; rewrite ?E; try reflexivity.
  now rewrite get_set_same.
Qed.

Lemma list_field_keeps (k k' : string) (p : obj) :
  typed_at p k' -> typed_at (list_field k p) k'.
Proof.
  intros H. unfold list_field.
  destruct (prop p k); try exact H. now apply typed_set.
Qed.

Lemma typed_unless (b : bool) (p : obj) (k k' : string) (v : value) :
  is_string v = false -> typed_at p k' ->
  typed_at (if b then p else obj_set p k v) k'.
Proof. intros Hv Hp. destruct b; [exact Hp|now apply typed_set]. Qed.

Lemma typed_when (b : bool) (p : obj) (k k' : string) (v : value) :
  is_string v = false -> typed_at p k' ->
  typed_at (if b then obj_set p k v else p) k'.
Proof. intros Hv Hp. destruct b; [now apply typed_set|exact Hp]. Qed.

Lemma paginate_keeps (k' : string) (p : obj) :
  typed_at p "pageSize" -> typed_at p k' -> typed_at (paginated N this p) k'.
Proof.
  intros Hs Hk. unfold paginated. cbv zeta.
  apply typed_set; [reflexivity|].
  apply typed_set.
  - apply typed_when; [reflexivity|].
    apply typed_unless; [reflexivity|].
    now apply typed_unless.
  - apply typed_when; [reflexivity|].
    apply typed_unless; [reflexivity|].
    now apply typed_unless.
Qed.

Lemma limit_the_limit_keeps (k' : string) (p : obj) :
  typed_at p k' -> typed_at (limited N this p) k'.
Proof.
  intros H. unfold limited.
  destruct (_ && _); [|exact H]. now apply typed_set.
Qed.

Ltac typed_chain :=
  repeat first
    [ apply number_field_typed
    | apply list_field_typed
    | apply limit_the_limit_keeps
    | apply paginate_keeps
    | apply number_field_keeps
    | apply list_field_keeps ].

Lemma get_if (b : bool) (x y : obj) (k : string) :
  obj_get (if b then x else y) k = if b then obj_get x k else obj_get y k.
Proof. now destruct b. Qed.

Ltac get_simpl :=
  repeat (rewrite ?get_if, ?get_set_cases;
          cbn [String.eqb Ascii.eqb Bool.eqb]).

Lemma paginate_spec (p : obj) :
  let st := settings this in
  let size1 := if js_truthy (prop p "pageSize") then prop p "pageSize"
               else VInt (pageSize st) in
  let page := if js_truthy (prop p "page") then prop p "page" else VInt 1 in
  let size := if (0 <? maxPageSize st)%Z
                 && gt_prim N size1 (Fin (maxPageSize st))
              then VInt (maxPageSize st) else size1 in
  prop (paginated N this p) "pageSize" = size /\
  prop (paginated N this p) "page" = page /\
  prop (paginated N this p) "limit" = size /\
  prop (paginated N this p) "offset"
  = mul_prim N (sub_prim N page (VInt 1)) size.
Proof.
  unfold paginated, prop. cbv zeta.
  destruct (js_truthy (obj_get p "pageSize")) eqn:E1;
    destruct (js_truthy (obj_get p "page")) eqn:E2;
    get_simpl; rewrite ?E1, ?E2; get_simpl;
    destruct (_ && _); get_simpl; repeat split; reflexivity.
Qed.

Lemma limit_the_limit_spec (p : obj) :
  prop (limited N this p) "limit"
  = spec_limit N (settings this) (prop p "limit").
Proof.
  unfold limited, spec_limit, prop.
  destruct (_ && _); [apply get_set_same|reflexivity].
Qed.

Lemma limit_the_limit_other (p : obj) (k : string) :
  "limit" <> k -> prop (limited N this p) k = prop p k.
Proof.
  intros H. unfold limited, prop.
  destruct (_ && _); [now apply get_set_other|reflexivity].
Qed.

Lemma coerced_number (params : value) (k : string) :
  In k ["limit"; "offset"; "page"; "pageSize"] ->
  prop (coerced N params) k = coerce_number N (raw_param params k).
Proof.
  unfold coerced, raw_param. cbv zeta. intros Hk.
  rewrite !list_field_other
    by (intros <-; simpl in Hk; intuition discriminate).
  simpl in Hk.
  destruct Hk as [<-|[<-|[<-|[<-|[]]]]];
    rewrite ?(number_field_other "pageSize") by discriminate;
    rewrite ?(number_field_other "page") by discriminate;
    rewrite ?(number_field_other "offset") by discriminate;
    rewrite number_field_same;
    rewrite ?number_field_other by discriminate; reflexivity.
Qed.

(** *** Where the conversions succeed *)

Lemma falsy_primitive (v : value) :
  js_truthy v = false -> has_primitive v = true.
Proof. destruct v; cbn; intros H; try reflexivity; discriminate. Qed.

Lemma coerce_number_primitive (v : value) :
  has_primitive (coerce_number N v) = has_primitive v.
Proof. now destruct v. Qed.

Lemma js_gt_eq (v : value) (n : num) :
  js_gt N v n = if has_primitive v then Ok (gt_prim N v n) else Err TypeError.
Proof. unfold js_gt, ToNumber, gt_prim. now destruct (has_primitive v). Qed.

Lemma js_sub_eq (a b : value) :
  js_sub N a b = if has_primitive a && has_primitive b
                 then Ok (sub_prim N a b) else Err TypeError.
Proof.
  unfold js_sub, ToNumber, sub_prim.
  now destruct (has_primitive a), (has_primitive b).
Qed.

Lemma js_mul_eq (a b : value) :
  js_mul N a b = if has_primitive a && has_primitive b
                 then Ok (mul_prim N a b) else Err TypeError.
Proof.
  unfold js_mul, ToNumber, mul_prim.
  now destruct (has_primitive a), (has_primitive b).
Qed.

Lemma js_add_eq (a b : value) :
  js_add N a b = if has_primitive a && has_primitive b
                 then Ok (add_prim N a b) else Err TypeError.
Proof. reflexivity. Qed.

Lemma js_floor_div_eq (a b : value) :
  js_floor_div N a b = if has_primitive a && has_primitive b
                       then Ok (floor_div_prim N a b) else Err TypeError.
Proof.
  unfold js_floor_div, ToNumber, floor_div_prim.
  now destruct (has_primitive a), (has_primitive b).
Qed.

Lemma above_max_eq (max : Z) (v : value) :
  above_max N max v
  = if (0 <? max)%Z && negb (has_primitive v) then Err TypeError
    else Ok ((0 <? max)%Z && gt_prim N v (Fin max)).
Proof.
  unfold above_max. rewrite js_gt_eq.
  now destruct (0 <? max)%Z, (has_primitive v).
Qed.

(** [paginate] returns when the page and the page size have a primitive
    value, and throws otherwise. *)
Lemma paginate_eq (p : obj) :
  paginate N this p
  = if has_primitive (prop p "pageSize") && has_primitive (prop p "page")
    then Ok (paginated N this p) else Err TypeError.
Proof.
  unfold paginate, paginated. cbv zeta.
  set (p1 := if js_truthy (prop p "pageSize") then p
             else obj_set p "pageSize" (VInt (pageSize (settings this)))).
  set (p2 := if js_truthy (prop p1 "page") then p1
             else obj_set p1 "page" (VInt 1)).
  assert (G1 : prop p1 "page" = prop p "page").
  { unfold p1, prop. destruct (js_truthy (obj_get p "pageSize"));
      [reflexivity|].
    now rewrite get_set_other by discriminate. }
  assert (S1 : has_primitive (prop p1 "pageSize")
               = has_primitive (prop p "pageSize")).
  { unfold p1. destruct (js_truthy (prop p "pageSize")) eqn:E; [reflexivity|].
    unfold prop at 1. rewrite get_set_same. cbn. symmetry.
    now apply falsy_primitive. }
  assert (S2 : has_primitive (prop p2 "pageSize")
               = has_primitive (prop p "pageSize")).
  { rewrite <- S1. unfold p2.
    destruct (js_truthy (prop p1 "page")); [reflexivity|].
    unfold prop. now rewrite get_set_other by discriminate. }
  assert (G2 : has_primitive (prop p2 "page")
               = has_primitive (prop p "page")).
  { rewrite <- G1. unfold p2.
    destruct (js_truthy (prop p1 "page")) eqn:E; [reflexivity|].
    unfold prop at 1. rewrite get_set_same. cbn. symmetry.
    now apply falsy_primitive. }
  rewrite above_max_eq, S2.
  destruct (has_primitive (prop p "pageSize")) eqn:E1; cbn [negb andb].
  - rewrite andb_false_r. cbn [rbind].
    set (p3 := if _ && _ then _ else p2).
    assert (S3 : has_primitive (prop p3 "pageSize") = true).
    { unfold p3. destruct (_ && _); [|now rewrite S2].
      unfold prop. now rewrite get_set_same. }
    assert (G3 : prop p3 "page" = prop p2 "page").
    { unfold p3, prop. destruct (_ && _); [|reflexivity].
      now rewrite get_set_other by discriminate. }
    set (p4 := obj_set p3 "limit" (prop p3 "pageSize")).
    assert (G4 : prop p4 "page" = prop p3 "page")
      by (unfold p4, prop; now rewrite get_set_other by discriminate).
    assert (S4 : prop p4 "pageSize" = prop p3 "pageSize")
      by (unfold p4, prop; now rewrite get_set_other by discriminate).
    rewrite js_sub_eq, G4, G3, G2. cbn [has_primitive VInt].
    destruct (has_primitive (prop p "page")); cbn [andb rbind];
      [|reflexivity].
    rewrite js_mul_eq, S4, S3. reflexivity.
  - destruct (0 <? maxPageSize (settings this))%Z; cbn [andb rbind];
      [reflexivity|].
    set (p4 := obj_set p2 "limit" (prop p2 "pageSize")).
    assert (G4 : prop p4 "page" = prop p2 "page")
      by (unfold p4, prop; now rewrite get_set_other by discriminate).
    assert (S4 : prop p4 "pageSize" = prop p2 "pageSize")
      by (unfold p4, prop; now rewrite get_set_other by discriminate).
    rewrite js_sub_eq, G4, G2. cbn [has_primitive VInt].
    destruct (has_primitive (prop p "page")); cbn [andb rbind];
      [|reflexivity].
    rewrite js_mul_eq, S4, S2. reflexivity.
Qed.

(** The clamping of the limit throws when there is a positive maximum to
    compare with and the limit has no primitive value. *)
Lemma limit_the_limit_eq (p : obj) :
  limit_the_limit N this p
  = if (0 <? maxLimit (settings this))%Z
       && negb (has_primitive (prop p "limit"))
    then Err TypeError else Ok (limited N this p).
Proof.
  unfold limit_the_limit, limited. cbv zeta. rewrite above_max_eq.
  now destruct (_ && negb _).
Qed.

Lemma coerced_primitive (params : value) (k : string) :
  In k ["limit"; "offset"; "page"; "pageSize"] ->
  has_primitive (prop (coerced N params) k)
  = has_primitive (raw_param params k).
Proof.
  intros Hk. rewrite coerced_number by exact Hk.
  apply coerce_number_primitive.
Qed.

Lemma paginated_limit_primitive (p : obj) :
  has_primitive (prop p "pageSize") = true ->
  has_primitive (prop (paginated N this p) "limit") = true.
Proof.
  intros H. destruct (paginate_spec p) as (_ & _ & Hl & _).
  cbv zeta in Hl. rewrite Hl.
  destruct (_ && _); [reflexivity|].
  destruct (js_truthy (prop p "pageSize")); [exact H|reflexivity].
Qed.

(** The sanitizer, case by case: under a listing action it returns when
    the page and the page size have a primitive value; under another action
    it returns unless there is a positive [maxLimit] to compare a limit
    without primitive value with. *)
Lemma sanitizeParams_cases (ctx : Context Ext) (params : value)
      (name : string) :
  get_member (action ctx) "name" = Ok (VStr name) ->
  sanitizeParams N this ctx params
  = if endsWith name ".list" then
      if has_primitive (raw_param params "pageSize")
         && has_primitive (raw_param params "page")
      then Ok (limited N this (paginated N this (coerced N params)))
      else Err TypeError
    else
      if (0 <? maxLimit (settings this))%Z
         && negb (has_primitive (raw_param params "limit"))
      then Err TypeError
      else Ok (limited N this (coerced N params)).
Proof.
  intros H. unfold sanitizeParams. cbv zeta. rewrite H.
  cbn [rbind call_endsWith].
  destruct (endsWith name ".list").
  - rewrite paginate_eq. rewrite !coerced_primitive by (cbn; tauto).
    destruct (has_primitive (raw_param params "pageSize")) eqn:E1;
      [|reflexivity].
    destruct (has_primitive (raw_param params "page")); [|reflexivity].
    cbn [andb rbind]. rewrite limit_the_limit_eq.
    rewrite paginated_limit_primitive
      by (rewrite coerced_primitive by (cbn; tauto); exact E1).
    now rewrite andb_false_r.
  - cbn [rbind]. rewrite limit_the_limit_eq.
    now rewrite coerced_primitive by (cbn; tauto).
Qed.

(** What the sanitizer returns, when it returns. *)
Lemma sanitizeParams_inv (ctx : Context Ext) (params : value) (p : obj) :
  sanitizeParams N this ctx params = Ok p ->
  exists name,
    get_member (action ctx) "name" = Ok (VStr name) /\
    p = limited N this
          (if endsWith name ".list" then paginated N this (coerced N params)
           else coerced N params) /\
    (endsWith name ".list" = true ->
     has_primitive (raw_param params "pageSize") = true
     /\ has_primitive (raw_param params "page") = true) /\
    (endsWith name ".list" = false ->
     (0 <? maxLimit (settings this))%Z = true ->
     has_primitive (raw_param params "limit") = true).
Proof.
  intros H.
  assert (Hn : exists name, get_member (action ctx) "name" = Ok (VStr name)).
  { unfold sanitizeParams in H. cbv zeta in H.
    destruct (get_member (action ctx) "name") as [v|]; [|discriminate].
    destruct v; try discriminate. now eexists. }
  destruct Hn as (name & Hn). exists name. split; [exact Hn|].
  rewrite (sanitizeParams_cases ctx params name Hn) in H.
  destruct (endsWith name ".list").
  - destruct (has_primitive (raw_param params "pageSize")); [|discriminate].
    destruct (has_primitive (raw_param params "page")); [|discriminate].
    inversion H. repeat split; try reflexivity; discriminate.
  - destruct (0 <? maxLimit (settings this))%Z; cbn [andb] in H.
    + destruct (has_primitive (raw_param params "limit")); [|discriminate].
      inversion H. repeat split; try reflexivity; discriminate.
    + inversion H. repeat split; try reflexivity; discriminate.
Qed.

(** The sanitizer returns where it can compare and compute, and throws
    where it cannot. *)
Lemma sanitizeParams_named (ctx : Context Ext) (params : value)
      (name : string) :
  get_member (action ctx) "name" = Ok (VStr name) ->
  sanitizer_converts (settings this) name params = true ->
  sanitizeParams N this ctx params
  = Ok (limited N this
          (if endsWith name ".list" then paginated N this (coerced N params)
           else coerced N params)).
Proof.
  intros H Hc. rewrite (sanitizeParams_cases ctx params name H).
  unfold sanitizer_converts in Hc.
  destruct (endsWith name ".list"); [now rewrite Hc|].
  destruct (0 <? maxLimit (settings this))%Z; [|reflexivity].
  cbn [negb orb] in Hc. now rewrite Hc.
Qed.

Lemma sanitizeParams_fails (ctx : Context Ext) (params : value)
      (name : string) :
  get_member (action ctx) "name" = Ok (VStr name) ->
  sanitizer_converts (settings this) name params = false ->
  sanitizeParams N this ctx params = Err TypeError.
Proof.
  intros H Hc. rewrite (sanitizeParams_cases ctx params name H).
  unfold sanitizer_converts in Hc.
  destruct (endsWith name ".list"); [now rewrite Hc|].
  destruct (0 <? maxLimit (settings this))%Z; [|discriminate].
  cbn [negb orb] in Hc. now rewrite Hc.
Qed.

Lemma sanitized_typed (params : value) (b : bool) :
  Forall (typed_at (limited N this
            (if b then paginated N this (coerced N params)
             else coerced N params)))
         coerced_params.
Proof.
  unfold coerced_params, coerced. cbv zeta.
  repeat constructor; destruct b; typed_chain.
Qed.

End SanitizerProperties.

(** ** Field authorizer *)

(** The example of the specification: asking for [address] under the
    allow-list [name, address.city] yields [address.city] alone. *)
Example authorizeFields_address :
  authorizeFields (allow_service ["name"; "address.city"])
                  (VArr [VStr "address"])
  = Ok (VArr [VStr "address.city"]).
Proof. reflexivity. Qed.

(** Without an allow-list the requested list passes unchanged. *)
Lemma authorizeFields_unrestricted (Ext : Type) (this : Service Ext)
      (requested : value) :
  fields (settings this) = None ->
  authorizeFields this requested = Ok requested.
Proof. intros H. unfold authorizeFields. now rewrite H. Qed.

(** Where the two slips cannot show, the authorizer is the one of the
    specification. *)

Lemma array_includes_strings (allow : list string) (f : string) :
  array_includes (map VStr allow) (VStr f) = allowed allow f.
Proof.
  unfold array_includes, allowed.
  induction allow as [|a allow IH]; [reflexivity|].
  cbn. now rewrite IH, String.eqb_sym.
Qed.

Lemma proper_prefixes_snoc (parts : list string) :
  (2 <= length parts)%nat ->
  proper_prefixes parts
  = proper_prefixes (removelast parts) ++ [removelast parts].
Proof.
  induction parts as [|a parts IH]; cbn [length]; [lia|].
  destruct parts as [|b parts]; cbn [length]; [lia|]. intros _.
  destruct parts as [|c parts]; [reflexivity|].
  assert (Hl : (2 <= length (b :: c :: parts))%nat) by (cbn; lia).
  specialize (IH Hl).
  change (proper_prefixes (a :: b :: c :: parts))
    with ([a] :: map (cons a) (proper_prefixes (b :: c :: parts))).
  rewrite IH, map_app.
  change (removelast (a :: b :: c :: parts))
    with (a :: removelast (b :: c :: parts)).
  destruct (removelast (b :: c :: parts)) as [|q0 q] eqn:Eq.
  - cbn in Eq. destruct parts; discriminate.
  - reflexivity.
Qed.

Lemma removelast_length (parts : list string) :
  length (removelast parts) = (length parts - 1)%nat.
Proof.
  induction parts as [|a parts IH]; [reflexivity|].
  destruct parts as [|b parts]; [reflexivity|].
  change (removelast (a :: b :: parts)) with (a :: removelast (b :: parts)).
  cbn [length] in *. lia.
Qed.

(** The loop over the parents finds an allowed parent when there is one. *)
Lemma parent_allowed_spec (allow : list string) (n : nat)
      (parts : list string) :
  (length parts <= n)%nat ->
  parent_allowed allow n parts
  = existsb (fun pre => allowed allow (join "." pre)) (proper_prefixes parts).
Proof.
  revert parts. induction n as [|n IH]; intros parts Hn.
  - destruct parts; [reflexivity|cbn in Hn; lia].
  - cbn [parent_allowed].
    destruct (1 <? length parts)%nat eqn:E.
    + apply Nat.ltb_lt in E.
      rewrite (proper_prefixes_snoc parts) by lia.
      rewrite existsb_app. cbn [existsb]. rewrite orb_false_r.
      rewrite IH by (rewrite removelast_length; lia).
      destruct (allowed allow (join "." (removelast parts)));
        [now rewrite orb_true_r|now rewrite orb_false_r].
    + apply Nat.ltb_ge in E.
      destruct parts as [|a [|b parts]]; try reflexivity.
      cbn in E. lia.
Qed.

Lemma call_nestedFields_string (allow : list string) (f : string) :
  call_nestedFields allow (VStr f) = Ok (nestedFields allow (VStr f)).
Proof. reflexivity. Qed.

Lemma call_nestedFields_ok (allow : list string) (f : value)
      (nested : list string) :
  call_nestedFields allow f = Ok nested -> nested = nestedFields allow f.
Proof.
  unfold call_nestedFields, ToPropertyKey, nestedFields.
  destruct (has_primitive f); cbn [rbind]; intros H; now inversion H.
Qed.

Lemma authorize_one_agrees (allow : list string) (res : list value)
      (f : string) :
  plainly_nested allow f ->
  authorize_one allow res (VStr f)
  = Ok (res ++ map VStr (spec_authorize_one allow f)).
Proof.
  intros Hf. unfold authorize_one, spec_authorize_one.
  rewrite call_nestedFields_string.
  rewrite array_includes_strings.
  destruct (allowed allow f) eqn:Ea; [reflexivity|].
  destruct (Hf Ea) as [Hn Hp].
  cbn [call_has_dot rbind].
  destruct (str_contains "." f) eqn:Ed.
  - cbn [call_split_dot rbind].
    rewrite parent_allowed_spec by lia.
    fold (has_allowed_parent allow f).
    destruct (has_allowed_parent allow f).
    + rewrite (Hp eq_refl). cbn. now rewrite app_nil_r.
    + now rewrite Hn.
  - unfold has_allowed_parent. rewrite (split_on_plain f Ed). cbn.
    now rewrite Hn.
Qed.

Lemma authorize_each_agrees (allow : list string) (requested : list string) :
  Forall (plainly_nested allow) requested ->
  forall res,
    authorize_each allow res (map VStr requested)
    = Ok (res ++ map VStr (flat_map (spec_authorize_one allow) requested)).
Proof.
  induction 1 as [|f requested Hf _ IH]; intros res; cbn.
  - now rewrite app_nil_r.
  - rewrite (authorize_one_agrees allow res f Hf). cbn [rbind].
    rewrite IH, map_app. now rewrite app_assoc.
Qed.

Lemma authorizeFields_agrees (Ext : Type) (this : Service Ext)
      (allow requested : list string) :
  fields (settings this) = Some allow ->
  Forall (plainly_nested allow) requested ->
  authorizeFields this (VArr (map VStr requested))
  = Ok (VArr (map VStr (spec_authorizeFields (Some allow) requested))).
Proof.
  intros Hf Hr. unfold authorizeFields, spec_authorizeFields. rewrite Hf.
  destruct allow as [|a allow]; [reflexivity|].
  now rewrite (authorize_each_agrees (a :: allow) requested Hr []).
Qed.

(** C3.  The authorizer against its specification, at two inputs.  Under
    the allow-list [name, address.city, home.address.zip] a request for
    [address] is answered with [address.city] and [home.address.zip]: the
    nested entries are found by [indexOf(f + ".") !== -1], which accepts the
    requested name anywhere in the entry, where a strict sub-path starts with
    it.  Under the allow-list [a, a.b.c] a request for [a.b], kept because
    its parent [a] is allowed, also brings [a.b.c]: [break] leaves the loop
    over the parents, not the callback, so the search for nested entries
    still runs. *)
Theorem authorizeFields_not_only_subpaths :
  (authorizeFields
     (allow_service ["name"; "address.city"; "home.address.zip"])
     (VArr [VStr "address"])
   = Ok (VArr [VStr "address.city"; VStr "home.address.zip"])
   /\ spec_authorizeFields
        (Some ["name"; "address.city"; "home.address.zip"]) ["address"]
      = ["address.city"])
  /\
  (authorizeFields (allow_service ["a"; "a.b.c"]) (VArr [VStr "a.b"])
   = Ok (VArr [VStr "a.b"; VStr "a.b.c"])
   /\ spec_authorizeFields (Some ["a"; "a.b.c"]) ["a.b"] = ["a.b"]).
Proof. repeat split; reflexivity. Qed.

(** ** Computations and their logs *)

Section LogProperties.

Variable Ext : Type.

Lemma bind_inv {A B} (m : M Ext A) (k : A -> M Ext B) (w w' : world Ext)
      (r : result B) :
  bind m k w = (w', r) ->
  (exists w1 a, m w = (w1, Ok a) /\ k a w1 = (w', r))
  \/ (exists e, m w = (w', Err e) /\ r = Err e).
Proof.
  unfold bind. destruct (m w) as [w1 [a|e]]; intros H.
  - left. now exists w1, a.
  - right. exists e. now inversion H.
Qed.

Lemma bind_ok_inv {A B} (m : M Ext A) (k : A -> M Ext B)
      (w w' : world Ext) (b : B) :
  bind m k w = (w', Ok b) ->
  exists w1 a, m w = (w1, Ok a) /\ k a w1 = (w', Ok b).
Proof.
  intros H. apply bind_inv in H. destruct H as [H|(e & _ & H)]; [exact H|].
  discriminate.
Qed.

Lemma emit_eq (e : event) (w : world Ext) :
  emit e w = (mkWorld (ext w) (log w ++ [e]), Ok tt).
Proof. reflexivity. Qed.

Lemma external_log {A} (f : Ext -> Ext * result A) (w w' : world Ext)
      (r : result A) :
  external f w = (w', r) -> log w' = log w /\ f (ext w) = (ext w', r).
Proof.
  unfold external. destruct (f (ext w)) as [x r0]. intros H.
  inversion H; subst. now split.
Qed.

Lemma lift_inv {A} (r r' : result A) (w w' : world Ext) :
  lift r w = (w', r') -> w' = w /\ r' = r.
Proof. unfold lift. intros H. inversion H. now split. Qed.

Lemma emits_ret {A} P (a : A) : emits P (@ret Ext A a).
Proof.
  intros w w' r H. inversion H; subst. exists []. now rewrite app_nil_r.
Qed.

Lemma emits_fail {A} P (e : error) : emits P (@fail Ext A e).
Proof.
  intros w w' r H. inversion H; subst. exists []. now rewrite app_nil_r.
Qed.

Lemma emits_lift {A} P (x : result A) : emits P (@lift Ext A x).
Proof.
  intros w w' r H. inversion H; subst. exists []. now rewrite app_nil_r.
Qed.

Lemma emits_emit P (e : event) : P e -> emits P (@emit Ext e).
Proof.
  intros He w w' r H. inversion H; subst. exists [e]. simpl. split; auto.
Qed.

Lemma emits_external {A} P (f : Ext -> Ext * result A) :
  emits P (external f).
Proof.
  intros w w' r H. apply external_log in H. destruct H as [H _].
  exists []. now rewrite app_nil_r.
Qed.

Lemma emits_bind {A B} P (m : M Ext A) (k : A -> M Ext B) :
  emits P m -> (forall a, emits P (k a)) -> emits P (bind m k).
Proof.
  intros Hm Hk w w' r H. apply bind_inv in H.
  destruct H as [(w1 & a & H1 & H2)|(e & H1 & _)].
  - apply Hm in H1. apply Hk in H2.
    destruct H1 as (l1 & E1 & F1). destruct H2 as (l2 & E2 & F2).
    exists (l1 ++ l2). rewrite E2, E1, app_assoc. split; [reflexivity|].
    apply Forall_app. now split.
  - now apply Hm in H1.
Qed.

Lemma emits_attempt {A} P (m : M Ext A) : emits P m -> emits P (attempt m).
Proof.
  intros Hm w w' r H. unfold attempt in H.
  destruct (m w) as [w1 r1] eqn:E. inversion H; subst.
  now apply Hm in E.
Qed.

Lemma emits_foldM {A B} P (f : A -> B -> M Ext A) (l : list B) :
  (forall a b, emits P (f a b)) -> forall a, emits P (foldM f a l).
Proof.
  intros Hf. induction l as [|b l IH]; intros a; simpl.
  - apply emits_ret.
  - apply emits_bind; [apply Hf|]. intros a'. apply IH.
Qed.

Lemma emits_weaken {A} (P Q : event -> Prop) (m : M Ext A) :
  (forall e, P e -> Q e) -> emits P m -> emits Q m.
Proof.
  intros HPQ Hm w w' r H. apply Hm in H. destruct H as (l & E & F).
  exists l. split; [exact E|]. eapply Forall_impl; eauto.
Qed.

Lemma emits_if {A} P (b : bool) (m1 m2 : M Ext A) :
  emits P m1 -> emits P m2 -> emits P (if b then m1 else m2).
Proof. now destruct b. Qed.

End LogProperties.

Ltac emits_step :=
  first [ apply emits_bind; [|intros ?]
        | apply emits_ret | apply emits_fail | apply emits_lift
        | apply emits_external | apply emits_attempt | apply emits_if
        | apply emits_emit ].

(** ** The id list of a relation *)

(** Nothing that [_.flattenDeep] returns is an array. *)
Lemma flatten_value_flat (v : value) :
  Forall (fun x => isArray x = false) (flatten_value v).
Proof.
  induction v using value_nested_ind; simpl;
    try (constructor; [reflexivity|constructor]).
  induction H as [|x l Hx _ IH]; simpl; [constructor|].
  apply Forall_app. now split.
Qed.

Lemma flattenDeep_flat (l : list value) :
  Forall (fun x => isArray x = false) (flattenDeep l).
Proof.
  unfold flattenDeep. induction l as [|v l IH]; simpl; [constructor|].
  apply Forall_app. split; [apply flatten_value_flat|exact IH].
Qed.

Lemma sameValueZero_sym (a b : value) :
  sameValueZero a b = sameValueZero b a.
Proof.
  destruct a as [| |x|x|x|x|x], b as [| |y|y|y|y|y]; simpl;
    try reflexivity;
    try (destruct x; reflexivity); try (destruct y; reflexivity).
  - destruct x, y; simpl; try reflexivity. apply Z.eqb_sym.
  - apply String.eqb_sym.
Qed.

Lemma uniq_from_subset (l seen : list value) (x : value) :
  In x (uniq_from seen l) -> In x l.
Proof.
  revert seen. induction l as [|y l IH]; intros seen; simpl; [tauto|].
  destruct (existsb (sameValueZero y) seen).
  - intros H. right. eapply IH; eauto.
  - intros [H|H]; [now left|]. right. eapply IH; eauto.
Qed.

Lemma uniq_from_fresh (l seen : list value) :
  Forall (fun x => existsb (sameValueZero x) seen = false) (uniq_from seen l).
Proof.
  revert seen. induction l as [|y l IH]; intros seen; simpl; [constructor|].
  destruct (existsb (sameValueZero y) seen) eqn:E; [apply IH|].
  constructor; [exact E|].
  eapply Forall_impl; [|apply (IH (seen ++ [y]))].
  intros a Ha. simpl in Ha. rewrite existsb_app in Ha.
  now apply orb_false_iff in Ha.
Qed.

(** No two elements that [_.uniq] returns are the same value. *)
Lemma uniq_from_distinct (l seen : list value) :
  ForallOrdPairs (fun a b => sameValueZero a b = false) (uniq_from seen l).
Proof.
  revert seen. induction l as [|y l IH]; intros seen; simpl; [constructor|].
  destruct (existsb (sameValueZero y) seen); [apply IH|].
  constructor; [|apply IH].
  eapply Forall_impl; [|apply (uniq_from_fresh l (seen ++ [y]))].
  intros a Ha. simpl in Ha. rewrite existsb_app in Ha.
  apply orb_false_iff in Ha. destruct Ha as [_ Ha]. simpl in Ha.
  rewrite orb_false_r in Ha. now rewrite sameValueZero_sym.
Qed.

(** Every collected value is represented in what [_.uniq] returns. *)
Lemma uniq_from_complete (l seen : list value) (x : value) :
  In x l ->
  In x (uniq_from seen l)
  \/ existsb (sameValueZero x) (seen ++ uniq_from seen l) = true.
Proof.
  revert seen. induction l as [|y l IH]; intros seen; simpl; [tauto|].
  intros [<-|Hx].
  - destruct (existsb (sameValueZero y) seen) eqn:E.
    + right. rewrite existsb_app, E. reflexivity.
    + left. now left.
  - destruct (existsb (sameValueZero y) seen) eqn:E.
    + now apply IH.
    + destruct (IH (seen ++ [y]) Hx) as [H|H].
      * left. now right.
      * right. now rewrite <- app_assoc in H.
Qed.

(** The id list of a relation is flat and without repetition, and all its
    members are relation values of the documents. *)
Lemma idList_flat (field : string) (docs : list obj) :
  Forall (fun x => isArray x = false) (idList_of field docs).
Proof.
  unfold idList_of, uniq. apply Forall_forall. intros x Hx.
  apply uniq_from_subset in Hx.
  revert x Hx. apply Forall_forall. apply flattenDeep_flat.
Qed.

Lemma idList_distinct (field : string) (docs : list obj) :
  ForallOrdPairs (fun a b => sameValueZero a b = false)
                 (idList_of field docs).
Proof. apply uniq_from_distinct. Qed.

Lemma idList_members (field : string) (docs : list obj) (x : value) :
  In x (idList_of field docs) ->
  exists doc, In doc docs /\ js_truthy (obj_get doc field) = true
              /\ In x (flatten_value (obj_get doc field)).
Proof.
  unfold idList_of, uniq, flattenDeep, compact. intros Hx.
  apply uniq_from_subset in Hx. apply in_flat_map in Hx.
  destruct Hx as (v & Hv & Hx). apply filter_In in Hv.
  destruct Hv as [Hv Ht]. apply in_map_iff in Hv.
  destruct Hv as (doc & <- & Hd). now exists doc.
Qed.

(** The list holds no [null] as long as no array-valued relation does. *)
Lemma idList_null_free (field : string) (docs : list obj) :
  Forall (fun doc =>
            isArray (obj_get doc field) = true ->
            Forall (fun x => is_nullish x = false)
                   (flatten_value (obj_get doc field))) docs ->
  Forall (fun x => is_nullish x = false) (idList_of field docs).
Proof.
  intros H. apply Forall_forall. intros x Hx.
  apply idList_members in Hx. destruct Hx as (doc & Hd & Ht & Hx).
  rewrite Forall_forall in H. specialize (H doc Hd).
  destruct (obj_get doc field) eqn:E; simpl in *; try discriminate;
    try (destruct Hx as [<-|[]]; reflexivity).
  specialize (H eq_refl). rewrite Forall_forall in H. now apply H.
Qed.

(** ** Population *)

Section PopulateProperties.

Variable Ext : Type.
Variable ctx : Context Ext.

Lemma mapM_ok_map {A B} (f : A -> result B) (g : A -> B)
      (l : list A) (l' : list B) :
  (forall x y, f x = Ok y -> y = g x) ->
  mapM f l = Ok l' -> l' = map g l.
Proof.
  intros Hf. revert l'. induction l as [|a l IH]; simpl; intros l' H.
  - now inversion H.
  - destruct (f a) as [b|] eqn:E; simpl in H; [|discriminate].
    destruct (mapM f l) as [bs|] eqn:E2; simpl in H; [|discriminate].
    inversion H; subst. f_equal; [now apply Hf|now apply IH].
Qed.

Lemma get_member_ok (o : value) (k : string) (v : value) :
  get_member o k = Ok v -> v = member_or_undef o k.
Proof. intros H. unfold member_or_undef. now rewrite H. Qed.

Lemma call_member_ok (pd id v : value) :
  call_member pd id = Ok v -> v = member_or_undef pd (ToString id).
Proof.
  unfold call_member, ToPropertyKey.
  destruct (has_primitive id); cbn [rbind]; [apply get_member_ok|discriminate].
Qed.

Lemma populate_one_ok (pd : value) (f : string) (d d' : obj) :
  populate_one pd f d = Ok d' ->
  d' = obj_set d f (resolved pd (obj_get d f)).
Proof.
  unfold populate_one, resolved.
  destruct (obj_get d f) eqn:E; intros H;
    try (destruct (call_member pd _) eqn:G; cbn [rbind] in H; [|discriminate];
         inversion H; subst; f_equal; now apply call_member_ok).
  destruct (mapM _ l) as [models|] eqn:G; cbn [rbind] in H; [|discriminate].
  inversion H; subst. do 3 f_equal.
  apply mapM_ok_map with (g := fun id => member_or_undef pd (ToString id))
    in G; [exact G|].
  intros x y. apply call_member_ok.
Qed.

(** [resultTransform] rewrites the relation field of every document, and
    nothing else. *)
Lemma resultTransform_ok (f : string) (pd : value) (docs docs' : list obj) :
  resultTransform f pd docs = Ok docs' ->
  docs' = map (fun d => obj_set d f (resolved pd (obj_get d f))) docs.
Proof.
  unfold resultTransform. apply mapM_ok_map. intros x y.
  apply populate_one_ok.
Qed.

Lemma resultTransform_other (f k : string) (pd : value)
      (docs docs' : list obj) :
  resultTransform f pd docs = Ok docs' -> f <> k ->
  map (fun d => obj_get d k) docs' = map (fun d => obj_get d k) docs.
Proof.
  intros H Hk. apply resultTransform_ok in H. subst docs'.
  rewrite map_map. apply map_ext. intros d. now apply get_set_other.
Qed.

Lemma settle_other (pend : pending) (docs docs' : list obj) (k : string) :
  settle pend docs = Ok docs' -> ~ In k (map fst pend) ->
  map (fun d => obj_get d k) docs' = map (fun d => obj_get d k) docs.
Proof.
  revert docs. induction pend as [|[f [pd|e]] pend IH]; simpl; intros docs H Hk.
  - now inversion H.
  - destruct (resultTransform f pd docs) as [docs1|] eqn:E; simpl in H;
      [|discriminate].
    rewrite (IH docs1 H) by tauto.
    eapply resultTransform_other; eauto.
  - discriminate.
Qed.

Lemma populate_rule_remote (pf : list value) (docs : list obj)
      (pend : pending) (f : string) (r : rule Ext) (w w' : world Ext)
      (res : result (list obj * pending)) :
  (array_includes pf (VStr f) = true -> rule_handler r = None) ->
  populate_rule ctx pf (docs, pend) (f, r) w = (w', res) ->
  exists pend',
    res = Ok (docs, pend ++ pend') /\
    map fst pend' = (if wanted pf docs (f, r) then [f] else []) /\
    log w' = log w ++ (if wanted pf docs (f, r)
                       then [call_event docs (f, r)] else []).
Proof.
  intros Hh H. unfold populate_rule in H. unfold wanted, call_event.
  cbn [fst snd].
  destruct (array_includes pf (VStr f)) eqn:Ereq; cbn [negb andb] in *.
  - rewrite (Hh eq_refl) in H.
    destruct (0 <? length (idList_of f docs))%nat eqn:El.
    + unfold bind, emit, attempt, external, ret in H. cbn [ext log] in H.
      destruct (call ctx (rule_action r) _ (ext w)) as [x o] eqn:Ec.
      inversion H; subst. exists [(f, o)]. cbn. auto.
    + inversion H; subst. exists []. now rewrite !app_nil_r.
  - inversion H; subst. exists []. now rewrite !app_nil_r.
Qed.

Lemma foldM_remote (pf : list value) (docs : list obj)
      (rules : list (string * rule Ext)) :
  remote_rules pf rules ->
  forall (pend : pending) (w w' : world Ext)
         (res : result (list obj * pending)),
    foldM (populate_rule ctx pf) (docs, pend) rules w = (w', res) ->
    exists pend',
      res = Ok (docs, pend ++ pend') /\
      map fst pend' = map fst (filter (wanted pf docs) rules) /\
      log w' = log w ++ map (call_event docs) (filter (wanted pf docs) rules).
Proof.
  induction rules as [|[f r] rules IH]; intros Hr pend w w' res H.
  - inversion H; subst. exists []. now rewrite !app_nil_r.
  - inversion Hr as [|? ? Hfr Hrest]; subst. cbn [foldM] in H.
    apply bind_inv in H. destruct H as [(w1 & st & H1 & H2)|(e & H1 & _)].
    + apply populate_rule_remote in H1; [|exact Hfr].
      destruct H1 as (p1 & E1 & F1 & L1). inversion E1; subst st.
      apply (IH Hrest) in H2. destruct H2 as (p2 & E2 & F2 & L2).
      exists (p1 ++ p2). subst res.
      rewrite L2, L1, map_app, F1, F2, <- !app_assoc. cbn [filter].
      destruct (wanted pf docs (f, r)); cbn; auto.
    + apply populate_rule_remote in H1; [|exact Hfr].
      destruct H1 as (p1 & E1 & _). discriminate.
Qed.

Lemma filter_wanted_nil (docs : list obj) (rules : list (string * rule Ext)) :
  filter (wanted [] docs) rules = [].
Proof. induction rules as [|fr rules IH]; [reflexivity|exact IH]. Qed.

(** With remote rules, the log of a population is the list of the calls
    that resolve the wanted relations, and the documents are the settled
    answers. *)
Lemma populateDocs_remote (this : Service Ext) (docs : list obj)
      (pf : list value) (rules : list (string * rule Ext))
      (w w' : world Ext) (res : result (list obj)) :
  populates (settings this) = Some rules ->
  remote_rules pf rules ->
  populateDocs this ctx docs (VArr pf) w = (w', res) ->
  exists pend,
    log w' = log w ++ map (call_event docs) (filter (wanted pf docs) rules) /\
    map fst pend = map fst (filter (wanted pf docs) rules) /\
    res = settle pend docs.
Proof.
  intros Hp Hr H. unfold populateDocs in H. rewrite Hp in H.
  destruct pf as [|x pf].
  - inversion H; subst. exists []. rewrite filter_wanted_nil.
    cbn. now rewrite app_nil_r.
  - apply bind_inv in H. destruct H as [(w1 & st & H1 & H2)|(e & H1 & _)].
    + apply (foldM_remote _ _ _ Hr) in H1.
      destruct H1 as (pend & E & F & L). inversion E; subst st.
      apply lift_inv in H2. destruct H2 as [-> ->].
      exists pend. cbn. auto.
    + apply (foldM_remote _ _ _ Hr) in H1.
      destruct H1 as (pend & E & _). discriminate.
Qed.

Lemma idList_empty (f : string) (docs : list obj) :
  Forall (fun doc => holds_no_id (obj_get doc f) = true) docs ->
  idList_of f docs = [].
Proof.
  intros H. unfold idList_of.
  assert (E : flattenDeep (compact (map (fun doc => obj_get doc f) docs)) = []).
  { induction H as [|doc docs Hd _ IH]; [reflexivity|].
    unfold flattenDeep, compact in *. cbn [map filter].
    destruct (js_truthy (obj_get doc f)) eqn:Et; [|exact IH].
    cbn [flat_map]. rewrite IH, app_nil_r.
    unfold holds_no_id in Hd. rewrite Et in Hd. cbn in Hd.
    now destruct (flatten_value (obj_get doc f)). }
  now rewrite E.
Qed.

Lemma calls_for_absent (pf : list value) (docs : list obj) (f : string)
      (rules : list (string * rule Ext)) :
  (forall r : rule Ext,
      wanted pf docs (f, r) = true -> ~ In f (map fst rules)) ->
  Forall (fun e => is_call_for f e = false)
         (map (call_event docs) (filter (wanted pf docs) rules)).
Proof.
  intros H. apply Forall_forall. intros e He.
  apply in_map_iff in He. destruct He as ([f0 r0] & <- & Hin).
  apply filter_In in Hin. destruct Hin as [Hin Hw].
  cbn. destruct (String.eqb f0 f) eqn:E; [|reflexivity].
  apply String.eqb_eq in E. subst f0. exfalso.
  apply (H r0 Hw). apply in_map_iff. now exists (f, r0).
Qed.

Lemma filter_none {A} (p : A -> bool) (l : list A) :
  Forall (fun x => p x = false) l -> filter p l = [].
Proof.
  induction 1 as [|x l Hx _ IH]; [reflexivity|]. cbn. now rewrite Hx.
Qed.

Lemma calls_for_relation (pf : list value) (docs : list obj) (f : string)
      (r : rule Ext) (rules : list (string * rule Ext)) :
  NoDup (map fst rules) -> In (f, r) rules ->
  filter (is_call_for f)
         (map (call_event docs) (filter (wanted pf docs) rules))
  = if wanted pf docs (f, r) then [call_event docs (f, r)] else [].
Proof.
  induction rules as [|[f0 r0] rules IH]; intros Hnd Hin; [contradiction|].
  cbn [map fst] in Hnd. inversion Hnd as [|? ? Hnot Hnd']; subst.
  destruct Hin as [E|Hin].
  - inversion E; subst f0 r0. cbn [filter].
    assert (Hrest : filter (is_call_for f)
              (map (call_event docs) (filter (wanted pf docs) rules)) = []).
    { apply filter_none. apply calls_for_absent. now intros _ _. }
    destruct (wanted pf docs (f, r)); [|exact Hrest].
    cbn [map filter call_event is_call_for fst snd].
    now rewrite String.eqb_refl, Hrest.
  - assert (Hne : f0 <> f).
    { intros ->. apply Hnot. apply in_map_iff. now exists (f, r). }
    cbn [filter]. rewrite <- (IH Hnd' Hin).
    destruct (wanted pf docs (f0, r0)); [|reflexivity].
    cbn [map filter call_event is_call_for fst snd].
    apply String.eqb_neq in Hne. now rewrite Hne.
Qed.

Lemma NoDup_map_filter {A B} (g : A -> B) (p : A -> bool) (l : list A) :
  NoDup (map g l) -> NoDup (map g (filter p l)).
Proof.
  induction l as [|x l IH]; intros H; [constructor|].
  cbn [map] in H. inversion H as [|? ? Hx Hl]; subst. cbn [filter].
  destruct (p x); [|now apply IH].
  cbn [map]. constructor; [|now apply IH].
  intros Hin. apply Hx. apply in_map_iff in Hin.
  destruct Hin as (y & Ey & Hy). apply filter_In in Hy.
  apply in_map_iff. exists y. tauto.
Qed.

Lemma settle_field (pend : pending) (f : string) :
  NoDup (map fst pend) -> In f (map fst pend) ->
  forall docs docs' : list obj,
    settle pend docs = Ok docs' ->
    exists pd, In (f, Ok pd) pend /\
      map (fun d => obj_get d f) docs'
      = map (fun d => resolved pd (obj_get d f)) docs.
Proof.
  induction pend as [|[f0 [pd0|e]] pend IH]; intros Hnd Hin docs docs' H;
    cbn [map fst] in *; try contradiction; try discriminate.
  inversion Hnd as [|? ? Hnot Hnd']; subst. cbn [settle] in H.
  destruct (resultTransform f0 pd0 docs) as [docs1|] eqn:E; cbn in H;
    [|discriminate].
  destruct Hin as [->|Hin].
  - exists pd0. split; [now left|].
    rewrite (settle_other _ _ _ f H Hnot).
    apply resultTransform_ok in E. subst docs1. rewrite map_map.
    apply map_ext. intros d. apply get_set_same.
  - destruct (IH Hnd' Hin docs1 docs' H) as (pd & Hpd & Hm).
    exists pd. split; [now right|]. rewrite Hm.
    assert (Hne : f0 <> f) by (intros ->; contradiction).
    rewrite <- (map_map (fun d => obj_get d f) (resolved pd) docs1).
    rewrite (resultTransform_other _ _ _ _ _ E Hne). now rewrite map_map.
Qed.

(** A string rule asks for the id list as it is. *)
Lemma call_params_id (ids : list value) (a : string) :
  member_or_undef (call_params ids (@RuleAction Ext a)) "id" = VArr ids.
Proof. reflexivity. Qed.

(** X29.  One call per relation.  When the requested relations resolve
    through remote actions, the relation [f] is resolved by exactly one
    call when its id list is not empty and by none otherwise; the call
    carries the id list of [f]; and once the population has succeeded the
    relation value of every document is what one answer gives for it: the
    entity for an id, the list of the entities found for a list of ids. *)
Lemma populate_one_call_per_relation (this : Service Ext) (docs : list obj)
      (pf : list value) (rules : list (string * rule Ext))
      (f : string) (r : rule Ext) (w w' : world Ext)
      (res : result (list obj)) :
  populates (settings this) = Some rules ->
  NoDup (map fst rules) ->
  In (f, r) rules ->
  remote_rules pf rules ->
  array_includes pf (VStr f) = true ->
  populateDocs this ctx docs (VArr pf) w = (w', res) ->
  exists l,
    log w' = log w ++ l /\
    filter (is_call_for f) l
    = (if (0 <? length (idList_of f docs))%nat
       then [EvCall f (rule_action r) (call_params (idList_of f docs) r)]
       else []) /\
    forall docs', res = Ok docs' ->
      (0 <? length (idList_of f docs))%nat = true ->
      exists populatedDocs,
        map (fun d => obj_get d f) docs'
        = map (fun d => resolved populatedDocs (obj_get d f)) docs.
Proof.
  intros Hp Hnd Hin Hr Hreq H.
  destruct (populateDocs_remote _ _ _ _ _ _ _ Hp Hr H) as (pend & L & F & S).
  eexists. split; [exact L|]. split.
  - rewrite (calls_for_relation pf docs f r rules Hnd Hin).
    unfold wanted. cbn [fst]. now rewrite Hreq.
  - intros docs' E Hl. rewrite S in E.
    assert (Hw : wanted pf docs (f, r) = true).
    { unfold wanted. cbn [fst]. now rewrite Hreq, Hl. }
    destruct (settle_field pend f) with (docs := docs) (docs' := docs')
      as (pd & _ & Hm); auto.
    + rewrite F. now apply NoDup_map_filter.
    + rewrite F. apply in_map_iff. exists (f, r). split; [reflexivity|].
      apply filter_In. now split.
    + now exists pd.
Qed.

End PopulateProperties.

(** C7.  A relation without ids.  When the requested relations resolve
    through remote actions and, in every document, the value of the relation
    [f] holds no id (it is [null], [undefined] or another falsy value, or an
    array that is empty at every depth), the population issues no call for
    [f], and when it succeeds the value of [f] is in every document what it
    was. *)
Theorem populate_nothing_to_resolve :
  forall (Ext : Type) (this : Service Ext) (ctx : Context Ext)
         (docs : list obj) (pf : list value)
         (rules : list (string * rule Ext)) (f : string)
         (w w' : world Ext) (res : result (list obj)),
    populates (settings this) = Some rules ->
    remote_rules pf rules ->
    Forall (fun doc => holds_no_id (obj_get doc f) = true) docs ->
    populateDocs this ctx docs (VArr pf) w = (w', res) ->
    exists l,
      log w' = log w ++ l /\
      Forall (fun e => is_call_for f e = false) l /\
      forall docs', res = Ok docs' ->
        map (fun d => obj_get d f) docs' = map (fun d => obj_get d f) docs.
Proof.
  intros Ext this ctx docs pf rules f w w' res Hp Hr Hno H.
  destruct (populateDocs_remote Ext ctx _ _ _ _ _ _ _ Hp Hr H)
    as (pend & L & F & S).
  assert (Hw : forall r : rule Ext, wanted pf docs (f, r) = false).
  { intros r. unfold wanted. cbn [fst]. rewrite (idList_empty f docs Hno).
    apply andb_false_r. }
  eexists. split; [exact L|]. split.
  - apply calls_for_absent. intros r Hr'. rewrite Hw in Hr'. discriminate.
  - intros docs' E. rewrite S in E.
    apply (settle_other _ _ _ f E). rewrite F. intros Hin.
    apply in_map_iff in Hin. destruct Hin as ([f0 r0] & E0 & Hin).
    cbn in E0. subst f0. apply filter_In in Hin. destruct Hin as [_ Hin].
    rewrite Hw in Hin. discriminate.
Qed.

Lemma populate_nothing_to_resolve_witness :
  populates (settings posts_service)
  = Some [("owner", RuleAction "users.get")] /\
  remote_rules [VStr "owner"] [("owner", @RuleAction Store "users.get")] /\
  Forall (fun doc => holds_no_id (obj_get doc "owner") = true) orphan_posts /\
  exists l,
    log (fst (run (populateDocs posts_service posts_context orphan_posts
                                (VArr [VStr "owner"])) empty_store))
    = [] ++ l /\
    Forall (fun e => is_call_for "owner" e = false) l /\
    forall docs',
      snd (run (populateDocs posts_service posts_context orphan_posts
                             (VArr [VStr "owner"])) empty_store)
      = Ok docs' ->
      map (fun d => obj_get d "owner") docs'
      = map (fun d => obj_get d "owner") orphan_posts.
Proof.
  assert (Hr : remote_rules [VStr "owner"]
                            [("owner", @RuleAction Store "users.get")]).
  { repeat constructor. }
  assert (Hno : Forall (fun doc => holds_no_id (obj_get doc "owner") = true)
                       orphan_posts).
  { repeat constructor. }
  split; [reflexivity|]. split; [exact Hr|]. split; [exact Hno|].
  exact (populate_nothing_to_resolve Store posts_service posts_context
           orphan_posts [VStr "owner"] _ "owner" (mkWorld empty_store []) _ _
           eq_refl Hr Hno
           (surjective_pairing
              (run (populateDocs posts_service posts_context orphan_posts
                                 (VArr [VStr "owner"])) empty_store))).
Defined.

Lemma populate_handler_without_ids :
  let this := mem_service (mkSettings Store "_id" None
                (Some [("owner", RuleFunction touch_handler)])
                10 100 (-1) false) in
  let docs := [[("_id", VInt 1); ("owner", VNull)]] in
  spec_idList "owner" docs = [] /\
  run (populateDocs this posts_context docs (VArr [VStr "owner"])) empty_store
  = (mkWorld empty_store [EvHandler "owner" []],
     Ok [[("_id", VInt 1); ("owner", VStr "resolved")]]).
Proof. split; reflexivity. Qed.

(** The example of the specification: two documents refer to the user 42;
    one call is issued, with [42] once, and both receive the same entity. *)
Example populate_owner_42 :
  run (populateDocs posts_service posts_context
         [[("_id", VInt 1); ("owner", VStr "42")];
          [("_id", VInt 2); ("owner", VStr "42")]]
         (VArr [VStr "owner"])) empty_store
  = (mkWorld empty_store
       [EvCall "owner" "users.get"
          (VObj [("id", VArr [VStr "42"]); ("mapping", VBool true);
                 ("populate", VUndef); ("ignoreSoftDelete", VBool true)])],
     Ok [[("_id", VInt 1);
          ("owner", VObj [("_id", VStr "42"); ("name", VStr "Ann")])];
         [("_id", VInt 2);
          ("owner", VObj [("_id", VStr "42"); ("name", VStr "Ann")])]]).
Proof. reflexivity. Qed.

(** C1.  The id list at an array-valued relation that holds a [null].
    [_.compact] runs on the relation values before [_.flattenDeep] opens
    them, so the [null] inside the array of the first document stays: the
    call for [owner] carries the ids [42] and [null], where the flattened,
    null-free, duplicate-free list is [42] alone. *)
Theorem populate_id_list_keeps_nested_null :
  let docs := [[("_id", VInt 1); ("owner", VArr [VStr "42"; VNull])];
               [("_id", VInt 2); ("owner", VStr "42")]] in
  log (fst (run (populateDocs posts_service posts_context docs
                              (VArr [VStr "owner"])) empty_store))
  = [EvCall "owner" "users.get"
       (VObj [("id", VArr [VStr "42"; VNull]); ("mapping", VBool true);
              ("populate", VUndef); ("ignoreSoftDelete", VBool true)])]
  /\ spec_idList "owner" docs = [VStr "42"].
Proof. split; reflexivity. Qed.

(** ** What the sanitizer leaves alone *)

Lemma obj_set_keys_NoDup (m : obj) (k : string) (v : value) :
  NoDup (obj_keys m) -> NoDup (obj_keys (obj_set m k v)).
Proof.
  unfold obj_keys. induction m as [|[k0 v0] m IH]; intros H; cbn.
  - repeat constructor. tauto.
  - inversion H as [|? ? Hk Hm]; subst.
    destruct (String.eqb k0 k) eqn:E; cbn.
    + apply String.eqb_eq in E. subst. now constructor.
    + constructor; [|now apply IH].
      intros Hin. apply Hk. clear - Hin E.
      induction m as [|[k1 v1] m IH]; cbn in *.
      * destruct Hin as [->|[]]. now rewrite String.eqb_refl in E.
      * destruct (String.eqb k1 k); cbn in *.
        -- destruct Hin as [->|Hin]; [|tauto].
           now rewrite String.eqb_refl in E.
        -- tauto.
Qed.

Lemma fold_set_keys_NoDup (entries acc : obj) :
  NoDup (obj_keys acc) ->
  NoDup (obj_keys (fold_left (fun a kv => obj_set a (fst kv) (snd kv))
                             entries acc)).
Proof.
  revert acc. induction entries as [|[k v] entries IH]; intros acc H; cbn.
  - exact H.
  - apply IH. now apply obj_set_keys_NoDup.
Qed.

Lemma Object_assign_NoDup (target : obj) (source : value) :
  NoDup (obj_keys target) -> NoDup (obj_keys (Object_assign target source)).
Proof. apply fold_set_keys_NoDup. Qed.

Lemma has_key_set (m : obj) (k k' : string) (v : value) :
  has_key (obj_set m k v) k' = String.eqb k k' || has_key m k'.
Proof.
  unfold has_key. destruct (String.eqb k k') eqn:E.
  - apply String.eqb_eq in E. subst. now rewrite lookup_set_same.
  - apply String.eqb_neq in E. now rewrite lookup_set_other.
Qed.

Lemma lookup_absent (m : obj) (k : string) :
  ~ In k (obj_keys m) -> lookup m k = None.
Proof.
  induction m as [|[k0 v0] m IH]; cbn; intros H; [reflexivity|].
  destruct (String.eqb k0 k) eqn:E.
  - apply String.eqb_eq in E. tauto.
  - apply IH. tauto.
Qed.

(** Copying an object with distinct keys keeps what is under every key. *)
Lemma fold_set_get (entries acc : obj) (k : string) :
  NoDup (obj_keys entries) ->
  obj_get (fold_left (fun a kv => obj_set a (fst kv) (snd kv)) entries acc) k
  = match lookup entries k with
    | Some v => v
    | None => obj_get acc k
    end.
Proof.
  revert acc. induction entries as [|[k0 v0] entries IH]; intros acc H; cbn.
  - reflexivity.
  - inversion H as [|? ? Hk Hm]; subst. rewrite (IH _ Hm). cbn [fst snd].
    destruct (String.eqb k0 k) eqn:E.
    + apply String.eqb_eq in E. subst.
      rewrite (lookup_absent _ _ Hk). apply get_set_same.
    + apply String.eqb_neq in E.
      destruct (lookup entries k); [reflexivity|now apply get_set_other].
Qed.

Lemma raw_param_obj (m : obj) (k : string) :
  NoDup (obj_keys m) -> raw_param (VObj m) k = obj_get m k.
Proof.
  intros H. unfold raw_param, Object_assign. cbn [own_entries].
  rewrite (fold_set_get m [] k H). unfold obj_get.
  now destruct (lookup m k).
Qed.

Section SanitizerFrame.

Variable N : string -> num.
Variable Ext : Type.
Variable this : Service Ext.

Lemma number_field_NoDup (k : string) (p : obj) :
  NoDup (obj_keys p) -> NoDup (obj_keys (number_field N k p)).
Proof.
  intros H. unfold number_field. destruct (prop p k); try exact H.
  now apply obj_set_keys_NoDup.
Qed.

Lemma list_field_NoDup (k : string) (p : obj) :
  NoDup (obj_keys p) -> NoDup (obj_keys (list_field k p)).
Proof.
  intros H. unfold list_field. destruct (prop p k); try exact H.
  now apply obj_set_keys_NoDup.
Qed.

Lemma if_NoDup (b : bool) (x y : obj) :
  NoDup (obj_keys x) -> NoDup (obj_keys y) ->
  NoDup (obj_keys (if b then x else y)).
Proof. now destruct b. Qed.

Lemma paginate_NoDup (p : obj) :
  NoDup (obj_keys p) -> NoDup (obj_keys (paginated N this p)).
Proof.
  intros H. unfold paginated. cbv zeta.
  repeat first [ apply obj_set_keys_NoDup | apply if_NoDup | exact H ].
Qed.

Lemma limit_the_limit_NoDup (p : obj) :
  NoDup (obj_keys p) -> NoDup (obj_keys (limited N this p)).
Proof.
  intros H. unfold limited.
  apply if_NoDup; [now apply obj_set_keys_NoDup|exact H].
Qed.

(** The sanitized parameters are an object with distinct keys. *)
Lemma sanitizeParams_NoDup (ctx : Context Ext) (params : value) (p : obj) :
  sanitizeParams N this ctx params = Ok p -> NoDup (obj_keys p).
Proof.
  intros H.
  destruct (sanitizeParams_inv N Ext this ctx params p H)
    as (name & _ & -> & _).
  apply limit_the_limit_NoDup.
  assert (Hc : NoDup (obj_keys (coerced N params))).
  { unfold coerced. cbv zeta.
    repeat first [ apply list_field_NoDup | apply number_field_NoDup ].
    apply Object_assign_NoDup. constructor. }
  destruct (endsWith name ".list"); [now apply paginate_NoDup|exact Hc].
Qed.

Lemma paginate_other (p : obj) (k : string) :
  ~ In k ["pageSize"; "page"; "limit"; "offset"] ->
  prop (paginated N this p) k = prop p k.
Proof.
  intros Hk. unfold paginated, prop. cbv zeta.
  assert (H1 : "pageSize" <> k) by (intros <-; apply Hk; cbn; tauto).
  assert (H2 : "page" <> k) by (intros <-; apply Hk; cbn; tauto).
  assert (H3 : "limit" <> k) by (intros <-; apply Hk; cbn; tauto).
  assert (H4 : "offset" <> k) by (intros <-; apply Hk; cbn; tauto).
  apply String.eqb_neq in H1, H2, H3, H4.
  repeat (rewrite ?get_if, ?get_set_cases, ?H1, ?H2, ?H3, ?H4).
  repeat match goal with |- context [if ?b then _ else _] =>
    destruct b end; reflexivity.
Qed.

(** Whatever is not a pagination or list parameter passes through the
    sanitizer as the caller supplied it. *)
Lemma sanitizeParams_other (ctx : Context Ext) (params : value) (p : obj)
      (k : string) :
  sanitizeParams N this ctx params = Ok p ->
  ~ In k coerced_params ->
  prop p k = raw_param params k.
Proof.
  intros H Hk.
  destruct (sanitizeParams_inv N Ext this ctx params p H)
    as (name & _ & -> & _).
  unfold coerced_params in Hk.
  rewrite limit_the_limit_other by (intros <-; apply Hk; cbn; tauto).
  assert (Hc : prop (coerced N params) k = raw_param params k).
  { unfold coerced, raw_param. cbv zeta.
    rewrite !list_field_other by (intros <-; apply Hk; cbn; tauto).
    rewrite !number_field_other by (intros <-; apply Hk; cbn; tauto).
    reflexivity. }
  destruct (endsWith name ".list"); [|exact Hc].
  rewrite paginate_other; [exact Hc|].
  intros Hin. apply Hk. cbn in *. tauto.
Qed.

End SanitizerFrame.

(** ** The sanitizer, claim by claim *)

Section SanitizerClaims.

Variable N : string -> num.
Variable Ext : Type.
Variable this : Service Ext.

Lemma spec_page_primitive (v : value) :
  has_primitive v = true -> has_primitive (spec_page N v) = true.
Proof.
  intros H. unfold spec_page.
  destruct (js_truthy (coerce_number N v)); [|reflexivity].
  now rewrite coerce_number_primitive.
Qed.

Lemma spec_pageSize_primitive (v : value) :
  has_primitive v = true ->
  has_primitive (spec_pageSize N (settings this) v) = true.
Proof.
  intros H. unfold spec_pageSize. destruct (_ && _); [reflexivity|].
  destruct (js_truthy (coerce_number N v)); [|reflexivity].
  now rewrite coerce_number_primitive.
Qed.

Lemma list_field_same (k : string) (p : obj) :
  prop (list_field k p) k = coerce_list (prop p k).
Proof.
  unfold list_field, prop, coerce_list.
  destruct (obj_get p k) eqn:E; rewrite ?E; try reflexivity.
  apply get_set_same.
Qed.

Lemma coerced_list (params : value) (k : string) :
  In k ["sort"; "fields"; "populate"; "searchFields"] ->
  prop (coerced N params) k = coerce_list (raw_param params k).
Proof.
  unfold coerced, raw_param. cbv zeta. intros Hk. cbn in Hk.
  destruct Hk as [<-|[<-|[<-|[<-|[]]]]];
    rewrite ?(list_field_other "searchFields") by discriminate;
    rewrite ?(list_field_other "populate") by discriminate;
    rewrite ?(list_field_other "fields") by discriminate;
    rewrite list_field_same;
    rewrite ?list_field_other by discriminate;
    rewrite !(number_field_other N) by discriminate; reflexivity.
Qed.

(** The pagination parameters that the listing action ends with. *)
Lemma sanitized_listing (params : value) :
  let p := limited N this (paginated N this (coerced N params)) in
  let st := settings this in
  let size := spec_pageSize N st (raw_param params "pageSize") in
  let page := spec_page N (raw_param params "page") in
  prop p "pageSize" = size /\
  prop p "page" = page /\
  prop p "offset" = mul_prim N (sub_prim N page (VInt 1)) size /\
  prop p "limit" = spec_limit N st size.
Proof.
  cbv zeta.
  destruct (paginate_spec N Ext this (coerced N params)) as (Hs & Hp & Hl & Ho).
  assert (Es : prop (coerced N params) "pageSize"
               = coerce_number N (raw_param params "pageSize"))
    by (apply coerced_number; simpl; tauto).
  assert (Ep : prop (coerced N params) "page"
               = coerce_number N (raw_param params "page"))
    by (apply coerced_number; simpl; tauto).
  rewrite Es in Hs, Hl, Ho. rewrite Ep in Hp, Ho.
  rewrite limit_the_limit_spec.
  rewrite !limit_the_limit_other by discriminate.
  rewrite Hs, Hp, Hl, Ho. unfold spec_pageSize, spec_page.
  repeat split; reflexivity.
Qed.

(** The offset is the product the code computes, rounded as the doubles
    round it. *)
Lemma offset_computed (page size : value) :
  has_primitive page = true -> has_primitive size = true ->
  exists pages,
    js_sub N page (VInt 1) = Ok pages /\
    js_mul N pages size = Ok (mul_prim N (sub_prim N page (VInt 1)) size).
Proof.
  intros Hp Hs. exists (sub_prim N page (VInt 1)).
  rewrite js_sub_eq, js_mul_eq, Hp, Hs. split; reflexivity.
Qed.



End SanitizerClaims.

(** The sanitizer at work on the store of the examples. *)




(** Without an action in the context the sanitizer fails as well: reading
    [ctx.action.name] is a [TypeError]. *)
Lemma sanitizeParams_needs_action :
  sanitizeParams decimal_number (mem_service mem_settings)
                 (mkContext Store VUndef VNull (directory_call []))
                 (VObj [])
  = Err TypeError.
Proof. reflexivity. Qed.

(** [maxPageSize = 5], requested [pageSize = 100] and [page = 2]: the
    effective page size is 5 and the offset 5. *)
Example sanitize_maxPageSize :
  sanitizeParams decimal_number
    (mem_service (mkSettings Store "_id" None None 10 5 (-1) false))
    (mem_context "posts.list" VNull)
    (VObj [("pageSize", VInt 100); ("page", VInt 2)])
  = Ok [("pageSize", VInt 5); ("page", VInt 2);
        ("limit", VInt 5); ("offset", VInt 5)].
Proof. reflexivity. Qed.

(** [maxLimit = 10], requested [limit = 50]: the effective limit is 10. *)
Example sanitize_maxLimit :
  sanitizeParams decimal_number
    (mem_service (mkSettings Store "_id" None None 10 100 10 false))
    (mem_context "posts.find" VNull)
    (VObj [("limit", VInt 50)])
  = Ok [("limit", VInt 10)].
Proof. reflexivity. Qed.

(** String-typed input gives what the typed input gives. *)
Example sanitize_strings :
  sanitizeParams decimal_number
    (mem_service (mkSettings Store "_id" None None 10 5 (-1) false))
    (mem_context "posts.list" VNull)
    (VObj [("pageSize", VStr "100"); ("page", VStr "2");
           ("sort", VStr "name,-age")])
  = Ok [("pageSize", VInt 5); ("page", VInt 2);
        ("sort", VArr [VStr "name"; VStr "-age"]);
        ("limit", VInt 5); ("offset", VInt 5)].
Proof. reflexivity. Qed.

(** A product beyond 2^53 is the double the code computes: page 94906268 of
    pages of 94906267 rows starts at offset 9007199515875288, where the
    product of the integers is 9007199515875289. *)
Example sanitize_rounds_offset :
  sanitizeParams decimal_number
    (mem_service (mkSettings Store "_id" None None 10 (-1) (-1) false))
    (mem_context "posts.list" VNull)
    (VObj [("pageSize", VInt 94906267); ("page", VInt 94906268)])
  = Ok [("pageSize", VInt 94906267); ("page", VInt 94906268);
        ("limit", VInt 94906267); ("offset", VInt 9007199515875288)].
Proof. reflexivity. Qed.

(** ** [get] *)

Section GetProperties.

Variable N : string -> num.
Variable Ext : Type.
Variable this : Service Ext.

Lemma _get_not_found (ctx : Context Ext) (params id doc : value)
      (w w1 : world Ext) :
  get_member params "id" = Ok id ->
  getById this id true w = (w1, Ok doc) ->
  js_truthy doc = false ->
  _get this ctx params w = (w1, Err (EntityNotFoundError id)).
Proof.
  intros Hid Hg Hf. unfold _get, bind, lift. rewrite Hid, Hg, Hf.
  reflexivity.
Qed.


End GetProperties.


(** A list of ids behaves the same when the adapter answers with a falsy
    value... *)
Lemma get_not_found_many (Ext : Type) (this : Service Ext)
      (ctx : Context Ext) (ids : list value) (w w1 : world Ext) :
  getById this (VArr ids) true w = (w1, Ok VNull) ->
  _get this ctx (VObj [("id", VArr ids)]) w
  = (w1, Err (EntityNotFoundError (VArr ids))).
Proof. intros H. now apply _get_not_found with (doc := VNull). Qed.


(** ** The logs of the methods *)

Section MethodLogs.

Variable Ext : Type.
Variable this : Service Ext.
Variable ctx : Context Ext.

Lemma populate_rule_emits (pf : list value) (st : list obj * pending)
      (fr : string * rule Ext) :
  emits (fun e => is_populate_event e = true) (populate_rule ctx pf st fr).
Proof.
  unfold populate_rule. destruct st as [docs pend], fr as [f r].
  destruct (negb _); [apply emits_ret|].
  destruct (rule_handler r).
  - repeat emits_step; try reflexivity.
    match goal with |- emits _ (match ?o with _ => _ end) => destruct o end;
      apply emits_ret.
  - destruct (0 <? _)%nat; repeat emits_step; reflexivity.
Qed.

Lemma populateDocs_emits (docs : list obj) (populateFields : value) :
  emits (fun e => is_populate_event e = true)
        (populateDocs this ctx docs populateFields).
Proof.
  unfold populateDocs.
  destruct (populates (settings this)) as [rules|]; [|apply emits_ret].
  destruct populateFields as [| | | | |pf|]; try apply emits_ret.
  destruct pf; [apply emits_ret|].
  apply emits_bind; [|intros ?; apply emits_lift].
  apply emits_foldM. intros a b. apply populate_rule_emits.
Qed.

Lemma transformDocuments_emits (params docs : value) :
  emits (fun e => is_populate_event e = true)
        (transformDocuments this ctx params docs).
Proof.
  assert (Hrun : forall l isDoc,
    emits (fun e => is_populate_event e = true)
      (bind (populate_stage this ctx params
               (apply_idField this (encode_ids this (to_objects this l))))
         (fun json => bind (filter_stage this params json)
            (fun json => ret (if isDoc : bool then nth 0 json VUndef
                              else VArr json))))).
  { intros l isDoc. unfold populate_stage, filter_stage.
    repeat emits_step. apply populateDocs_emits. }
  unfold transformDocuments.
  destruct docs as [| | | | |l|m]; try apply emits_ret.
  - apply (Hrun l false).
  - apply (Hrun [VObj m] true).
Qed.

Lemma transformDocuments_traced_emits (params docs : value) :
  emits (fun e => is_populate_event e = true)
        (transformDocuments_traced this ctx params docs).
Proof.
  assert (Hrun : forall l isDoc,
    emits (fun e => is_populate_event e = true)
      (bind (populate_stage this ctx params
               (apply_idField this (encode_ids this (to_objects this l))))
         (fun written => bind (filter_stage this params written)
            (fun json =>
               ret (if isDoc : bool
                    then (nth 0 json VUndef,
                          nth 0 (seen_after this l written) VUndef)
                    else (VArr json, VArr (seen_after this l written))))))).
  { intros l isDoc. unfold populate_stage, filter_stage.
    repeat emits_step. apply populateDocs_emits. }
  unfold transformDocuments_traced.
  destruct docs as [| | | | |l|m]; try apply emits_ret.
  - apply (Hrun l false).
  - apply (Hrun [VObj m] true).
Qed.

(** The traced transformation is the transformation: same world, same
    entities. *)
Lemma transformDocuments_traced_json (params docs : value) (w : world Ext) :
  transformDocuments this ctx params docs w
  = (fst (transformDocuments_traced this ctx params docs w),
     match snd (transformDocuments_traced this ctx params docs w) with
     | Ok tr => Ok (fst tr)
     | Err e => Err e
     end).
Proof.
  unfold transformDocuments, transformDocuments_traced.
  destruct docs as [| | | | |l|m]; try reflexivity; unfold bind;
    destruct (populate_stage this ctx params _ w) as [w1 [written|e]];
    try reflexivity;
    destruct (filter_stage this params written w1) as [w2 [json|e]];
    reflexivity.
Qed.

Lemma getById_emits (id : value) (decoding : bool) :
  emits (fun e => is_load_event e = true) (getById this id decoding).
Proof.
  unfold getById. destruct id; repeat emits_step; reflexivity.
Qed.

Lemma populate_is_load (e : event) :
  is_populate_event e = true -> is_load_event e = true.
Proof. now destruct e. Qed.

Lemma populate_is_update (e : event) :
  is_populate_event e = true -> is_update_event e = true.
Proof. now destruct e. Qed.

Lemma _get_emits (params : value) :
  emits (fun e => is_load_event e = true) (_get this ctx params).
Proof.
  unfold _get. emits_step; [emits_step|].
  emits_step; [apply getById_emits|].
  destruct (negb _); [apply emits_fail|].
  emits_step.
  { eapply emits_weaken; [|apply transformDocuments_traced_emits].
    apply populate_is_load. }
  destruct a1 as [json origDoc].
  emits_step; [emits_step|].
  destruct json; try apply emits_ret.
  destruct (strict_eq _ _); repeat emits_step.
Qed.

Lemma clearCache_log (w w' : world Ext) (r : result value) :
  clearCache this w = (w', r) -> log w' = log w ++ clear_events this.
Proof.
  unfold clearCache, clear_events, bind, emit, external. cbn [ext log].
  destruct (cacher this) as [clean|]; cbn [ext log].
  - destruct (clean _ _) as [x r0]. intros H. inversion H; subst.
    cbn [log]. now rewrite <- app_assoc.
  - intros H. inversion H; subst. reflexivity.
Qed.

(** A lifecycle event that went through: the cache was invalidated, then
    the hook of that name, when the schema has one, was called with the
    entity. *)
Lemma entityChanged_ok (type : string) (json v : value) (w w' : world Ext) :
  entityChanged this type json ctx w = (w', Ok v) ->
  log w' = log w ++ clear_events this
                 ++ hook_events this ("entity" ++ capitalize type) json.
Proof.
  unfold entityChanged, hook_events. intros H.
  apply bind_ok_inv in H. destruct H as (w1 & a & H1 & H2).
  apply clearCache_log in H1.
  destruct (schema this _) as [hook|].
  - apply bind_ok_inv in H2. destruct H2 as (w2 & [] & H2 & H3).
    rewrite emit_eq in H2. inversion H2; subst.
    apply external_log in H3. destruct H3 as [H3 _].
    rewrite H3. cbn [log]. now rewrite H1, <- app_assoc.
  - inversion H2; subst. now rewrite H1, app_nil_r.
Qed.

Lemma entityChanged_emits (json : value) :
  emits (fun e => is_update_event e = true)
        (entityChanged this "updated" json ctx).
Proof.
  unfold entityChanged. emits_step.
  - intros w w' r H. apply clearCache_log in H.
    exists (clear_events this). split; [exact H|].
    unfold clear_events. destruct (cacher this); repeat constructor.
  - destruct (schema this _); repeat emits_step. reflexivity.
Qed.

Lemma _update_emits (params : value) :
  emits (fun e => is_update_event e = true) (_update this ctx params).
Proof.
  unfold _update. emits_step; [emits_step|].
  destruct (update_sets this a) as [id sets].
  emits_step; [emits_step; reflexivity|].
  emits_step; [emits_step|].
  apply emits_if; [apply emits_fail|].
  emits_step.
  { eapply emits_weaken; [|apply transformDocuments_emits].
    apply populate_is_update. }
  emits_step; [apply entityChanged_emits|apply emits_ret].
Qed.

End MethodLogs.

(** ** [update] and the soft [remove] *)

Section UpdateProperties.

Variable N : string -> num.
Variable Ext : Type.
Variable this : Service Ext.
Variable ctx : Context Ext.

Lemma world_eta (w : world Ext) : mkWorld (ext w) (log w) = w.
Proof. now destruct w. Qed.

(** The [$set] object holds every parameter that is not the id. *)
Lemma update_sets_get (entries : obj) (k : string) :
  NoDup (obj_keys entries) ->
  k <> "id" -> k <> idField (settings this) ->
  obj_get (snd (update_sets this entries)) k = obj_get entries k.
Proof.
  intros Hnd Hid Hidf. unfold update_sets.
  assert (G : forall acc : value * obj,
    obj_get (snd (fold_left
      (fun (acc : value * obj) (kv : string * value) =>
         let (id, sets) := acc in
         let (k, v) := kv in
         if String.eqb k "id" || String.eqb k (idField (settings this))
         then (decodeID this v, sets)
         else (id, obj_set sets k v)) entries acc)) k
    = match lookup entries k with
      | Some v => v
      | None => obj_get (snd acc) k
      end).
  { induction entries as [|[k0 v0] entries IH]; intros [id sets];
      [reflexivity|].
    inversion Hnd as [|? ? Hk Hm]; subst.
    cbn [fold_left lookup]. rewrite (IH Hm).
    destruct (String.eqb k0 k) eqn:E.
    - apply String.eqb_eq in E. subst k0.
      rewrite (lookup_absent _ _ Hk).
      apply String.eqb_neq in Hid, Hidf. rewrite Hid, Hidf. cbn.
      apply get_set_same.
    - apply String.eqb_neq in E.
      destruct (lookup entries k); [reflexivity|].
      destruct (_ || _); cbn [snd]; [reflexivity|].
      now apply get_set_other. }
  rewrite G. cbn [snd]. unfold obj_get. now destruct (lookup entries k).
Qed.

(** An update that went through: the write, the events of the
    transformation, the cache invalidation, then the [entityUpdated] hook
    with the transformed entity. *)
Lemma _update_ok (params json : value) (w w' : world Ext) :
  _update this ctx params w = (w', Ok json) ->
  exists entries lt,
    own_entries_of params = Ok entries /\
    log w' = log w
      ++ [EvUpdateById (fst (update_sets this entries))
            (VObj [("$set", VObj (snd (update_sets this entries)))])]
      ++ lt ++ clear_events this ++ hook_events this "entityUpdated" json /\
    Forall (fun e => is_populate_event e = true) lt.
Proof.
  unfold _update. intros H.
  apply bind_ok_inv in H. destruct H as (w1 & entries & H1 & H).
  apply lift_inv in H1. destruct H1 as [-> H1].
  exists entries. destruct (update_sets this entries) as [id sets].
  apply bind_ok_inv in H. destruct H as (w2 & [] & H2 & H).
  rewrite emit_eq in H2. inversion H2; subst w2. clear H2.
  apply bind_ok_inv in H. destruct H as (w3 & doc & H3 & H).
  apply external_log in H3. destruct H3 as [L3 _]. cbn [log] in L3.
  destruct (negb (js_truthy doc)); [discriminate|].
  apply bind_ok_inv in H. destruct H as (w4 & json1 & H4 & H).
  apply transformDocuments_emits in H4. destruct H4 as (lt & L4 & F4).
  apply bind_ok_inv in H. destruct H as (w5 & v & H5 & H).
  apply entityChanged_ok in H5. inversion H; subst.
  exists lt. cbn [fst snd]. split; [now symmetry|]. split; [|exact F4].
  rewrite H5, L4, L3. cbn [String.append capitalize].
  now rewrite <- !app_assoc.
Qed.

(** The soft [remove], step by step. *)
Lemma remove_soft_steps (p : obj) (data : value) (b : bool)
      (w w1 : world Ext) :
  softDelete (settings this) = true ->
  sanitizeParams N this ctx (ctx_params ctx) = Ok p ->
  _get this ctx (VObj p) w = (w1, Ok data) ->
  marked_deleted data = Ok b ->
  remove_handler N this ctx w
  = if b then (w1, Err (EntityLogicallyNotFoundError (prop p "id")))
    else _update this ctx
           (VObj (obj_set p "isDeleted" (VInt (getTime this (ext w1))))) w1.
Proof.
  intros Hs Hp Hg Hm. unfold remove_handler.
  unfold bind at 1. unfold lift at 1. rewrite Hp, Hs. cbn [negb].
  unfold bind at 1. rewrite Hg.
  unfold bind at 1. unfold lift at 1. rewrite Hm.
  destruct b; [reflexivity|].
  unfold bind at 1. unfold external. now rewrite world_eta.
Qed.

Lemma remove_soft_ok (json : value) (w w' : world Ext) :
  softDelete (settings this) = true ->
  remove_handler N this ctx w = (w', Ok json) ->
  exists p data w1,
    sanitizeParams N this ctx (ctx_params ctx) = Ok p /\
    _get this ctx (VObj p) w = (w1, Ok data) /\
    marked_deleted data = Ok false /\
    _update this ctx
      (VObj (obj_set p "isDeleted" (VInt (getTime this (ext w1))))) w1
    = (w', Ok json).
Proof.
  intros Hs H. unfold remove_handler in H. rewrite Hs in H. cbn [negb] in H.
  apply bind_ok_inv in H. destruct H as (w0 & p & H0 & H).
  apply lift_inv in H0. destruct H0 as [-> H0].
  apply bind_ok_inv in H. destruct H as (w1 & data & H1 & H).
  apply bind_ok_inv in H. destruct H as (w2 & b & H2 & H).
  apply lift_inv in H2. destruct H2 as [-> H2].
  destruct b; [discriminate|].
  apply bind_ok_inv in H. destruct H as (w3 & now & H3 & H).
  unfold external in H3. inversion H3; subst. rewrite world_eta in H.
  exists p, data, w1. auto.
Qed.

End UpdateProperties.

Section SoftRemove.

Variable N : string -> num.
Variable Ext : Type.
Variable this : Service Ext.
Variable ctx : Context Ext.

Lemma load_event_kept (e : event) :
  is_load_event e = true ->
  is_remove_call e = false /\ is_hook "entityRemoved" e = false.
Proof. destruct e; cbn; intros H; try discriminate; now split. Qed.

Lemma populate_event_kept (e : event) :
  is_populate_event e = true ->
  is_remove_call e = false /\ is_hook "entityRemoved" e = false.
Proof. destruct e; cbn; intros H; try discriminate; now split. Qed.

Lemma clear_events_kept :
  Forall (fun e => is_remove_call e = false
                   /\ is_hook "entityRemoved" e = false)
         (clear_events this).
Proof.
  unfold clear_events. destruct (cacher this); repeat constructor.
Qed.

Lemma updated_hook_kept (json : value) :
  Forall (fun e => is_remove_call e = false
                   /\ is_hook "entityRemoved" e = false)
         (hook_events this "entityUpdated" json).
Proof.
  unfold hook_events. destruct (schema this _); repeat constructor.
Qed.


End SoftRemove.


(** ** Soft deletion *)

Section SoftDelete.

Variable N : string -> num.
Variable Ext : Type.
Variable this : Service Ext.
Variable ctx : Context Ext.

Lemma get_soft_steps (p : obj) (data : value) (b : bool) (w w1 : world Ext) :
  softDelete (settings this) = true ->
  sanitizeParams N this ctx (ctx_params ctx) = Ok p ->
  js_truthy (prop p "ignoreSoftDelete") = false ->
  _get this ctx (VObj p) w = (w1, Ok data) ->
  marked_deleted data = Ok b ->
  get_handler N this ctx w
  = (w1, if b then Err (EntityLogicallyNotFoundError (prop p "id"))
         else Ok data).
Proof.
  intros Hs Hp Hi Hg Hm. unfold get_handler.
  unfold bind at 1. unfold lift at 1. rewrite Hp.
  unfold bind at 1. rewrite Hg, Hs, Hi. cbn [negb andb].
  unfold bind, lift. rewrite Hm. now destruct b.
Qed.

Lemma _get_id (params data : value) (w w1 : world Ext) :
  _get this ctx params w = (w1, Ok data) ->
  exists id, get_member params "id" = Ok id.
Proof.
  unfold _get. intros H. apply bind_ok_inv in H.
  destruct H as (w0 & id & H & _). apply lift_inv in H.
  exists id. now destruct H.
Qed.

Lemma update_soft_steps (data id : value) (b : bool) (w w1 : world Ext) :
  softDelete (settings this) = true ->
  _get this ctx (ctx_params ctx) w = (w1, Ok data) ->
  marked_deleted data = Ok b ->
  get_member (ctx_params ctx) "id" = Ok id ->
  update_handler this ctx w
  = if b then (w1, Err (EntityLogicallyNotFoundError id))
    else _update this ctx (ctx_params ctx) w1.
Proof.
  intros Hs Hg Hm Hid. unfold update_handler.
  unfold bind at 1. rewrite Hg, Hs.
  unfold bind at 1. unfold lift at 1. rewrite Hm.
  destruct b; [|reflexivity].
  unfold bind, lift. now rewrite Hid.
Qed.

(** Whatever its outcome, an update starts with the write. *)
Lemma _update_log (entries : obj) (w w' : world Ext) (r : result value) :
  _update this ctx (VObj entries) w = (w', r) ->
  exists l,
    log w' = log w
      ++ EvUpdateById (fst (update_sets this entries))
           (VObj [("$set", VObj (snd (update_sets this entries)))]) :: l /\
    Forall (fun e => is_update_event e = true) l.
Proof.
  unfold _update. unfold bind at 1. unfold lift at 1.
  cbn [own_entries_of is_nullish own_entries].
  destruct (update_sets this entries) as [id sets]. cbn [fst snd].
  unfold bind at 1. rewrite emit_eq. intros H.
  assert (E : emits (fun e => is_update_event e = true)
    (bind (external (updateById (adapter this) id
                       (VObj [("$set", VObj sets)])))
       (fun doc =>
          if negb (js_truthy doc) then fail (EntityNotFoundError id)
          else bind (transformDocuments this ctx (VObj entries) doc)
                 (fun json => bind (entityChanged this "updated" json ctx)
                    (fun _ => ret json))))).
  { emits_step; [emits_step|].
    apply emits_if; [apply emits_fail|].
    emits_step.
    { eapply emits_weaken; [|apply transformDocuments_emits].
      apply populate_is_update. }
    emits_step; [apply entityChanged_emits|apply emits_ret]. }
  apply E in H. destruct H as (l & L & F). cbn [log] in L.
  exists l. split; [|exact F]. now rewrite L, <- app_assoc.
Qed.

(** Whatever its outcome, a listing starts with the two requests to the
    adapter: the rows under the parameters, the count under the parameters
    without [limit] and [offset]. *)
Lemma _list_log (params : value) (w w' : world Ext) (r : result value) :
  _list N this ctx params w = (w', r) ->
  exists l,
    log w' = log w
      ++ EvFind params
      :: EvCount (VObj (null_if_truthy "offset"
                          (null_if_truthy "limit" (Object_assign [] params))))
      :: l /\
    Forall (fun e => is_populate_event e = true) l.
Proof.
  unfold _list. cbv zeta.
  set (cp := null_if_truthy "offset" _).
  unfold bind at 1. rewrite emit_eq.
  unfold bind at 1. unfold attempt at 1.
  destruct (external (find (adapter this) params) _) as [w1 rows] eqn:E1.
  apply external_log in E1. destruct E1 as [L1 _]. cbn [log] in L1.
  unfold bind at 1. rewrite emit_eq.
  unfold bind at 1. unfold attempt at 1.
  destruct (external (count (adapter this) (VObj cp)) _) as [w2 total] eqn:E2.
  apply external_log in E2. destruct E2 as [L2 _]. cbn [log] in L2.
  intros H.
  assert (E : emits (fun e => is_populate_event e = true)
    (match rows, total with
     | Err e, _ => fail e
     | _, Err e => fail e
     | Ok rows, Ok total =>
         bind (transformDocuments this ctx params rows) (fun docs =>
         bind (lift (get_member params "page")) (fun page =>
         bind (lift (get_member params "pageSize")) (fun size =>
         bind (lift (rbind (js_add N total size) (fun sum =>
                     rbind (js_sub N sum (VInt 1)) (fun above =>
                     js_floor_div N above size)))) (fun totalPages =>
         ret (VObj [("rows", docs); ("total", total); ("page", page);
                    ("pageSize", size); ("totalPages", totalPages)])))))
     end)).
  { destruct rows, total; try apply emits_fail.
    emits_step; [apply transformDocuments_emits|].
    repeat emits_step. }
  apply E in H. destruct H as (l & L & F).
  exists l. split; [|exact F].
  rewrite L, L2, L1. now rewrite <- !app_assoc.
Qed.

Lemma null_if_truthy_other (k k' : string) (p : obj) :
  k <> k' -> prop (null_if_truthy k p) k' = prop p k'.
Proof.
  intros H. unfold null_if_truthy, prop.
  destruct (js_truthy _); [now apply get_set_other|reflexivity].
Qed.

Lemma list_soft_steps (p : obj) (w : world Ext) :
  softDelete (settings this) = true ->
  sanitizeParams N this ctx (ctx_params ctx) = Ok p ->
  js_truthy (prop p "ignoreSoftDelete") = false ->
  list_handler N this ctx w
  = _list N this ctx
      (VObj (obj_set p "query" (not_deleted_query (prop p "query")))) w.
Proof.
  intros Hs Hp Hi. unfold list_handler.
  unfold bind at 1. unfold lift at 1. now rewrite Hp, Hs, Hi.
Qed.

Lemma not_deleted_query_marker (query : value) :
  member_or_undef (not_deleted_query query) "isDeleted" = VStr "-1".
Proof.
  unfold not_deleted_query, member_or_undef, Object_assign. cbn.
  apply get_set_same.
Qed.

End SoftDelete.

Section SoftDeleteClaim.

Variable N : string -> num.
Variable Ext : Type.
Variable this : Service Ext.
Variable ctx : Context Ext.

Lemma update_event_kept (e : event) :
  is_update_event e = true -> is_remove_call e = false.
Proof. now destruct e. Qed.

Lemma load_event_no_remove (e : event) :
  is_load_event e = true -> is_remove_call e = false.
Proof. now destruct e. Qed.


End SoftDeleteClaim.



(** After the soft [remove] the listing asks for the records that are not
    deleted, and the marked record is not among the rows. *)
Example list_after_soft_remove :
  list_handler decimal_number audited_service
               (mem_context "posts.list" (VObj [])) soft_removed
  = (mkWorld (ext soft_removed)
       (log soft_removed
        ++ [EvFind (VObj [("pageSize", VInt 10); ("page", VInt 1);
                          ("limit", VInt 10); ("offset", VInt 0);
                          ("query", VObj [("isDeleted", VStr "-1")])]);
            EvCount (VObj [("pageSize", VInt 10); ("page", VInt 1);
                           ("limit", VNull); ("offset", VInt 0);
                           ("query", VObj [("isDeleted", VStr "-1")])])]),
     Ok (VObj [("rows", VArr []); ("total", VInt 0); ("page", VInt 1);
               ("pageSize", VInt 10); ("totalPages", VInt 0)])).
Proof. reflexivity. Qed.

(** The marker is read on the transformed record: when the configured
    fields leave [isDeleted] out, a record that is not deleted is taken for
    a deleted one. *)
Example remove_with_hidden_marker :
  run (remove_handler decimal_number
         (mem_service (mkSettings Store "_id" (Some ["_id"; "title"]) None
                                  10 100 (-1) true))
         remove_1) one_post
  = (mkWorld one_post [EvFindById (VStr "1")],
     Err (EntityLogicallyNotFoundError (VStr "1"))).
Proof. reflexivity. Qed.

(** ** [list] *)

Lemma ceil_div_floor (a b : Z) :
  (0 < b)%Z -> ((a + b + -1) / b = ceil_div a b)%Z.
Proof.
  intros Hb. unfold ceil_div. symmetry.
  apply Z.div_unique with (r := (b - 1 - (- a) mod b)%Z).
  - left. pose proof (Z.mod_pos_bound (- a) b Hb). lia.
  - pose proof (Z.div_mod (- a) b). lia.
Qed.

Section ListProperties.

Variable N : string -> num.
Variable Ext : Type.
Variable this : Service Ext.
Variable ctx : Context Ext.

Lemma spec_pageSize_validated (o : option Z) :
  spec_pageSize N (settings this) (opt_value o)
  = VInt (effective_size (settings this) o).
Proof.
  unfold spec_pageSize, effective_size.
  destruct o as [a|]; cbn [opt_value coerce_number VInt js_truthy num_truthy].
  - destruct (a =? 0)%Z; cbn [negb]; unfold gt_prim; cbn;
      now destruct (_ && _).
  - unfold gt_prim; cbn; now destruct (_ && _).
Qed.

Lemma spec_page_validated (o : option Z) :
  spec_page N (opt_value o) = VInt (effective_page o).
Proof.
  unfold spec_page, effective_page.
  destruct o as [b|]; cbn; [|reflexivity]. now destruct (b =? 0)%Z.
Qed.

(** The sanitized parameters of a validated listing request. *)
Lemma sanitize_list_validated (params : value) (name : string) (p : obj)
      (osize opage : option Z) :
  get_member (action ctx) "name" = Ok (VStr name) ->
  endsWith name ".list" = true ->
  raw_param params "pageSize" = opt_value osize ->
  raw_param params "page" = opt_value opage ->
  sanitizeParams N this ctx params = Ok p ->
  let size := effective_size (settings this) osize in
  let page := effective_page opage in
  prop p "pageSize" = VInt size /\
  prop p "page" = VInt page /\
  prop p "limit" = spec_limit N (settings this) (VInt size).
Proof.
  intros Hname Hlist Hsize Hpage Hp. cbv zeta.
  destruct (sanitizeParams_inv N Ext this ctx params p Hp)
    as (name' & Hname' & -> & _).
  rewrite Hname in Hname'. inversion Hname'; subst name'. rewrite Hlist.
  destruct (sanitized_listing N Ext this params) as (Hs & Hg & _ & Hl).
  cbv zeta in Hs, Hg, Hl. rewrite Hsize in Hs, Hl. rewrite Hpage in Hg.
  rewrite spec_pageSize_validated in Hs, Hl.
  rewrite spec_page_validated in Hg.
  auto.
Qed.

Lemma effective_size_pos (osize : option Z) :
  (0 < pageSize (settings this))%Z ->
  (forall a, osize = Some a -> (0 <= a)%Z) ->
  (0 < effective_size (settings this) osize)%Z.
Proof.
  intros Hd Ha. unfold effective_size.
  destruct (0 <? maxPageSize (settings this))%Z eqn:Em; cbn [andb].
  - apply Z.ltb_lt in Em.
    destruct (_ <? _)%Z; [exact Em|].
    destruct osize as [a|]; [|exact Hd].
    destruct (a =? 0)%Z eqn:E; [exact Hd|].
    apply Z.eqb_neq in E. specialize (Ha a eq_refl). lia.
  - destruct osize as [a|]; [|exact Hd].
    destruct (a =? 0)%Z eqn:E; [exact Hd|].
    apply Z.eqb_neq in E. specialize (Ha a eq_refl). lia.
Qed.

Lemma list_params_other (p : obj) (k : string) :
  "query" <> k -> prop (list_params this p) k = prop p k.
Proof.
  intros H. unfold list_params, prop.
  destruct (_ && _); [now apply get_set_other|reflexivity].
Qed.

Lemma list_handler_eq (p : obj) (w : world Ext) :
  sanitizeParams N this ctx (ctx_params ctx) = Ok p ->
  list_handler N this ctx w = _list N this ctx (VObj (list_params this p)) w.
Proof.
  intros Hp. unfold list_handler, list_params.
  unfold bind at 1. unfold lift at 1. now rewrite Hp.
Qed.

Lemma count_params_limit (params : obj) :
  js_truthy (prop params "limit") = true ->
  NoDup (obj_keys params) ->
  prop (count_params params) "limit" = VNull.
Proof.
  intros Ht Hnd. unfold count_params.
  rewrite null_if_truthy_other by discriminate.
  unfold null_if_truthy, prop in *. unfold Object_assign.
  cbn [own_entries]. rewrite (fold_set_get params [] "limit" Hnd).
  unfold obj_get in Ht. destruct (lookup params "limit") as [v|] eqn:E;
    [|discriminate].
  rewrite Ht. apply get_set_same.
Qed.

Lemma count_params_offset (params : obj) :
  js_truthy (prop (count_params params) "offset") = false.
Proof.
  unfold count_params.
  set (q := null_if_truthy "limit" _). unfold null_if_truthy.
  destruct (js_truthy (prop q "offset")) eqn:E; [|exact E].
  unfold prop. now rewrite get_set_same.
Qed.


End ListProperties.


(** ** The identity field through the transformer *)

Lemma strict_eq_undef (v : value) : strict_eq v VUndef = true -> v = VUndef.
Proof. destruct v; cbn; intros H; try discriminate; reflexivity. Qed.

Lemma castPath_plain (idf : string) (o : value) :
  str_contains "." idf = false -> castPath (VStr idf) o = [idf].
Proof.
  intros H. unfold castPath. destruct (has_property o idf); [reflexivity|].
  now apply split_on_plain.
Qed.

Lemma lodash_get_plain (doc : obj) (idf : string) :
  str_contains "." idf = false ->
  lodash_get (VObj doc) (VStr idf) = obj_get doc idf.
Proof. intros H. unfold lodash_get. now rewrite castPath_plain. Qed.

Lemma lodash_set_plain (r : obj) (idf : string) (v : value) :
  str_contains "." idf = false -> guarded_key idf = false ->
  lodash_set (VObj r) (VStr idf) v = VObj (obj_set r idf v).
Proof.
  intros H G. unfold lodash_set. cbn [isObject].
  rewrite castPath_plain by exact H. cbn [baseSet]. now rewrite G.
Qed.

(** A guarded key is not written. *)
Lemma lodash_set_guarded (r : obj) (k : string) (v : value) :
  str_contains "." k = false -> guarded_key k = true ->
  lodash_set (VObj r) (VStr k) v = VObj r.
Proof.
  intros H G. unfold lodash_set. cbn [isObject].
  rewrite castPath_plain by exact H. cbn [baseSet]. now rewrite G.
Qed.

(** [baseSet] writes at the first key of the path, or not at all. *)
Lemma baseSet_head (r : obj) (k : string) (rest : list string) (v : value) :
  baseSet (VObj r) (k :: rest) v = VObj r \/
  exists x, baseSet (VObj r) (k :: rest) v = VObj (obj_set r k x).
Proof.
  destruct rest; cbn [baseSet]; destruct (guarded_key k);
    try (now left); right; eexists; reflexivity.
Qed.

(** Setting a path that does not start at [idf] leaves [idf] as it is. *)
Lemma lodash_set_other (r : obj) (n idf : string) (v : value) :
  n <> idf -> first_segment n <> idf ->
  exists r', lodash_set (VObj r) (VStr n) v = VObj r'
             /\ obj_get r' idf = obj_get r idf.
Proof.
  intros Hn Hseg. unfold lodash_set. cbn [isObject]. unfold castPath.
  destruct (has_property (VObj r) n).
  - cbn [baseSet]. destruct (guarded_key n).
    + exists r. split; reflexivity.
    + eexists. split; [reflexivity|]. now apply get_set_other.
  - destruct (split_on_cons "." n) as (k & rest & E).
    unfold first_segment in Hseg. rewrite E in *. cbn in Hseg.
    destruct (baseSet_head r k rest v) as [Ex|(x & Ex)]; rewrite Ex.
    + exists r. split; reflexivity.
    + eexists. split; [reflexivity|]. now apply get_set_other.
Qed.

Section IdentityProperties.

Variable Ext : Type.
Variable this : Service Ext.
Variable ctx : Context Ext.

(** One step of the loop of [filterFields] keeps what is under [idf] once it
    is the identity of the document, and puts it there when the step is the
    one for [idf]. *)
Lemma filter_step_identity (doc r : obj) (idf n : string) :
  str_contains "." idf = false -> guarded_key idf = false ->
  n = idf \/ first_segment n <> idf ->
  obj_get r idf = VUndef \/ obj_get r idf = obj_get doc idf ->
  exists r1,
    (let v := lodash_get (VObj doc) (VStr n) in
     if strict_eq v VUndef then VObj r else lodash_set (VObj r) (VStr n) v)
    = VObj r1 /\
    (obj_get r1 idf = VUndef \/ obj_get r1 idf = obj_get doc idf) /\
    (obj_get r idf = obj_get doc idf -> obj_get r1 idf = obj_get doc idf) /\
    (n = idf -> obj_get r1 idf = obj_get doc idf).
Proof.
  intros Hplain Hguard Hn HJ. cbv zeta.
  destruct (String.eqb n idf) eqn:E.
  - apply String.eqb_eq in E. subst n.
    rewrite lodash_get_plain by assumption.
    destruct (strict_eq (obj_get doc idf) VUndef) eqn:Eu.
    + apply strict_eq_undef in Eu. exists r.
      repeat split; try tauto.
      intros _. destruct HJ as [HJ|HJ]; congruence.
    + rewrite lodash_set_plain by assumption. eexists.
      split; [reflexivity|]. rewrite get_set_same. tauto.
  - apply String.eqb_neq in E.
    assert (Hseg : first_segment n <> idf) by tauto.
    destruct (strict_eq _ VUndef).
    + exists r. tauto.
    + destruct (lodash_set_other r n idf (lodash_get (VObj doc) (VStr n))
                  E Hseg) as (r' & Er & Eg).
      exists r'. rewrite Eg. tauto.
Qed.

Lemma filter_fold_identity (doc : obj) (idf : string) (names : list string) :
  str_contains "." idf = false -> guarded_key idf = false ->
  Forall (fun s => dotted s /\ (s = idf \/ first_segment s <> idf)) names ->
  forall r : obj,
    obj_get r idf = VUndef \/ obj_get r idf = obj_get doc idf ->
    obj_get r idf = obj_get doc idf \/ In idf names ->
    exists r',
      fold_left
        (fun res n =>
           let v := lodash_get (VObj doc) n in
           if strict_eq v VUndef then res else lodash_set res n v)
        (map VStr names) (VObj r)
      = VObj r' /\
      obj_get r' idf = obj_get doc idf.
Proof.
  intros Hplain Hguard Hall.
  induction Hall as [|n names [_ Hn] _ IH]; intros r HJ HK.
  - exists r. cbn. split; [reflexivity|]. destruct HK as [HK|[]]. exact HK.
  - destruct (filter_step_identity doc r idf n Hplain Hguard Hn HJ)
      as (r1 & E1 & J1 & K1 & K1').
    cbn [map fold_left]. cbv zeta in E1. rewrite E1.
    apply IH; [exact J1|].
    destruct HK as [HK|[HK|HK]]; [left; tauto|left; auto|right; exact HK].
Qed.

(** The filter stage keeps the identity under a field list that keeps it. *)
Lemma filterFields_identity (doc : obj) (idf : string) (fields_auth : value) :
  own_name idf ->
  fields_keep idf fields_auth ->
  member_or_undef (filterFields (VObj doc) fields_auth) idf
  = obj_get doc idf.
Proof.
  intros ((Hplain & _) & _ & Hguard) Hk.
  destruct fields_auth as [| | | | |ns|]; try reflexivity.
  destruct Hk as (names & -> & Hin & Hall).
  destruct (filter_fold_identity doc idf names Hplain Hguard Hall [])
    as (r' & E & G); [now left|now right|].
  unfold filterFields. cbv zeta in E |- *. rewrite E. exact G.
Qed.

(** The encoding stage puts the encoded identity under the identity
    field. *)
Lemma encode_ids_identity (docs : list obj) :
  map (fun d => obj_get d (idField (settings this))) (encode_ids this docs)
  = map (fun d => encodeID this (obj_get d (idField (settings this)))) docs.
Proof.
  unfold encode_ids. rewrite map_map. apply map_ext. intros d.
  apply get_set_same.
Qed.

(** A population that spares the identity field leaves it as it is. *)
Lemma populateDocs_spares (docs docs' : list obj) (populate : value)
      (w w' : world Ext) :
  population_spares this populate (idField (settings this)) ->
  populateDocs this ctx docs populate w = (w', Ok docs') ->
  map (fun d => obj_get d (idField (settings this))) docs'
  = map (fun d => obj_get d (idField (settings this))) docs.
Proof.
  unfold population_spares. intros Hs H.
  destruct (populates (settings this)) as [rules|] eqn:Ep.
  - destruct populate as [| | | | |pf|];
      try (unfold populateDocs in H; rewrite Ep in H; inversion H;
           reflexivity).
    destruct Hs as [Hr Hnot].
    destruct (populateDocs_remote Ext ctx this docs pf rules w w' _ Ep Hr H)
      as (pend & _ & F & S).
    symmetry in S. apply (settle_other _ _ _ _ S). rewrite F.
    intros Hin. apply Hnot. apply in_map_iff in Hin.
    destruct Hin as (fr & E & Hin). apply filter_In in Hin.
    apply in_map_iff. exists fr. tauto.
  - unfold populateDocs in H. rewrite Ep in H. now inversion H.
Qed.

End IdentityProperties.




(* ================================================================== *)
(** * Further properties *)
(* ================================================================== *)

(** ** More on objects as association lists *)

Lemma obj_set_fresh (m : obj) (k : string) (v : value) :
  lookup m k = None -> obj_set m k v = m ++ [(k, v)].
Proof.
  induction m as [|[k0 v0] m IH]; cbn; [reflexivity|].
  destruct (String.eqb k0 k); [discriminate|].
  intros H. now rewrite IH.
Qed.

Lemma obj_set_same_value (m : obj) (k : string) (v : value) :
  lookup m k = Some v -> obj_set m k v = m.
Proof.
  induction m as [|[k0 v0] m IH]; cbn; [discriminate|].
  destruct (String.eqb k0 k) eqn:E.
  - apply String.eqb_eq in E. subst k0. intros H. now inversion H.
  - intros H. now rewrite IH.
Qed.

Lemma obj_set_twice (m : obj) (k : string) (a b : value) :
  obj_set (obj_set m k a) k b = obj_set m k b.
Proof.
  induction m as [|[k0 v0] m IH]; cbn.
  - now rewrite String.eqb_refl.
  - destruct (String.eqb k0 k) eqn:E; cbn.
    + now rewrite String.eqb_refl.
    + now rewrite E, IH.
Qed.

Lemma lookup_of_get (m : obj) (k : string) :
  has_key m k = true -> lookup m k = Some (obj_get m k).
Proof.
  unfold has_key, obj_get. now destruct (lookup m k).
Qed.

Lemma lookup_app_fresh (m : obj) (k : string) (v : value) (r : obj) :
  lookup m k = None -> lookup (m ++ (k, v) :: r) k = Some v.
Proof.
  induction m as [|[k0 v0] m IH]; cbn.
  - now rewrite String.eqb_refl.
  - destruct (String.eqb k0 k); [discriminate|exact IH].
Qed.

(** Copying an object with distinct keys gives the object back, entry by
    entry and in order. *)
Lemma fold_set_copy (entries acc : obj) :
  NoDup (obj_keys (acc ++ entries)) ->
  fold_left (fun a kv => obj_set a (fst kv) (snd kv)) entries acc
  = acc ++ entries.
Proof.
  revert acc. induction entries as [|[k v] entries IH]; intros acc H; cbn.
  - now rewrite app_nil_r.
  - rewrite obj_set_fresh.
    + rewrite IH; rewrite <- app_assoc; [reflexivity|exact H].
    + apply lookup_absent. unfold obj_keys in *. rewrite map_app in H.
      cbn in H. apply NoDup_remove_2 in H. intros Hin. apply H.
      apply in_or_app. now left.
Qed.

Lemma Object_assign_copy (m : obj) :
  NoDup (obj_keys m) -> Object_assign [] (VObj m) = m.
Proof. intros H. unfold Object_assign. cbn. now apply fold_set_copy. Qed.

Section SanitizerAgain.

Variable N : string -> num.
Variable Ext : Type.
Variable this : Service Ext.

Lemma number_field_typed_id (k : string) (p : obj) :
  typed_at p k -> number_field N k p = p.
Proof.
  unfold typed_at, number_field. destruct (prop p k); try reflexivity.
  discriminate.
Qed.

Lemma list_field_typed_id (k : string) (p : obj) :
  typed_at p k -> list_field k p = p.
Proof.
  unfold typed_at, list_field. destruct (prop p k); try reflexivity.
  discriminate.
Qed.

(** On parameters that hold no string under the coerced keys, the copy and
    the conversions give the parameters back. *)
Lemma coerced_typed (p : obj) :
  NoDup (obj_keys p) -> Forall (typed_at p) coerced_params ->
  coerced N (VObj p) = p.
Proof.
  intros Hnd Ht. unfold coerced. cbv zeta.
  rewrite Object_assign_copy by exact Hnd.
  unfold coerced_params in Ht.
  repeat match goal with
         | H : Forall _ (_ :: _) |- _ => inversion H; subst; clear H
         end.
  rewrite (number_field_typed_id "limit" p) by assumption.
  rewrite (number_field_typed_id "offset" p) by assumption.
  rewrite (number_field_typed_id "page" p) by assumption.
  rewrite (number_field_typed_id "pageSize" p) by assumption.
  rewrite (list_field_typed_id "sort" p) by assumption.
  rewrite (list_field_typed_id "fields" p) by assumption.
  rewrite (list_field_typed_id "populate" p) by assumption.
  now rewrite (list_field_typed_id "searchFields" p) by assumption.
Qed.

Lemma has_key_truthy (p : obj) (k : string) :
  js_truthy (prop p k) = true -> has_key p k = true.
Proof.
  unfold prop, obj_get, has_key. now destruct (lookup p k).
Qed.

Lemma has_key_if (b : bool) (x y : obj) (k : string) :
  has_key (if b then x else y) k = if b then has_key x k else has_key y k.
Proof. now destruct b. Qed.

Lemma has_key_set_keep (m : obj) (k k' : string) (v : value) :
  has_key m k' = true -> has_key (obj_set m k v) k' = true.
Proof. intros H. rewrite has_key_set, H. apply orb_true_r. Qed.

Lemma has_key_set_new (m : obj) (k : string) (v : value) :
  has_key (obj_set m k v) k = true.
Proof. rewrite has_key_set. now rewrite String.eqb_refl. Qed.

(** After [paginate] the four pagination parameters are there. *)
Lemma paginate_has_keys (p : obj) (k : string) :
  In k ["pageSize"; "page"; "limit"; "offset"] ->
  has_key (paginated N this p) k = true.
Proof.
  intros Hk. unfold paginated. cbv zeta.
  set (p1 := if js_truthy (prop p "pageSize") then p else _).
  set (p2 := if js_truthy (prop p1 "page") then p1 else _).
  set (p3 := if _ && _ then _ else p2).
  assert (K1 : has_key p1 "pageSize" = true).
  { unfold p1. destruct (js_truthy (prop p "pageSize")) eqn:E.
    - now apply has_key_truthy.
    - apply has_key_set_new. }
  assert (K2 : has_key p2 "pageSize" = true /\ has_key p2 "page" = true).
  { unfold p2. destruct (js_truthy (prop p1 "page")) eqn:E.
    - split; [exact K1|now apply has_key_truthy].
    - split; [now apply has_key_set_keep|apply has_key_set_new]. }
  assert (K3 : has_key p3 "pageSize" = true /\ has_key p3 "page" = true).
  { unfold p3. destruct (_ && _); [|exact K2].
    split; [apply has_key_set_new|now apply has_key_set_keep]. }
  cbn in Hk. destruct Hk as [<-|[<-|[<-|[<-|[]]]]].
  - now do 2 apply has_key_set_keep.
  - now do 2 apply has_key_set_keep.
  - apply has_key_set_keep. apply has_key_set_new.
  - apply has_key_set_new.
Qed.

Lemma not_above_itself (z : Z) : gt_prim N (VInt z) (Fin z) = false.
Proof. unfold gt_prim. cbn. apply Z.ltb_irrefl. Qed.

(** The page size that [paginate] settles on is not clamped again. *)
Lemma paginate_size_stable (p : obj) :
  let st := settings this in
  let size := prop (paginated N this p) "pageSize" in
  (0 <? maxPageSize st)%Z && gt_prim N size (Fin (maxPageSize st)) = false /\
  (js_truthy size = false -> size = VInt (pageSize st)) /\
  js_truthy (prop (paginated N this p) "page") = true.
Proof.
  cbv zeta. destruct (paginate_spec N Ext this p) as (Hs & Hp & _ & _).
  cbv zeta in Hs, Hp. rewrite Hs, Hp. clear Hs Hp.
  destruct (js_truthy (prop p "pageSize")) eqn:E1.
  - split; [|split].
    + destruct ((0 <? maxPageSize (settings this))%Z
                && gt_prim N (prop p "pageSize")
                         (Fin (maxPageSize (settings this))))
        eqn:E; [|exact E].
      rewrite not_above_itself. apply andb_false_r.
    + destruct (_ && _) eqn:E.
      * apply andb_true_iff in E. destruct E as [E _]. apply Z.ltb_lt in E.
        cbn. intros H. apply negb_false_iff in H. apply Z.eqb_eq in H. lia.
      * congruence.
    + now destruct (js_truthy (prop p "page")) eqn:E2.
  - split; [|split].
    + destruct ((0 <? maxPageSize (settings this))%Z
                && gt_prim N (VInt (pageSize (settings this)))
                         (Fin (maxPageSize (settings this))))
        eqn:E; [|exact E].
      rewrite not_above_itself. apply andb_false_r.
    + destruct (_ && _) eqn:E; [|reflexivity].
      apply andb_true_iff in E. destruct E as [E _]. apply Z.ltb_lt in E.
      cbn. intros H. apply negb_false_iff in H. apply Z.eqb_eq in H. lia.
    + now destruct (js_truthy (prop p "page")) eqn:E2.
Qed.

Lemma limit_the_limit_lookup (p : obj) (k : string) (v : value) :
  "limit" <> k -> lookup p k = Some v ->
  lookup (limited N this p) k = Some v.
Proof.
  intros Hk H. unfold limited.
  destruct (_ && _); [|exact H]. now rewrite lookup_set_other.
Qed.

(** Clamping a clamped limit changes nothing. *)
Lemma limit_the_limit_twice (p : obj) :
  has_key p "limit" = true ->
  limited N this
    (obj_set (limited N this p) "limit" (prop p "limit"))
  = limited N this p.
Proof.
  intros Hk. unfold limited at 1 3. unfold prop at 1.
  rewrite get_set_same. fold (prop p "limit").
  unfold limited.
  destruct ((0 <? maxLimit (settings this))%Z
            && gt_prim N (prop p "limit") (Fin (maxLimit (settings this))))
    eqn:E.
  - now rewrite !obj_set_twice.
  - apply obj_set_same_value. now apply lookup_of_get.
Qed.

Lemma limit_the_limit_idem (p : obj) :
  limited N this (limited N this p) = limited N this p.
Proof.
  unfold limited at 2 3.
  destruct ((0 <? maxLimit (settings this))%Z
            && gt_prim N (prop p "limit") (Fin (maxLimit (settings this))))
    eqn:E.
  - unfold limited, prop. rewrite get_set_same.
    now rewrite not_above_itself, andb_false_r.
  - unfold limited. now rewrite E.
Qed.

Lemma paginate_sanitized (c : obj) :
  let p := limited N this (paginated N this c) in
  paginated N this p
  = obj_set p "limit" (prop (paginated N this c) "limit").
Proof.
  cbv zeta. set (P := paginated N this c). set (p := limited N this P).
  destruct (paginate_size_stable c) as (Hclamp & Hfalsy & Hpage).
  cbv zeta in Hclamp, Hfalsy. fold P in Hclamp, Hfalsy, Hpage.
  destruct (paginate_spec N Ext this c) as (Hs & Hg & Hl & Ho).
  cbv zeta in Hs, Hg, Hl, Ho. fold P in Hs, Hg, Hl, Ho.
  assert (Es : prop p "pageSize" = prop P "pageSize")
    by (apply limit_the_limit_other; discriminate).
  assert (Eg : prop p "page" = prop P "page")
    by (apply limit_the_limit_other; discriminate).
  assert (Ks : lookup p "pageSize" = Some (prop P "pageSize")).
  { apply limit_the_limit_lookup; [discriminate|]. apply lookup_of_get.
    apply paginate_has_keys. cbn. tauto. }
  assert (Ko : lookup p "offset" = Some (prop P "offset")).
  { apply limit_the_limit_lookup; [discriminate|]. apply lookup_of_get.
    apply paginate_has_keys. cbn. tauto. }
  unfold paginated at 1. cbv zeta.
  assert (S1 : (if js_truthy (prop p "pageSize") then p
                else obj_set p "pageSize" (VInt (pageSize (settings this))))
               = p).
  { rewrite Es. destruct (js_truthy (prop P "pageSize")) eqn:E; [reflexivity|].
    apply obj_set_same_value. rewrite Ks. f_equal. now apply Hfalsy. }
  rewrite S1. rewrite Eg, Hpage. rewrite Es, Hclamp.
  unfold prop in *. rewrite !get_set_other by discriminate.
  rewrite Eg, Es.
  assert (Eo : mul_prim N (sub_prim N (obj_get P "page") (VInt 1))
                     (obj_get P "pageSize")
               = obj_get P "offset").
  { rewrite Ho, Hg, Hs. reflexivity. }
  rewrite Eo. rewrite (obj_set_same_value (obj_set p "limit" _) "offset").
  - f_equal. rewrite Hl, Hs. reflexivity.
  - rewrite lookup_set_other by discriminate. exact Ko.
Qed.

(** The page and the page size that [paginate] settles on have a primitive
    value when those it started from have one. *)
Lemma paginated_primitive (c : obj) :
  has_primitive (prop c "pageSize") = true ->
  has_primitive (prop c "page") = true ->
  has_primitive (prop (paginated N this c) "pageSize") = true /\
  has_primitive (prop (paginated N this c) "page") = true.
Proof.
  intros Hs Hg. destruct (paginate_spec N Ext this c) as (Es & Eg & _ & _).
  cbv zeta in Es, Eg. rewrite Es, Eg. split.
  - destruct (_ && _); [reflexivity|].
    destruct (js_truthy (prop c "pageSize")); [exact Hs|reflexivity].
  - destruct (js_truthy (prop c "page")); [exact Hg|reflexivity].
Qed.

Lemma limited_primitive (c : obj) :
  has_primitive (prop c "limit") = true ->
  has_primitive (prop (limited N this c) "limit") = true.
Proof.
  intros H. rewrite limit_the_limit_spec. unfold spec_limit.
  destruct (_ && _); [reflexivity|exact H].
Qed.


End SanitizerAgain.

(** ** Splitting and joining *)

Lemma join_cons (sep p : string) (q : string) (ps : list string) :
  join sep (p :: q :: ps) = (p ++ sep ++ join sep (q :: ps))%string.
Proof. reflexivity. Qed.

(** Joining the pieces of a split with the separator gives the string
    back. *)
Lemma join_split_on (sep : ascii) (s : string) :
  join (String sep EmptyString) (split_on sep s) = s.
Proof.
  induction s as [|c r IH]; [reflexivity|].
  cbn [split_on]. destruct (split_on_cons sep r) as (k & rest & E).
  rewrite E in *. destruct (Ascii.eqb c sep) eqn:Ec.
  - apply Ascii.eqb_eq in Ec. subst c. rewrite join_cons, IH. reflexivity.
  - destruct rest as [|q rest].
    + cbn in IH |- *. now rewrite IH.
    + rewrite join_cons in IH. rewrite join_cons.
      cbn [String.append] in IH |- *. now rewrite IH.
Qed.

Lemma split_on_chars (sep : ascii) (s x : string) (c : ascii) :
  In x (split_on sep s) -> In c (list_ascii_of_string x) ->
  In c (list_ascii_of_string s) /\ c <> sep.
Proof.
  revert x. induction s as [|a r IH]; intros x Hx Hc.
  - destruct Hx as [<-|[]]. contradiction.
  - cbn [split_on] in Hx. destruct (Ascii.eqb a sep) eqn:Ea.
    + destruct Hx as [<-|Hx]; [contradiction|].
      destruct (IH x Hx Hc) as [H1 H2]. split; [now right|exact H2].
    + destruct (split_on sep r) as [|p ps] eqn:E.
      * destruct Hx as [<-|[]]. destruct Hc as [<-|[]].
        split; [now left|]. now apply Ascii.eqb_neq.
      * destruct Hx as [<-|Hx].
        -- destruct Hc as [<-|Hc].
           ++ split; [now left|]. now apply Ascii.eqb_neq.
           ++ destruct (IH p (or_introl eq_refl) Hc) as [H1 H2].
              split; [now right|exact H2].
        -- destruct (IH x (or_intror Hx) Hc) as [H1 H2].
           split; [now right|exact H2].
Qed.

Lemma replace_commas_chars (s : string) (c : ascii) :
  In c (list_ascii_of_string (replace_commas s)) -> c <> ","%char.
Proof.
  induction s as [|a r IH]; cbn; [tauto|].
  intros [<-|H]; [|now apply IH].
  destruct (Ascii.eqb a ",") eqn:E; [discriminate|].
  now apply Ascii.eqb_neq.
Qed.

Section SanitizerLists.

Variable N : string -> num.
Variable Ext : Type.
Variable this : Service Ext.

Lemma sanitized_list_key (ctx : Context Ext) (params : value) (p : obj)
      (k : string) :
  sanitizeParams N this ctx params = Ok p ->
  In k ["sort"; "fields"; "populate"; "searchFields"] ->
  prop p k = prop (coerced N params) k.
Proof.
  intros H Hk.
  destruct (sanitizeParams_inv N Ext this ctx params p H)
    as (name & _ & -> & _).
  rewrite (limit_the_limit_other N Ext this)
    by (intros <-; cbn in Hk; intuition discriminate).
  destruct (endsWith name ".list"); [|reflexivity].
  apply paginate_other. cbn in Hk |- *. intuition (subst; discriminate).
Qed.



End SanitizerLists.

(** ** Parents of a dotted path *)

Lemma prefix_append (a b : string) : String.prefix a (a ++ b) = true.
Proof.
  induction a as [|c a IH]; cbn; [now destruct b|].
  destruct (ascii_dec c c); [exact IH|contradiction].
Qed.

Lemma prefix_split (a s : string) :
  String.prefix a s = true -> exists b, s = (a ++ b)%string.
Proof.
  revert s. induction a as [|c a IH]; intros s H.
  - now exists s.
  - destruct s as [|d s]; cbn in H; [discriminate|].
    destruct (ascii_dec c d) as [<-|]; [|discriminate].
    destruct (IH s H) as (b & ->). now exists b.
Qed.

Lemma append_assoc (a b c : string) :
  ((a ++ b) ++ c = a ++ b ++ c)%string.
Proof. induction a as [|x a IH]; cbn; [reflexivity|now rewrite IH]. Qed.

Lemma join_app (sep : string) (pre rest : list string) :
  pre <> [] -> rest <> [] ->
  join sep (pre ++ rest) = (join sep pre ++ sep ++ join sep rest)%string.
Proof.
  intros Hp Hr. induction pre as [|p pre IH]; [contradiction|].
  destruct pre as [|q pre].
  - destruct rest as [|r rest]; [contradiction|]. reflexivity.
  - change ((p :: q :: pre) ++ rest) with (p :: q :: (pre ++ rest)).
    rewrite !join_cons. change (q :: pre ++ rest) with ((q :: pre) ++ rest).
    rewrite IH by discriminate. now rewrite !append_assoc.
Qed.

Lemma proper_prefixes_in (parts pre : list string) :
  In pre (proper_prefixes parts) ->
  pre <> [] /\ exists rest, rest <> [] /\ parts = pre ++ rest.
Proof.
  revert pre. induction parts as [|a parts IH]; intros pre H; [contradiction|].
  destruct parts as [|b parts]; [contradiction|].
  change (proper_prefixes (a :: b :: parts))
    with ([a] :: map (cons a) (proper_prefixes (b :: parts))) in H.
  destruct H as [<-|H].
  - split; [discriminate|]. exists (b :: parts).
    split; [discriminate|reflexivity].
  - apply in_map_iff in H. destruct H as (q & <- & Hq).
    destruct (IH q Hq) as (_ & rest & Hr & E).
    split; [discriminate|]. exists rest. split; [exact Hr|]. cbn. now rewrite E.
Qed.

Lemma proper_prefixes_app (pre rest : list string) :
  pre <> [] -> rest <> [] -> In pre (proper_prefixes (pre ++ rest)).
Proof.
  intros Hp Hr. induction pre as [|a pre IH]; [contradiction|].
  destruct pre as [|b pre].
  - destruct rest as [|r rest]; [contradiction|]. now left.
  - change ((a :: b :: pre) ++ rest) with (a :: b :: (pre ++ rest)).
    change (proper_prefixes (a :: b :: pre ++ rest))
      with ([a] :: map (cons a) (proper_prefixes ((b :: pre) ++ rest))).
    right. apply in_map. apply IH. discriminate.
Qed.

Lemma split_on_append (sep : ascii) (a b : string) :
  split_on sep (a ++ String sep b)
  = split_on sep a ++ split_on sep b.
Proof.
  induction a as [|c a IH]; cbn [String.append split_on].
  - now rewrite Ascii.eqb_refl.
  - rewrite IH. destruct (Ascii.eqb c sep); [reflexivity|].
    destruct (split_on_cons sep a) as (k & rest & E). now rewrite E.
Qed.

(** A field has an allowed parent exactly when an entry of the allow-list,
    followed by a dot, starts it. *)
Lemma has_allowed_parent_prefix (allow : list string) (f : string) :
  has_allowed_parent allow f = true
  <-> exists parent, In parent allow
                     /\ String.prefix (parent ++ ".") f = true.
Proof.
  unfold has_allowed_parent, allowed. rewrite existsb_exists. split.
  - intros (pre & Hpre & Ha). apply existsb_exists in Ha.
    destruct Ha as (a & Ha & E). apply String.eqb_eq in E. subst a.
    exists (join "." pre). split; [exact Ha|].
    destruct (proper_prefixes_in _ _ Hpre) as (Hne & rest & Hr & E).
    rewrite <- (join_split_on "." f) at 1. rewrite E.
    rewrite join_app by assumption. rewrite <- append_assoc.
    apply prefix_append.
  - intros (parent & Hin & Hp). apply prefix_split in Hp.
    destruct Hp as (b & ->). rewrite append_assoc. cbn [String.append].
    rewrite split_on_append.
    exists (split_on "." parent). split.
    + apply proper_prefixes_app.
      * destruct (split_on_cons "." parent) as (k & r & E). rewrite E.
        discriminate.
      * destruct (split_on_cons "." b) as (k & r & E). rewrite E.
        discriminate.
    + apply existsb_exists. exists parent. split; [exact Hin|].
      rewrite join_split_on. apply String.eqb_refl.
Qed.

Lemma array_includes_string (allow : list string) (f : value) :
  array_includes (map VStr allow) f = true ->
  exists s, f = VStr s /\ In s allow.
Proof.
  unfold array_includes. rewrite existsb_exists.
  intros (y & Hy & E). apply in_map_iff in Hy. destruct Hy as (a & <- & Ha).
  destruct f; try discriminate. cbn in E. apply String.eqb_eq in E. subst.
  now exists s.
Qed.

Section Authorizer.

Variable Ext : Type.
Variable this : Service Ext.

Lemma authorize_one_within (allow : list string) (fs res res' : list value)
      (f : value) :
  In f fs ->
  Forall (authorized allow fs) res ->
  authorize_one allow res f = Ok res' ->
  Forall (authorized allow fs) res'.
Proof.
  intros Hf Hres. unfold authorize_one.
  destruct (array_includes (map VStr allow) f) eqn:Ea.
  - intros H. inversion H; subst. apply Forall_app. split; [exact Hres|].
    constructor; [|constructor].
    destruct (array_includes_string allow f Ea) as (s & -> & Hs).
    exists s. tauto.
  - destruct (call_has_dot f) as [dotted|] eqn:Ed; [|discriminate].
    cbn [rbind]. intros H.
    assert (Hn : Forall (authorized allow fs)
                        (map VStr (nestedFields allow f))).
    { apply Forall_forall. intros g Hg. apply in_map_iff in Hg.
      destruct Hg as (s & <- & Hs). exists s. split; [reflexivity|]. left.
      unfold nestedFields in Hs. now apply filter_In in Hs. }
    destruct dotted.
    + destruct (call_split_dot f) as [parts|] eqn:Es; [|discriminate].
      cbn [rbind] in H.
      destruct (call_nestedFields allow f) as [nested|] eqn:En;
        [|discriminate].
      apply call_nestedFields_ok in En. subst nested.
      cbn [rbind] in H. inversion H; subst. clear H.
      apply Forall_app. split; [|exact Hn].
      destruct (parent_allowed allow (length parts) parts) eqn:Ep;
        [|exact Hres].
      apply Forall_app. split; [exact Hres|]. constructor; [|constructor].
      destruct f; try discriminate. cbn in Es. inversion Es; subst parts.
      exists s. split; [reflexivity|]. right. split; [exact Hf|].
      apply has_allowed_parent_prefix. unfold has_allowed_parent.
      rewrite <- (parent_allowed_spec allow (length (split_on "." s))) by lia.
      exact Ep.
    + cbn [rbind] in H.
      destruct (call_nestedFields allow f) as [nested|] eqn:En;
        [|discriminate].
      apply call_nestedFields_ok in En. subst nested.
      cbn [rbind] in H. inversion H; subst.
      apply Forall_app. now split.
Qed.

Lemma authorize_each_within (allow : list string) (fs : list value) :
  forall (todo res res' : list value),
    incl todo fs ->
    Forall (authorized allow fs) res ->
    authorize_each allow res todo = Ok res' ->
    Forall (authorized allow fs) res'.
Proof.
  induction todo as [|f todo IH]; intros res res' Hi Hres H; cbn in H.
  - now inversion H; subst.
  - destruct (authorize_one allow res f) as [res1|] eqn:E1; [|discriminate].
    cbn [rbind] in H. apply (IH res1 res'); [| |exact H].
    + intros x Hx. apply Hi. now right.
    + eapply authorize_one_within; eauto. apply Hi. now left.
Qed.

(** X4.  The authorizer grants nothing beyond the allow-list.  Under a
    configured allow-list that is not empty, every field in the answer of
    [authorizeFields] is a string that is either an entry of the allow-list
    or one of the requested fields lying below an entry of the allow-list
    (the entry followed by a dot starts it). *)
Theorem authorizeFields_within_allow_list :
  forall (allow : list string) (fs granted : list value),
    fields (settings this) = Some allow -> allow <> [] ->
    authorizeFields this (VArr fs) = Ok (VArr granted) ->
    Forall (authorized allow fs) granted.
Proof.
  intros allow fs granted Hf Hne H. unfold authorizeFields in H.
  rewrite Hf in H. destruct allow as [|a allow]; [contradiction|].
  destruct (authorize_each (a :: allow) [] fs) as [res|] eqn:E;
    [|discriminate].
  cbn [rbind] in H. inversion H; subst.
  apply (authorize_each_within (a :: allow) fs fs [] granted);
    [apply incl_refl|constructor|exact E].
Qed.

Lemma authorize_one_string (allow : list string) (res : list value)
      (f : string) :
  exists res',
    authorize_one allow res (VStr f) = Ok (res ++ res') /\
    (allowed allow f || has_allowed_parent allow f = true ->
     In (VStr f) res').
Proof.
  unfold authorize_one. rewrite call_nestedFields_string.
  rewrite array_includes_strings.
  destruct (allowed allow f) eqn:Ea.
  - exists [VStr f]. split; [reflexivity|]. intros _. now left.
  - cbn [call_has_dot rbind orb].
    destruct (str_contains "." f) eqn:Ed.
    + cbn [call_split_dot rbind].
      rewrite parent_allowed_spec by lia.
      fold (has_allowed_parent allow f).
      destruct (has_allowed_parent allow f).
      * exists (VStr f :: map VStr (nestedFields allow (VStr f))).
        split; [now rewrite <- app_assoc|]. intros _. now left.
      * eexists. split; [reflexivity|]. discriminate.
    + cbn [rbind]. eexists. split; [reflexivity|].
      unfold has_allowed_parent. rewrite (split_on_plain f Ed). cbn.
      discriminate.
Qed.

Lemma authorize_each_strings (allow : list string) (fs : list string) :
  forall res,
    exists res',
      authorize_each allow res (map VStr fs) = Ok (res ++ res') /\
      forall f, In f fs ->
        allowed allow f || has_allowed_parent allow f = true ->
        In (VStr f) res'.
Proof.
  induction fs as [|f fs IH]; intros res; cbn [map authorize_each].
  - exists []. rewrite app_nil_r. split; [reflexivity|]. intros f [].
  - destruct (authorize_one_string allow res f) as (r1 & E1 & H1).
    rewrite E1. cbn [rbind].
    destruct (IH (res ++ r1)) as (r2 & E2 & H2).
    exists (r1 ++ r2). rewrite E2, app_assoc. split; [reflexivity|].
    intros g [<-|Hg] Hok; apply in_or_app; [left|right]; auto.
Qed.

(** X5.  The authorizer answers every request of field names and grants
    what is allowed.  Under a configured allow-list that is not empty, a
    request that is a list of strings never fails, and a requested field
    is in the answer whenever it is an entry of the allow-list or lies
    below one (the entry followed by a dot starts it). *)
Theorem authorizeFields_grants_allowed :
  forall (allow fs : list string),
    fields (settings this) = Some allow -> allow <> [] ->
    exists granted,
      authorizeFields this (VArr (map VStr fs)) = Ok (VArr granted) /\
      forall f, In f fs ->
        (In f allow \/
         exists parent, In parent allow
                        /\ String.prefix (parent ++ ".") f = true) ->
        In (VStr f) granted.
Proof.
  intros allow fs Hf Hne. unfold authorizeFields. rewrite Hf.
  destruct allow as [|a allow]; [contradiction|].
  destruct (authorize_each_strings (a :: allow) fs []) as (g & E & H).
  rewrite E. cbn [rbind app]. exists g. split; [reflexivity|].
  intros f Hin Hok. apply H; [exact Hin|].
  apply orb_true_iff. destruct Hok as [Hok|Hok].
  - left. unfold allowed. apply existsb_exists. exists f.
    split; [exact Hok|apply String.eqb_refl].
  - right. now apply has_allowed_parent_prefix.
Qed.

End Authorizer.

(** ** The field filter *)

Lemma obj_set_keys_incl (r : obj) (k k' : string) (x : value) :
  In k' (obj_keys (obj_set r k x)) -> k' = k \/ In k' (obj_keys r).
Proof.
  unfold obj_keys. induction r as [|[k0 v0] r IH]; cbn.
  - intros [<-|[]]. now left.
  - destruct (String.eqb k0 k) eqn:E; cbn.
    + apply String.eqb_eq in E. subst k0. tauto.
    + intros [<-|H]; [tauto|]. destruct (IH H); tauto.
Qed.

Lemma has_key_in (r : obj) (k : string) :
  has_key r k = true -> In k (obj_keys r).
Proof.
  unfold has_key, obj_keys. induction r as [|[k0 v0] r IH]; cbn;
    [discriminate|].
  destruct (String.eqb k0 k) eqn:E.
  - apply String.eqb_eq in E. now left.
  - intros H. right. now apply IH.
Qed.

(** Setting a path adds at most its first segment to the top level. *)
Lemma lodash_set_keys (r : obj) (n : string) (v : value) :
  exists r',
    lodash_set (VObj r) (VStr n) v = VObj r' /\
    forall k, In k (obj_keys r') -> k = first_segment n \/ In k (obj_keys r).
Proof.
  unfold lodash_set. cbn [isObject]. unfold castPath.
  cbn [has_property]. destruct (has_key r n) eqn:Ek.
  - cbn [baseSet assignValue]. destruct (guarded_key n).
    + exists r. split; [reflexivity|]. intros k Hk. now right.
    + eexists. split; [reflexivity|].
      intros k Hk. apply obj_set_keys_incl in Hk. destruct Hk as [->|Hk].
      * right. now apply has_key_in.
      * now right.
  - destruct (split_on_cons "." n) as (k0 & rest & E).
    unfold first_segment. rewrite E. cbn [hd].
    destruct (baseSet_head r k0 rest v) as [Ex|(x & Ex)]; rewrite Ex.
    + exists r. split; [reflexivity|]. intros k Hk. now right.
    + eexists. split; [reflexivity|].
      intros k Hk. apply obj_set_keys_incl in Hk. tauto.
Qed.

Lemma filterFields_keys (doc : value) (names : list string) :
  exists r,
    filterFields doc (VArr (map VStr names)) = VObj r /\
    Forall (fun k => In k (map first_segment names)) (obj_keys r).
Proof.
  unfold filterFields.
  assert (G : forall (done : list string) (r : obj),
    Forall (fun k => In k (map first_segment done)) (obj_keys r) ->
    exists r',
      fold_left
        (fun res n =>
           let v := lodash_get doc n in
           if strict_eq v VUndef then res else lodash_set res n v)
        (map VStr names) (VObj r)
      = VObj r' /\
      Forall (fun k => In k (map first_segment (done ++ names)))
             (obj_keys r')).
  { induction names as [|n names IH]; intros done r Hr.
    - exists r. rewrite app_nil_r. now split.
    - cbn [map fold_left]. cbv zeta.
      assert (E : done ++ n :: names = (done ++ [n]) ++ names)
        by now rewrite <- app_assoc.
      rewrite E.
      destruct (strict_eq (lodash_get doc (VStr n)) VUndef).
      + apply IH. eapply Forall_impl; [|exact Hr].
        intros k Hk. rewrite map_app. apply in_or_app. now left.
      + destruct (lodash_set_keys r n (lodash_get doc (VStr n)))
          as (r1 & E1 & K1).
        rewrite E1. apply IH. apply Forall_forall. intros k Hk.
        rewrite map_app. apply in_or_app.
        destruct (K1 k Hk) as [->|Hk'].
        * right. now left.
        * left. rewrite Forall_forall in Hr. now apply Hr. }
  destruct (G [] []) as (r & E & K); [constructor|].
  exists r. now split.
Qed.

Lemma first_segment_below (parent s : string) :
  String.prefix (parent ++ ".") s = true ->
  first_segment s = first_segment parent.
Proof.
  intros H. apply prefix_split in H. destruct H as (b & ->).
  unfold first_segment. rewrite append_assoc. cbn [String.append].
  rewrite split_on_append.
  destruct (split_on_cons "." parent) as (k & r & E). now rewrite E.
Qed.

Section FieldHiding.

Variable Ext : Type.
Variable this : Service Ext.
Variable ctx : Context Ext.

Lemma authorized_strings (allow : list string) (fs granted : list value) :
  Forall (authorized allow fs) granted ->
  exists names,
    granted = map VStr names /\
    Forall (fun n => In (first_segment n) (map first_segment allow)) names.
Proof.
  induction 1 as [|g granted (s & -> & Hs) _ (names & -> & Hn)].
  - now exists [].
  - exists (s :: names). split; [reflexivity|]. constructor; [|exact Hn].
    destruct Hs as [Hs|(_ & parent & Hp & Hpre)].
    + now apply in_map.
    + rewrite (first_segment_below parent s Hpre). now apply in_map.
Qed.

Lemma authorizeFields_names (allow : list string) (requested auth : value) :
  fields (settings this) = Some allow -> allow <> [] ->
  authorizeFields this requested = Ok auth ->
  exists names,
    auth = VArr (map VStr names) /\
    Forall (fun n => In (first_segment n) (map first_segment allow)) names.
Proof.
  intros Hf Hne H.
  destruct requested as [| | | | |fs|];
    try (unfold authorizeFields in H; rewrite Hf in H;
         destruct allow; [contradiction|]; inversion H; subst;
         exists []; split; [reflexivity|constructor]).
  assert (H' := H). unfold authorizeFields in H'. rewrite Hf in H'.
  destruct allow as [|a allow]; [contradiction|].
  destruct (authorize_each (a :: allow) [] fs) as [granted|] eqn:E;
    [|discriminate].
  cbn [rbind] in H'. inversion H'; subst auth.
  destruct (authorized_strings (a :: allow) fs granted) as (names & -> & Hn).
  { apply (authorize_each_within (a :: allow) fs fs [] granted);
      [apply incl_refl|constructor|exact E]. }
  now exists names.
Qed.

Lemma filterFields_exposes (allow names : list string) (item : value) :
  Forall (fun n => In (first_segment n) (map first_segment allow)) names ->
  exposes_only allow (filterFields item (VArr (map VStr names))).
Proof.
  intros Hn. destruct (filterFields_keys item names) as (r & E & K).
  exists r. split; [exact E|].
  eapply Forall_impl; [|exact K]. intros k Hk. cbn in Hk.
  apply in_map_iff in Hk. destruct Hk as (n & <- & Hin).
  rewrite Forall_forall in Hn. now apply Hn.
Qed.

(** X6.  Nothing outside the allow-list leaves the transformer.  Under a
    configured allow-list that is not empty and whose entries are written
    with dots alone, whatever the request asks for under [fields] and
    [populate], every entity that [transformDocuments] returns is an object
    whose top-level fields are all first segments of entries of the
    allow-list.  (A document that is neither an array nor an object is
    returned as it is.) *)
Theorem transformDocuments_hides_unlisted_fields :
  forall (allow : list string) (params docs json : value)
         (w w' : world Ext),
    fields (settings this) = Some allow -> allow <> [] ->
    Forall dotted allow ->
    transformDocuments this ctx params docs w = (w', Ok json) ->
    match docs with
    | VArr _ =>
        exists items, json = VArr items /\ Forall (exposes_only allow) items
    | VObj _ => json = VUndef \/ exposes_only allow json
    | _ => json = docs
    end.
Proof.
  intros allow params docs json w w' Hf Hne _ H.
  assert (G : forall (l : list value) (isDoc : bool) (json0 : value),
    bind (populate_stage this ctx params
            (apply_idField this (encode_ids this (to_objects this l))))
      (fun json => bind (filter_stage this params json)
         (fun json => ret (if isDoc then nth 0 json VUndef else VArr json)))
      w = (w', Ok json0) ->
    exists items,
      json0 = (if isDoc then nth 0 items VUndef else VArr items) /\
      Forall (exposes_only allow) items).
  { intros l isDoc json0 H0.
    apply bind_ok_inv in H0. destruct H0 as (w1 & docs1 & _ & H0).
    apply bind_ok_inv in H0. destruct H0 as (w2 & items & H2 & H0).
    inversion H0; subst. clear H0.
    unfold filter_stage in H2.
    apply bind_ok_inv in H2. destruct H2 as (w3 & auth & Ha & H2).
    apply lift_inv in Ha. destruct Ha as [-> Ha]. symmetry in Ha.
    inversion H2; subst. clear H2.
    unfold effective_fields in Ha.
    destruct (get_member params "fields") as [pf|]; [|discriminate].
    cbn [rbind] in Ha.
    destruct (authorizeFields_names allow _ auth Hf Hne Ha)
      as (names & -> & Hn).
    eexists. split; [reflexivity|].
    apply Forall_forall. intros item Hi. apply in_map_iff in Hi.
    destruct Hi as (d & <- & _). now apply filterFields_exposes. }
  unfold transformDocuments in H.
  destruct docs as [| | | | |l|m]; try (now inversion H).
  - destruct (G l false json H) as (items & -> & Hi). now exists items.
  - destruct (G [VObj m] true json H) as (items & -> & Hi).
    destruct items as [|x items]; [now left|].
    right. now inversion Hi.
Qed.

(** X7.  The filter on plain field names is a projection.  For a list of
    plain names (no dot, no bracket) none of which is a member that objects
    inherit, the names [_.set] refuses apart, [filterFields] returns an
    object that holds under a name what the document holds under it, for
    every listed name that the document defines and that [_.set] does not
    refuse ([__proto__], [constructor], [prototype]), and holds nothing
    else. *)
Theorem filterFields_plain_names :
  forall (doc : obj) (names : list string),
    Forall filter_name names ->
    exists r,
      filterFields (VObj doc) (VArr (map VStr names)) = VObj r /\
      forall k,
        lookup r k
        = if existsb (String.eqb k) names
             && negb (guarded_key k)
             && negb (strict_eq (obj_get doc k) VUndef)
          then Some (obj_get doc k) else None.
Proof.
  intros doc names Hplain. unfold filterFields.
  assert (G : forall (done : list string) (r : obj),
    (forall k, lookup r k
               = if existsb (String.eqb k) done
                    && negb (guarded_key k)
                    && negb (strict_eq (obj_get doc k) VUndef)
                 then Some (obj_get doc k) else None) ->
    exists r',
      fold_left
        (fun res n =>
           let v := lodash_get (VObj doc) n in
           if strict_eq v VUndef then res else lodash_set res n v)
        (map VStr names) (VObj r)
      = VObj r' /\
      forall k, lookup r' k
                = if existsb (String.eqb k) (done ++ names)
                     && negb (guarded_key k)
                     && negb (strict_eq (obj_get doc k) VUndef)
                  then Some (obj_get doc k) else None).
  { induction Hplain as [|n names [[Hn _] _] _ IH]; intros done r Hr.
    - exists r. rewrite app_nil_r. now split.
    - cbn [map fold_left]. cbv zeta.
      assert (E : done ++ n :: names = (done ++ [n]) ++ names)
        by now rewrite <- app_assoc.
      rewrite E. rewrite lodash_get_plain by exact Hn.
      assert (Hskip : forall k,
        strict_eq (obj_get doc n) VUndef = true \/ guarded_key n = true ->
        lookup r k
        = if existsb (String.eqb k) (done ++ [n])
             && negb (guarded_key k)
             && negb (strict_eq (obj_get doc k) VUndef)
          then Some (obj_get doc k) else None).
      { intros k Hk. rewrite Hr, existsb_app. cbn [existsb].
        rewrite orb_false_r.
        destruct (String.eqb k n) eqn:Ek; [|now rewrite orb_false_r].
        apply String.eqb_eq in Ek. subst k.
        destruct Hk as [Hk|Hk]; rewrite Hk; now rewrite !andb_false_r. }
      destruct (strict_eq (obj_get doc n) VUndef) eqn:Eu.
      + apply IH. intros k. apply Hskip. now left.
      + destruct (guarded_key n) eqn:Eg.
        * rewrite lodash_set_guarded by assumption.
          apply IH. intros k. apply Hskip. now right.
        * rewrite lodash_set_plain by assumption. apply IH. intros k.
          rewrite existsb_app. cbn [existsb]. rewrite orb_false_r.
          destruct (String.eqb k n) eqn:Ek.
          -- apply String.eqb_eq in Ek. subst k.
             rewrite lookup_set_same, orb_true_r, Eg, Eu. reflexivity.
          -- apply String.eqb_neq in Ek.
             rewrite lookup_set_other by (now apply not_eq_sym).
             now rewrite Hr, orb_false_r. }
  destruct (G [] []) as (r & E & K); [reflexivity|].
  exists r. split; [exact E|exact K].
Qed.

End FieldHiding.

Section PopulateMore.

Variable Ext : Type.
Variable this : Service Ext.
Variable ctx : Context Ext.

Lemma call_params_ignore (ids : list value) (r : rule Ext) :
  member_or_undef (call_params ids r) "ignoreSoftDelete" = VBool true.
Proof. unfold call_params, member_or_undef. cbn. apply get_set_same. Qed.

Lemma populate_rule_ignores (pf : list value) (st : list obj * pending)
      (fr : string * rule Ext) :
  emits ignores_soft_delete (populate_rule ctx pf st fr).
Proof.
  unfold populate_rule. destruct st as [docs pend], fr as [f r].
  destruct (negb _); [apply emits_ret|].
  destruct (rule_handler r).
  - repeat emits_step; try exact I.
    match goal with |- emits _ (match ?o with _ => _ end) => destruct o end;
      apply emits_ret.
  - destruct (0 <? _)%nat; repeat emits_step. apply call_params_ignore.
Qed.

Lemma populateDocs_ignores (docs : list obj) (populateFields : value) :
  emits ignores_soft_delete (populateDocs this ctx docs populateFields).
Proof.
  unfold populateDocs.
  destruct (populates (settings this)) as [rules|]; [|apply emits_ret].
  destruct populateFields as [| | | | |pf|]; try apply emits_ret.
  destruct pf; [apply emits_ret|].
  apply emits_bind; [|intros ?; apply emits_lift].
  apply emits_foldM. intros a b. apply populate_rule_ignores.
Qed.

(** X8.  Population looks past soft deletion.  Every remote call that
    [populateDocs] issues carries [ignoreSoftDelete: true], whatever the
    rule puts under [params]: the flag is set after the parameters of the
    rule have been merged in. *)
Theorem populate_calls_ignore_soft_delete :
  forall (docs : list obj) (populateFields : value) (w : world Ext),
    exists l,
      log (fst (populateDocs this ctx docs populateFields w)) = log w ++ l /\
      Forall ignores_soft_delete l.
Proof.
  intros docs populateFields w.
  destruct (populateDocs this ctx docs populateFields w) as [w' r] eqn:E.
  exact (populateDocs_ignores docs populateFields w w' r E).
Qed.

(** X27.  The id list of a relation.  The ids that [populateDocs] collects
    for a relation hold no array (nested lists are opened), no two of them
    are the same value, and each of them is found, at some depth, in the
    truthy relation value of one of the documents. *)
Theorem id_list_flat_and_distinct :
  forall (f : string) (docs : list obj),
    Forall (fun x => isArray x = false) (idList_of f docs) /\
    ForallOrdPairs (fun a b => sameValueZero a b = false) (idList_of f docs) /\
    forall x, In x (idList_of f docs) ->
      exists doc, In doc docs /\ js_truthy (obj_get doc f) = true
                  /\ In x (flatten_value (obj_get doc f)).
Proof.
  intros f docs. split; [apply idList_flat|].
  split; [apply idList_distinct|apply idList_members].
Qed.

(** X28.  Population touches the relations alone.  When the requested
    relations resolve through remote actions and the population succeeds,
    every field that is not the field of a rule holds in every document
    what it held before. *)
Theorem populate_leaves_other_fields :
  forall (docs docs' : list obj) (pf : list value)
         (rules : list (string * rule Ext)) (k : string) (w w' : world Ext),
    populates (settings this) = Some rules ->
    remote_rules pf rules ->
    ~ In k (map fst rules) ->
    populateDocs this ctx docs (VArr pf) w = (w', Ok docs') ->
    map (fun d => obj_get d k) docs' = map (fun d => obj_get d k) docs.
Proof.
  intros docs docs' pf rules k w w' Hp Hr Hk H.
  destruct (populateDocs_remote Ext ctx this docs pf rules w w' _ Hp Hr H)
    as (pend & _ & F & S).
  symmetry in S. apply (settle_other _ _ _ _ S). rewrite F.
  intros Hin. apply Hk. apply in_map_iff in Hin.
  destruct Hin as (fr & E & Hin). apply filter_In in Hin.
  apply in_map_iff. exists fr. tauto.
Qed.

Lemma populate_rule_skipped (pf : list value) (st : list obj * pending)
      (f : string) (r : rule Ext) (w : world Ext) :
  array_includes pf (VStr f) = false ->
  populate_rule ctx pf st (f, r) w = (w, Ok st).
Proof.
  intros H. unfold populate_rule. destruct st as [docs pend].
  now rewrite H.
Qed.

Lemma foldM_skipped (pf : list value) (rules : list (string * rule Ext))
      (st : list obj * pending) (w : world Ext) :
  Forall (fun fr => array_includes pf (VStr (fst fr)) = false) rules ->
  foldM (populate_rule ctx pf) st rules w = (w, Ok st).
Proof.
  induction 1 as [|[f r] rules Hf _ IH]; [reflexivity|].
  cbn [foldM]. unfold bind. rewrite populate_rule_skipped by exact Hf.
  exact IH.
Qed.

Lemma only_requested (f : string) (rules : list (string * rule Ext)) :
  ~ In f (map fst rules) ->
  Forall (fun fr => array_includes [VStr f] (VStr (fst fr)) = false) rules.
Proof.
  intros H. apply Forall_forall. intros [f0 r0] Hin. cbn.
  rewrite orb_false_r. apply String.eqb_neq. intros E. subst f0. apply H.
  apply in_map_iff. now exists (f, r0).
Qed.

(** X9.  Populating one relation.  When the population of the single
    relation [f] is requested, [f] resolves through a remote action and
    some document holds an id under [f], [populateDocs] issues exactly one
    call, to the action of the rule with the id list of [f]; when the call
    is answered, the answer is mapped back onto the documents by
    [resultTransform]; when it is rejected, the population is rejected with
    the same error.  The rules of the other relations are not run. *)
Theorem populate_single_relation :
  forall (docs : list obj) (rules : list (string * rule Ext))
         (f : string) (r : rule Ext) (w : world Ext),
    populates (settings this) = Some rules ->
    NoDup (map fst rules) ->
    In (f, r) rules ->
    rule_handler r = None ->
    idList_of f docs <> [] ->
    let params := call_params (idList_of f docs) r in
    populateDocs this ctx docs (VArr [VStr f]) w
    = (mkWorld (fst (call ctx (rule_action r) params (ext w)))
               (log w ++ [EvCall f (rule_action r) params]),
       match snd (call ctx (rule_action r) params (ext w)) with
       | Ok populatedDocs => resultTransform f populatedDocs docs
       | Err e => Err e
       end).
Proof.
  intros docs rules f r w Hp Hnd Hin Hh Hids params.
  unfold populateDocs. rewrite Hp.
  apply in_split in Hin. destruct Hin as (before & after & ->).
  rewrite map_app in Hnd. cbn [map fst] in Hnd.
  assert (Hb : ~ In f (map fst before)).
  { intros Hi. apply NoDup_remove_2 in Hnd. apply Hnd.
    apply in_or_app. now left. }
  assert (Ha : ~ In f (map fst after)).
  { intros Hi. apply NoDup_remove_2 in Hnd. apply Hnd.
    apply in_or_app. now right. }
  assert (Hfold : forall st rs1 rs2 (w0 : world Ext),
    foldM (populate_rule ctx [VStr f]) st (rs1 ++ rs2) w0
    = bind (foldM (populate_rule ctx [VStr f]) st rs1)
           (fun st1 => foldM (populate_rule ctx [VStr f]) st1 rs2) w0).
  { intros st rs1. revert st. induction rs1 as [|x rs1 IH]; intros st rs2 w0.
    - reflexivity.
    - cbn [app foldM]. unfold bind at 1 2 3.
      destruct (populate_rule ctx [VStr f] st x w0) as [w1 [st1|e]];
        [|reflexivity].
      rewrite IH. reflexivity. }
  unfold bind at 1. rewrite Hfold. unfold bind at 1.
  rewrite (foldM_skipped [VStr f] before) by now apply only_requested.
  cbn [foldM]. unfold bind at 1.
  unfold populate_rule at 1. cbn [array_includes existsb strict_eq].
  rewrite String.eqb_refl. cbn [orb negb]. rewrite Hh.
  assert (Hl : (0 <? length (idList_of f docs))%nat = true).
  { destruct (idList_of f docs); [contradiction|reflexivity]. }
  rewrite Hl. fold params.
  unfold bind, emit, attempt, external, ret. cbn [ext log].
  destruct (call ctx (rule_action r) params (ext w)) as [x o].
  cbn [fst snd].
  rewrite (foldM_skipped [VStr f] after) by now apply only_requested.
  cbn [fst snd app settle lift].
  unfold lift. destruct o as [pd|e]; [|reflexivity].
  cbn [settle]. destruct (resultTransform f pd docs); reflexivity.
Qed.

End PopulateMore.

(** ** Indices as keys *)

Lemma string_of_Z_inj (a b : Z) : string_of_Z a = string_of_Z b -> a = b.
Proof.
  unfold string_of_Z. intros H. apply DecimalZ.to_int_inj.
  assert (G : forall z, Z.to_int z <> Decimal.Pos Decimal.Nil
                        /\ Z.to_int z <> Decimal.Neg Decimal.Nil).
  { intros z. split; intros E; assert (E' := f_equal Z.of_int E);
      rewrite DecimalZ.of_to in E'; cbn in E'; subst z; discriminate E. }
  assert (E := f_equal NilZero.int_of_string H).
  rewrite !NilZero.isi in E by apply G. now inversion E.
Qed.

(** The element of an array under the key of an index. *)
Lemma nth_by_key_index (l : list value) (i0 j : nat) :
  (j < length l)%nat ->
  nth_by_key i0 l (string_of_Z (Z.of_nat (i0 + j))) = nth j l VUndef.
Proof.
  revert i0 j. induction l as [|v l IH]; intros i0 j Hj; cbn in Hj; [lia|].
  cbn [nth_by_key]. destruct j as [|j].
  - rewrite Nat.add_0_r. now rewrite String.eqb_refl.
  - destruct (String.eqb _ _) eqn:E.
    + apply String.eqb_eq in E. apply string_of_Z_inj in E. lia.
    + replace (i0 + S j)%nat with (S i0 + j)%nat by lia.
      cbn [nth]. apply IH. lia.
Qed.

Lemma combine_keys (ks : list string) (vs : list value) :
  length ks = length vs -> obj_keys (combine ks vs) = ks.
Proof.
  revert vs. induction ks as [|k ks IH]; intros [|v vs] H; cbn in *;
    try reflexivity; try discriminate.
  f_equal. apply IH. lia.
Qed.

Lemma combine_append (ks ks' : list string) (vs vs' : list value) :
  length ks = length vs ->
  combine (ks ++ ks') (vs ++ vs') = combine ks vs ++ combine ks' vs'.
Proof.
  revert vs. induction ks as [|k ks IH]; intros [|v vs] H; cbn in *;
    try reflexivity; try discriminate.
  f_equal. apply IH. lia.
Qed.

Section GetMapping.

Variable Ext : Type.
Variable this : Service Ext.
Variable ctx : Context Ext.

Lemma mapping_from_combine (shown : list obj) :
  forall (before rest : list obj) (done items : list value),
    shown = before ++ rest ->
    length items = length rest ->
    length done = length before ->
    Forall (fun d => has_primitive (obj_get d (idField (settings this)))
                     = true) shown ->
    NoDup (map (stored_key this) shown) ->
    mapping_from this (VArr (map VObj shown)) (length before) items
                 (combine (map (stored_key this) before) done)
    = Ok (combine (map (stored_key this) shown) (done ++ items)).
Proof.
  intros before rest. revert before.
  induction rest as [|d rest IH]; intros before done items Hs Hl Hd Hp Hnd.
  - destruct items; [|discriminate]. cbn. rewrite !app_nil_r in *.
    now subst.
  - destruct items as [|item items]; [discriminate|].
    cbn [mapping_from]. cbn [get_member].
    assert (Hkey : String.eqb (string_of_Z (Z.of_nat (length before)))
                              "length" = false).
    { apply String.eqb_neq. intros E. unfold string_of_Z in E.
      assert (E' := f_equal NilZero.int_of_string E).
      rewrite NilZero.isi in E'.
      - cbn in E'. discriminate.
      - intros E2. assert (E3 := f_equal Z.of_int E2).
        rewrite DecimalZ.of_to in E3. cbn in E3.
        destruct (length before); [discriminate E2|discriminate E3].
      - intros E2. assert (E3 := f_equal Z.of_int E2).
        rewrite DecimalZ.of_to in E3. cbn in E3.
        destruct (length before); [discriminate E2|discriminate E3]. }
    rewrite Hkey.
    assert (Hnk : nth_by_key 0 (map VObj shown)
                    (string_of_Z (Z.of_nat (length before)))
                  = nth (length before) (map VObj shown) VUndef).
    { apply (nth_by_key_index (map VObj shown) 0 (length before)).
      rewrite length_map, Hs, length_app. cbn. lia. }
    rewrite Hnk. cbn [rbind].
    assert (Hn : nth (length before) (map VObj shown) VUndef = VObj d).
    { rewrite Hs, map_app, app_nth2 by (rewrite length_map; lia).
      rewrite length_map, Nat.sub_diag. reflexivity. }
    rewrite Hn. cbn [get_member rbind].
    assert (Hd' : has_primitive (obj_get d (idField (settings this))) = true).
    { rewrite Forall_forall in Hp. apply Hp. rewrite Hs.
      apply in_or_app. right. now left. }
    unfold ToPropertyKey. rewrite Hd'. cbn [rbind].
    fold (stored_key this d).
    assert (Hfresh : lookup (combine (map (stored_key this) before) done)
                            (stored_key this d) = None).
    { apply lookup_absent. rewrite combine_keys by now rewrite length_map.
      rewrite Hs, map_app in Hnd. cbn [map] in Hnd.
      apply NoDup_remove_2 in Hnd. intros Hin. apply Hnd.
      apply in_or_app. now left. }
    rewrite (obj_set_fresh _ _ _ Hfresh).
    assert (Ec : combine (map (stored_key this) before) done
                   ++ [(stored_key this d, item)]
                 = combine (map (stored_key this) (before ++ [d]))
                           (done ++ [item])).
    { rewrite map_app. cbn [map].
      rewrite combine_append by now rewrite length_map. reflexivity. }
    rewrite Ec.
    replace (S (length before)) with (length (before ++ [d]))
      by (rewrite length_app; cbn; lia).
    rewrite (IH (before ++ [d]) (done ++ [item]) items).
    + now rewrite <- app_assoc.
    + now rewrite <- app_assoc.
    + cbn in Hl. lia.
    + rewrite !length_app. cbn. lia.
    + exact Hp.
    + exact Hnd.
Qed.

(** The transformation of a list, stage by stage, and its trace. *)
Lemma transformDocuments_array_traced (params : value) (l : list value)
      (json : value) (w w' : world Ext) :
  transformDocuments this ctx params (VArr l) w = (w', Ok json) ->
  exists (written : list obj) (items : list value) (w1 : world Ext),
    populate_stage this ctx params
      (apply_idField this (encode_ids this (to_objects this l))) w
    = (w1, Ok written) /\
    filter_stage this params written w1 = (w', Ok items) /\
    json = VArr items /\
    transformDocuments_traced this ctx params (VArr l) w
    = (w', Ok (VArr items, VArr (seen_after this l written))).
Proof.
  intros H. unfold transformDocuments in H.
  apply bind_ok_inv in H. destruct H as (w1 & written & H1 & H).
  apply bind_ok_inv in H. destruct H as (w2 & items & H2 & H).
  inversion H; subst. exists written, items, w1.
  split; [exact H1|]. split; [exact H2|]. split; [reflexivity|].
  unfold transformDocuments_traced, bind. now rewrite H1, H2.
Qed.

(** The identities after the stages that write into the documents, when
    the adapter keeps the identity field and the population spares it. *)
Lemma written_identities (params : value) (l : list value)
      (written : list obj) (w w1 : world Ext) :
  let idf := idField (settings this) in
  (forall doc,
      obj_get (afterRetrieveTransformID (adapter this) doc idf) idf
      = obj_get doc idf) ->
  (forall populate,
      get_member params "populate" = Ok populate ->
      population_spares this populate idf) ->
  populate_stage this ctx params
    (apply_idField this (encode_ids this (to_objects this l))) w
  = (w1, Ok written) ->
  map (fun d => obj_get d idf) written
  = map (fun doc =>
           encodeID this (obj_get (entityToObject (adapter this) doc) idf)) l.
Proof.
  intros idf Hadapter Hpop H1.
  assert (E0 : map (fun d => obj_get d idf)
                   (apply_idField this (encode_ids this (to_objects this l)))
               = map (fun doc =>
                        encodeID this
                          (obj_get (entityToObject (adapter this) doc) idf))
                     l).
  { unfold apply_idField. rewrite map_map.
    rewrite (map_ext _ (fun d => obj_get d idf))
      by (intros d; apply Hadapter).
    unfold idf at 1. rewrite encode_ids_identity.
    unfold to_objects. now rewrite map_map. }
  unfold populate_stage in H1.
  apply bind_ok_inv in H1. destruct H1 as (w0 & populate & Hp & H1).
  apply lift_inv in Hp. destruct Hp as [-> Hp].
  destruct (js_truthy populate).
  - rewrite <- E0. unfold idf.
    eapply populateDocs_spares; [|exact H1]. now apply Hpop.
  - inversion H1; subst. exact E0.
Qed.


End GetMapping.

Section Writes.

Variable N : string -> num.
Variable Ext : Type.
Variable this : Service Ext.
Variable ctx : Context Ext.

Lemma update_sets_snoc (entries : obj) (k : string) (v : value) :
  update_sets this (entries ++ [(k, v)])
  = if is_id_key this k
    then (decodeID this v, snd (update_sets this entries))
    else (fst (update_sets this entries),
          obj_set (snd (update_sets this entries)) k v).
Proof.
  unfold update_sets, is_id_key. rewrite fold_left_app. cbn [fold_left].
  match goal with
  | |- context [fold_left ?f entries ?a] =>
      destruct (fold_left f entries a) as [id sets]
  end.
  reflexivity.
Qed.

Lemma update_sets_no_identity (entries : obj) (k : string) :
  is_id_key this k = true -> has_key (snd (update_sets this entries)) k = false.
Proof.
  intros Hk. induction entries as [|[k0 v0] entries IH] using rev_ind.
  - reflexivity.
  - rewrite update_sets_snoc. destruct (is_id_key this k0) eqn:E0; cbn [snd].
    + exact IH.
    + rewrite has_key_set, IH, orb_false_r. apply String.eqb_neq.
      intros ->. congruence.
Qed.

Lemma update_sets_id (entries : obj) :
  fst (update_sets this entries)
  = match last_id_entry this entries with
    | Some kv => decodeID this (snd kv)
    | None => VUndef
    end.
Proof.
  unfold last_id_entry.
  induction entries as [|[k0 v0] entries IH] using rev_ind.
  - reflexivity.
  - rewrite update_sets_snoc, rev_app_distr. cbn [rev app List.find fst].
    destruct (is_id_key this k0); [reflexivity|exact IH].
Qed.


(** X12.  An update that finds nothing.  When the adapter answers the
    write with nothing, [_update] fails with [EntityNotFoundError] on the
    decoded id, having issued that write and nothing else: the cache is not
    invalidated and no hook is called. *)
Theorem update_of_unknown_entity :
  forall (entries : obj) (x : Ext) (doc : value) (w : world Ext),
    let id := fst (update_sets this entries) in
    let update := VObj [("$set", VObj (snd (update_sets this entries)))] in
    updateById (adapter this) id update (ext w) = (x, Ok doc) ->
    js_truthy doc = false ->
    _update this ctx (VObj entries) w
    = (mkWorld x (log w ++ [EvUpdateById id update]),
       Err (EntityNotFoundError id)).
Proof.
  intros entries x doc w id update Hu Hd. unfold _update.
  unfold bind at 1. unfold lift at 1.
  cbn [own_entries_of is_nullish own_entries].
  fold (update_sets this entries).
  destruct (update_sets this entries) as [id0 sets] eqn:Es.
  cbn [fst snd] in id, update. subst id update.
  unfold bind at 1. rewrite emit_eq.
  unfold bind at 1. unfold external. cbn [ext log]. rewrite Hu.
  now rewrite Hd.
Qed.

(** X13.  A removal that finds nothing.  When the adapter answers
    [removeById] with nothing, [_remove] fails with [EntityNotFoundError]
    on the id as the request gave it (the adapter was asked with the
    decoded id), having issued that removal and nothing else. *)
Theorem remove_of_unknown_entity :
  forall (params pid : value) (x : Ext) (doc : value) (w : world Ext),
    get_member params "id" = Ok pid ->
    removeById (adapter this) (decodeID this pid) (ext w) = (x, Ok doc) ->
    js_truthy doc = false ->
    _remove this ctx params w
    = (mkWorld x (log w ++ [EvRemoveById (decodeID this pid)]),
       Err (EntityNotFoundError pid)).
Proof.
  intros params pid x doc w Hid Hr Hd. unfold _remove.
  unfold bind at 1. unfold lift at 1. rewrite Hid.
  unfold bind at 1. rewrite emit_eq.
  unfold bind at 1. unfold external. cbn [ext log]. rewrite Hr.
  now rewrite Hd.
Qed.

Lemma _remove_ok (params json : value) (w w' : world Ext) :
  _remove this ctx params w = (w', Ok json) ->
  exists pid lt,
    get_member params "id" = Ok pid /\
    log w' = log w ++ [EvRemoveById (decodeID this pid)]
               ++ lt ++ clear_events this
               ++ hook_events this "entityRemoved" json /\
    Forall (fun e => is_populate_event e = true) lt.
Proof.
  unfold _remove. intros H.
  apply bind_ok_inv in H. destruct H as (w1 & pid & H1 & H).
  apply lift_inv in H1. destruct H1 as [-> H1].
  apply bind_ok_inv in H. destruct H as (w2 & [] & H2 & H).
  rewrite emit_eq in H2. inversion H2; subst w2. clear H2.
  apply bind_ok_inv in H. destruct H as (w3 & doc & H3 & H).
  apply external_log in H3. destruct H3 as [L3 _]. cbn [log] in L3.
  destruct (negb (js_truthy doc)); [discriminate|].
  apply bind_ok_inv in H. destruct H as (w4 & json1 & H4 & H).
  apply transformDocuments_emits in H4. destruct H4 as (lt & L4 & F4).
  apply bind_ok_inv in H. destruct H as (w5 & v & H5 & H).
  apply entityChanged_ok in H5. inversion H; subst.
  exists pid, lt. split; [now symmetry|]. split; [|exact F4].
  rewrite H5, L4, L3. cbn [String.append capitalize].
  now rewrite <- !app_assoc.
Qed.

(** X14.  The removal, end to end.  Without soft deletion, when the
    [remove] action succeeds with the entity [json], what it has logged is,
    in this order: the [removeById] on the decoded id of the request (no
    load comes before it); the events of the transformation of the removed
    document; the cache invalidation; the [entityRemoved] hook called with
    [json], when the schema has one. *)
Theorem remove_runs_removal :
  forall (json : value) (w w' : world Ext),
    softDelete (settings this) = false ->
    remove_handler N this ctx w = (w', Ok json) ->
    exists (p : obj) (l_transform : list event),
      sanitizeParams N this ctx (ctx_params ctx) = Ok p /\
      log w' = log w ++ [EvRemoveById (decodeID this (prop p "id"))]
                 ++ l_transform ++ clear_events this
                 ++ hook_events this "entityRemoved" json /\
      Forall (fun e => is_populate_event e = true) l_transform.
Proof.
  intros json w w' Hs H. unfold remove_handler in H. rewrite Hs in H.
  cbn [negb] in H.
  apply bind_ok_inv in H. destruct H as (w0 & p & H0 & H).
  apply lift_inv in H0. destruct H0 as [-> H0].
  destruct (_remove_ok _ _ _ _ H) as (pid & lt & Hid & L & F).
  cbn in Hid. inversion Hid; subst pid.
  exists p, lt. split; [now symmetry|]. now split.
Qed.

(** X15.  A lifecycle event clears the cache first.  Whatever its outcome,
    [entityChanged] logs the cache invalidation (the broadcast, then the
    purge when there is a cacher) and after it at most the call of the hook
    named after the event, with the entity; the hook is called only when
    the invalidation has succeeded. *)
Theorem entityChanged_clears_before_hook :
  forall (type : string) (json : value) (w : world Ext),
    exists l,
      log (fst (entityChanged this type json ctx w))
      = log w ++ clear_events this ++ l /\
      (l = [] \/
       (l = [EvHook ("entity" ++ capitalize type) json] /\
        exists v, snd (clearCache this w) = Ok v)).
Proof.
  intros type json w. unfold entityChanged. unfold bind at 1.
  destruct (clearCache this w) as [w1 [v|e]] eqn:Ec.
  - apply clearCache_log in Ec.
    destruct (schema this _) as [hook|].
    + unfold bind, emit, external. cbn [ext log].
      destruct (hook json (ext w1)) as [x r]. cbn [fst log].
      eexists. split; [rewrite Ec, <- app_assoc; reflexivity|].
      right. split; [reflexivity|]. now exists v.
    + cbn [fst ret]. exists []. rewrite app_nil_r. split; [exact Ec|now left].
  - apply clearCache_log in Ec. cbn [fst]. exists [].
    rewrite app_nil_r. split; [exact Ec|now left].
Qed.

(** X16.  An update checks that the entity exists.  When the load by the id
    of the request finds nothing, the [update] action fails with
    [EntityNotFoundError] on that id and has logged the load alone: the
    adapter is not asked to write. *)
Theorem update_of_missing_entity_writes_nothing :
  forall (id doc : value) (w w1 : world Ext),
    get_member (ctx_params ctx) "id" = Ok id ->
    getById this id true w = (w1, Ok doc) ->
    js_truthy doc = false ->
    update_handler this ctx w = (w1, Err (EntityNotFoundError id)) /\
    exists l, log w1 = log w ++ l
              /\ Forall (fun e => is_load_event e = true) l.
Proof.
  intros id doc w w1 Hid Hg Hd. split.
  - unfold update_handler. unfold bind at 1.
    now rewrite (_get_not_found Ext this ctx _ id doc w w1 Hid Hg Hd).
  - exact (getById_emits Ext this id true w w1 _ Hg).
Qed.

(** X17.  A count ignores the pagination.  The [count] action asks the
    adapter once, with the sanitized parameters of the request in which
    [limit] and [offset] are absent, falsy or [null]; every other parameter
    is handed on as sanitized, and the answer of the adapter is the answer
    of the action. *)
Theorem count_ignores_pagination :
  forall (p : obj) (w : world Ext),
    sanitizeParams N this ctx (ctx_params ctx) = Ok p ->
    exists cp : obj,
      count_handler N this ctx w
      = (mkWorld (fst (count (adapter this) (VObj cp) (ext w)))
                 (log w ++ [EvCount (VObj cp)]),
         snd (count (adapter this) (VObj cp) (ext w))) /\
      js_truthy (prop cp "limit") = false /\
      js_truthy (prop cp "offset") = false /\
      forall k, k <> "limit" -> k <> "offset" -> prop cp k = prop p k.
Proof.
  intros p w Hp.
  exists (null_if_truthy "offset" (null_if_truthy "limit" p)).
  split; [|split; [|split]].
  - unfold count_handler. unfold bind at 1. unfold lift at 1. rewrite Hp.
    unfold _count. unfold bind, emit, external. cbn [ext log].
    now destruct (count (adapter this) _ (ext w)).
  - rewrite null_if_truthy_other by discriminate.
    unfold null_if_truthy. destruct (js_truthy (prop p "limit")) eqn:E;
      [|exact E].
    unfold prop. now rewrite get_set_same.
  - unfold null_if_truthy at 1.
    destruct (js_truthy (prop (null_if_truthy "limit" p) "offset")) eqn:E;
      [|exact E].
    unfold prop. now rewrite get_set_same.
  - intros k H1 H2. rewrite !null_if_truthy_other; auto.
Qed.

(** X18.  A listing that cannot be read.  [_list] asks the adapter for the
    rows and for the count before anything else; when one of the two is
    rejected, the listing is rejected with the error of one of them (of the
    one that failed, when the other succeeded) and nothing is transformed:
    the log holds the two requests alone. *)
Theorem list_fails_with_its_requests :
  forall (params : value) (x1 x2 : Ext) (rows total : result value)
         (w : world Ext),
    let cp := VObj (null_if_truthy "offset"
                      (null_if_truthy "limit" (Object_assign [] params))) in
    find (adapter this) params (ext w) = (x1, rows) ->
    count (adapter this) cp x1 = (x2, total) ->
    (exists e, rows = Err e) \/ (exists e, total = Err e) ->
    exists e,
      _list N this ctx params w
      = (mkWorld x2 (log w ++ [EvFind params; EvCount cp]), Err e) /\
      (rows = Err e \/ total = Err e).
Proof.
  intros params x1 x2 rows total w cp Hf Hc Hfail.
  unfold _list. cbv zeta. fold cp.
  unfold bind at 1. rewrite emit_eq.
  unfold bind at 1. unfold attempt at 1. unfold external at 1.
  cbn [ext log]. rewrite Hf.
  unfold bind at 1. rewrite emit_eq.
  unfold bind at 1. unfold attempt at 1. unfold external at 1.
  cbn [ext log]. rewrite Hc. rewrite <- app_assoc. cbn [app].
  destruct rows as [r|e1].
  - destruct total as [t|e2].
    + destruct Hfail as [(e & H)|(e & H)]; discriminate.
    + exists e2. split; [reflexivity|now right].
  - exists e1. split; [reflexivity|now left].
Qed.

End Writes.

Section SavingProperties.

Variable N : string -> num.
Variable Ext : Type.
Variable this : Service Ext.
Variable saver : SaveAdapter Ext.
Variable ctx : Context Ext.

(** The validators leave the log alone, and [validateEntity] answers with
    the entity it was given. *)
Lemma validate_each_log (v : Validator Ext) (l : list value) (w w' : world Ext)
      (r : result (list (result value))) :
  validate_each v l w = (w', r) -> log w' = log w /\ exists os, r = Ok os.
Proof.
  revert w w' r. induction l as [|e l IH]; intros w w' r H; cbn in H.
  - inversion H; subst. split; [reflexivity|now exists []].
  - unfold bind at 1 in H. unfold attempt, external in H.
    destruct (v e (ext w)) as [x o]. cbn in H.
    unfold bind at 1 in H.
    destruct (validate_each v l {| ext := x; log := log w |})
      as [w1 r1] eqn:E1.
    destruct (IH _ _ _ E1) as (L1 & os & ->). cbn in L1.
    inversion H; subst. split; [exact L1|now eexists].
Qed.

Lemma validateEntity_ok (validator : option (Validator Ext))
      (entity v : value) (w w' : world Ext) :
  validateEntity validator entity w = (w', Ok v) ->
  v = entity /\ log w' = log w.
Proof.
  unfold validateEntity. destruct validator as [f|].
  - intros H. apply bind_ok_inv in H. destruct H as (w1 & os & H1 & H).
    apply validate_each_log in H1. destruct H1 as [L1 _].
    apply bind_ok_inv in H. destruct H as (w2 & vs & H2 & H).
    apply lift_inv in H2. destruct H2 as [-> _].
    inversion H; subst. now split.
  - intros H. inversion H; subst. now split.
Qed.

(** A compiled schema looks at the entity alone: its validator leaves the
    world as it is. *)
Lemma validate_each_schema (check : value -> value) (l : list value)
      (w : world Ext) :
  validate_each (schema_validator check) l w
  = (w, Ok (map (fun e => if strict_eq (check e) (VBool true)
                          then Ok VUndef
                          else Err (ValidationError (check e))) l)).
Proof.
  induction l as [|e l IH]; [reflexivity|].
  cbn [validate_each map]. unfold bind at 1.
  unfold attempt, external. unfold schema_validator at 1. cbv zeta.
  rewrite world_eta. unfold bind at 1. rewrite IH. reflexivity.
Qed.

Lemma Promise_all_schema (check : value -> value) (l : list value) :
  Promise_all (map (fun e => if strict_eq (check e) (VBool true)
                             then Ok VUndef
                             else Err (ValidationError (check e))) l)
  = match List.find (fun e => negb (strict_eq (check e) (VBool true))) l with
    | Some bad => Err (ValidationError (check bad))
    | None => Ok (map (fun _ => VUndef) l)
    end.
Proof.
  unfold Promise_all. induction l as [|e l IH]; [reflexivity|].
  cbn [map mapM List.find].
  destruct (strict_eq (check e) (VBool true)); cbn [negb rbind];
    [|reflexivity].
  rewrite IH. now destruct (List.find _ l).
Qed.

Lemma validateEntity_schema (check : value -> value) (entity : value)
      (w : world Ext) :
  validateEntity (Some (schema_validator check)) entity w
  = match List.find (fun e => negb (strict_eq (check e) (VBool true)))
                    (match entity with VArr l => l | _ => [entity] end) with
    | Some bad => (w, Err (ValidationError (check bad)))
    | None => (w, Ok entity)
    end.
Proof.
  unfold validateEntity. cbv zeta. unfold bind at 1.
  rewrite validate_each_schema. unfold bind at 1. unfold lift.
  rewrite Promise_all_schema. now destruct (List.find _ _).
Qed.

(** X19.  A validation schema guards [create].  With the validator that
    [created] makes of a validation schema, the creation of an entity (not
    a list) that the compiled schema does not answer [true] for is rejected
    with a [ValidationError] that carries the answer of the schema, and the
    world is left as it was: nothing is inserted, the cache is not
    invalidated, no hook is called.  An entity that passes is created as it
    would be without validator. *)
Theorem schema_validation_guards_create :
  forall (check : value -> value) (entity : value) (w : world Ext),
    isArray entity = false ->
    _create this saver (Some (schema_validator check)) ctx entity w
    = if strict_eq (check entity) (VBool true)
      then _create this saver None ctx entity w
      else (w, Err (ValidationError (check entity))).
Proof.
  intros check entity w Ha. unfold _create. unfold bind at 1 5.
  rewrite validateEntity_schema.
  assert (E : match entity with VArr l => l | _ => [entity] end = [entity])
    by (destruct entity; try reflexivity; discriminate).
  rewrite E. cbn [List.find validateEntity ret].
  now destruct (strict_eq (check entity) (VBool true)).
Qed.

(** X20.  A validation schema guards [insert].  With the validator that
    [created] makes of a validation schema, the insertion of a list of
    entities one of which the compiled schema does not answer [true] for is
    rejected with the [ValidationError] of the first such entity, and the
    world is left as it was; a list whose entities all pass is inserted as
    it would be without validator. *)
Theorem schema_validation_guards_insert :
  forall (check : value -> value) (m : obj) (l : list value) (w : world Ext),
    obj_get m "entities" = VArr l ->
    _insert this saver (Some (schema_validator check)) ctx (VObj m) w
    = match List.find (fun e => negb (strict_eq (check e) (VBool true))) l with
      | Some bad => (w, Err (ValidationError (check bad)))
      | None => _insert this saver None ctx (VObj m) w
      end.
Proof.
  intros check m l w Hl. unfold _insert. cbv zeta.
  unfold bind at 1 7. unfold lift at 1 3. cbn [get_member]. rewrite Hl.
  cbn [isArray]. unfold bind at 1 6. unfold bind at 1 4.
  rewrite validateEntity_schema.
  cbn [validateEntity ret].
  now destruct (List.find _ l).
Qed.

Lemma _insert_without_entity (validator : option (Validator Ext)) (m : obj)
      (w : world Ext) :
  isArray (obj_get m "entities") = false ->
  js_truthy (obj_get m "entity") = false ->
  _insert this saver validator ctx (VObj m) w = (w, Err invalid_insert).
Proof.
  intros Ha Ht. unfold _insert. cbv zeta.
  unfold bind at 1. unfold lift at 1. cbn [get_member]. rewrite Ha.
  unfold bind at 1. unfold bind at 1. unfold lift at 1. cbn [get_member].
  now rewrite Ht.
Qed.


Lemma bind_lift {A B} (a : A) (k : A -> M Ext B) (w : world Ext) :
  bind (lift (Ok a)) k w = k a w.
Proof. reflexivity. Qed.

Lemma transformDocuments_params (p p' : value) :
  get_member p "populate" = get_member p' "populate" ->
  get_member p "fields" = get_member p' "fields" ->
  transformDocuments this ctx p = transformDocuments this ctx p'.
Proof.
  intros H1 H2.
  unfold transformDocuments, populate_stage, filter_stage, effective_fields.
  now rewrite H1, H2.
Qed.

(** X22.  [entities] comes first.  When the parameters hold a list under
    [entities], [_insert] does not look at [entity]: whatever is put under
    [entity], the outcome is the same. *)
Theorem insert_prefers_entities :
  forall (validator : option (Validator Ext)) (m : obj) (x : value)
         (w : world Ext),
    isArray (obj_get m "entities") = true ->
    _insert this saver validator ctx (VObj (obj_set m "entity" x)) w
    = _insert this saver validator ctx (VObj m) w.
Proof.
  intros validator m x w Ha. unfold _insert. cbv zeta.
  rewrite (transformDocuments_params (VObj (obj_set m "entity" x)) (VObj m))
    by (cbn [get_member]; now rewrite get_set_other by discriminate).
  cbn [get_member]. rewrite (get_set_other m "entity" "entities")
    by discriminate.
  rewrite !bind_lift. now rewrite Ha.
Qed.

Lemma transformDocuments_plain (doc json : value) (w w' : world Ext) :
  transformDocuments this ctx (VObj []) doc w = (w', Ok json) ->
  log w' = log w.
Proof.
  assert (G : forall l isDoc,
    bind (populate_stage this ctx (VObj [])
            (apply_idField this (encode_ids this (to_objects this l))))
      (fun json => bind (filter_stage this (VObj []) json)
         (fun json => ret (if isDoc : bool then nth 0 json VUndef
                           else VArr json))) w = (w', Ok json) ->
    log w' = log w).
  { intros l isDoc H. unfold populate_stage in H.
    apply bind_ok_inv in H. destruct H as (w1 & json1 & H1 & H).
    cbn in H1. inversion H1; subst w1. clear H1.
    apply bind_ok_inv in H. destruct H as (w2 & json2 & H2 & H).
    unfold filter_stage in H2.
    apply bind_ok_inv in H2. destruct H2 as (w3 & auth & Ha & H2).
    apply lift_inv in Ha. destruct Ha as [-> _].
    inversion H2; subst. now inversion H. }
  unfold transformDocuments. destruct doc as [| | | | |l|m];
    try (intros H; now inversion H).
  - apply (G l false).
  - apply (G [VObj m] true).
Qed.

(** X23.  The creation, end to end.  When the [create] action succeeds
    with the entity [json], the entity was validated and inserted, and what
    has been logged is the cache invalidation followed by the
    [entityCreated] hook called with [json], when the schema has one: the
    saved document is transformed without population, whatever the entity
    holds under [populate] or [fields]. *)
Theorem create_runs_creation :
  forall (validator : option (Validator Ext)) (json : value)
         (w w' : world Ext),
    create_handler this saver validator ctx w = (w', Ok json) ->
    log w' = log w ++ clear_events this
               ++ hook_events this "entityCreated" json.
Proof.
  intros validator json w w' H. unfold create_handler, _create in H.
  apply bind_ok_inv in H. destruct H as (w1 & e1 & H1 & H).
  apply validateEntity_ok in H1. destruct H1 as [-> L1].
  apply bind_ok_inv in H. destruct H as (w2 & doc & H2 & H).
  apply external_log in H2. destruct H2 as [L2 _].
  apply bind_ok_inv in H. destruct H as (w3 & json1 & H3 & H).
  apply transformDocuments_plain in H3.
  apply bind_ok_inv in H. destruct H as (w4 & v & H4 & H).
  apply entityChanged_ok in H4. inversion H; subst.
  rewrite H4, H3, L2, L1. reflexivity.
Qed.

End SavingProperties.

Section LifecycleProperties.

Variable Ext : Type.

(** X24.  A start is never rejected over the connection.  With an adapter
    set, however many attempts are watched, the promise of [started] is
    pending or resolved: a connection that fails, or an [afterConnected]
    whose promise is rejected, is logged and tried again, not reported. *)
Theorem started_never_rejects :
  forall (c : Lifecycle Ext) (fuel : nat) (s : life Ext),
    snd (started (Some c) fuel s) = Pending \/
    exists v, snd (started (Some c) fuel s) = Settled (Ok v).
Proof.
  intros c fuel. cbn [started].
  induction fuel as [|fuel IH]; intros s; cbn [connecting].
  - now left.
  - destruct (connect c s) as [[x notes] [v|err]].
    + right. now exists v.
    + apply IH.
Qed.

(** X25.  While the adapter cannot connect the start stays pending.  When
    every attempt to connect fails, [started] is still pending after any
    number of attempts, and what has been noted is what was noted before
    followed, for each attempt in turn, by three notices: the error of that
    attempt logged as [Connection error!], the wait of a second (1000 ms),
    the warning [Reconnecting...].  There are as many errors as attempts,
    and the store is the one the failed attempts leave. *)
Theorem started_keeps_retrying :
  forall (c : Lifecycle Ext) (fuel : nat) (x : Ext) (notes : list notice),
    (forall x, exists x' e, adapter_connect c x = (x', Err e)) ->
    started (Some c) fuel (x, notes)
    = ((fst (failures c fuel x),
        notes ++ flat_map retry_notices (snd (failures c fuel x))),
       Pending) /\
    length (snd (failures c fuel x)) = fuel.
Proof.
  intros c fuel x notes Hfail. cbn [started]. revert x notes.
  induction fuel as [|fuel IH]; intros x notes; cbn [connecting failures].
  - cbn. now rewrite app_nil_r.
  - unfold connect. destruct (Hfail x) as (x' & e & E). rewrite E.
    destruct (IH x' (notes ++ [LogError "Connection error!" e; Wait 1000;
                               LogWarn "Reconnecting..."])) as [H1 H2].
    rewrite H1. destruct (failures c fuel x') as [x2 errs]. cbn in *.
    rewrite <- app_assoc. split; [reflexivity|now f_equal].
Qed.

(** X26.  The start after the hook.  When the adapter connects and the
    schema has an [afterConnected], the attempt ends with the hook: when it
    throws, the error is logged as [afterConnected error!] and [started]
    resolves; when it returns a value, [started] resolves with it; when it
    returns a promise that is rejected, the rejection is logged as
    [Connection error!] and the adapter is connected again after a
    second. *)
Theorem started_after_hook :
  forall (c : Lifecycle Ext) (f : Ext -> Ext * outcome) (fuel : nat)
         (x x1 x2 : Ext) (v : value) (o : outcome) (notes : list notice),
    adapter_connect c x = (x1, Ok v) ->
    afterConnected c = Some f ->
    f x1 = (x2, o) ->
    started (Some c) (S fuel) (x, notes)
    = match o with
      | Throws err =>
          ((x2, notes ++ [LogError "afterConnected error!" err]),
           Settled (Ok VUndef))
      | Returns (Ok v') => ((x2, notes), Settled (Ok v'))
      | Returns (Err err) =>
          started (Some c) fuel
            (x2, notes ++ [LogError "Connection error!" err; Wait 1000;
                           LogWarn "Reconnecting..."])
      end.
Proof.
  intros c f fuel x x1 x2 v o notes Hc Hf Hh.
  cbn [started connecting]. unfold connect. rewrite Hc, Hf, Hh.
  destruct o as [err|[v'|err]]; reflexivity.
Qed.

End LifecycleProperties.

(** ** The further properties at work on the stores of the examples *)




Lemma authorizeFields_within_allow_list_witness :
  let allow := ["name"; "address.city"] in
  let fs := [VStr "address"; VStr "name"; VStr "secret"] in
  let granted := [VStr "address.city"; VStr "name"] in
  fields (settings (allow_service allow)) = Some allow /\
  allow <> [] /\
  authorizeFields (allow_service allow) (VArr fs) = Ok (VArr granted) /\
  Forall (authorized allow fs) granted.
Proof.
  assert (Hne : ["name"; "address.city"] <> []) by discriminate.
  split; [reflexivity|]. split; [exact Hne|]. split; [reflexivity|].
  exact (authorizeFields_within_allow_list Store
           (allow_service ["name"; "address.city"]) ["name"; "address.city"]
           [VStr "address"; VStr "name"; VStr "secret"]
           [VStr "address.city"; VStr "name"]
           eq_refl Hne eq_refl).
Defined.

Lemma authorizeFields_grants_allowed_witness :
  let allow := ["name"; "address"] in
  let fs := ["address.city"; "name"; "secret"] in
  fields (settings (allow_service allow)) = Some allow /\
  allow <> [] /\
  exists granted,
    authorizeFields (allow_service allow) (VArr (map VStr fs))
    = Ok (VArr granted) /\
    In (VStr "address.city") granted /\
    In (VStr "name") granted.
Proof.
  assert (Hne : ["name"; "address"] <> []) by discriminate.
  split; [reflexivity|]. split; [exact Hne|].
  destruct (authorizeFields_grants_allowed Store
              (allow_service ["name"; "address"])
              ["name"; "address"] ["address.city"; "name"; "secret"]
              eq_refl Hne) as (granted & E & H).
  exists granted. split; [exact E|]. split.
  - apply H; [simpl; tauto|]. right. exists "address".
    split; [simpl; tauto|reflexivity].
  - apply H; [simpl; tauto|]. left. simpl. tauto.
Defined.

Lemma transformDocuments_hides_unlisted_fields_witness :
  let allow := ["_id"; "name"] in
  let json := VArr [VObj [("name", VStr "Ann"); ("_id", VStr "1")];
                    VObj [("name", VStr "Bob"); ("_id", VStr "2")]] in
  fields (settings (allow_service allow)) = Some allow /\
  allow <> [] /\
  Forall dotted allow /\
  transformDocuments (allow_service allow) (mem_context "users.find" VNull)
                     (VObj [("fields", VStr "name secret _id")])
                     (VArr two_users) (mkWorld empty_store [])
  = (mkWorld empty_store [], Ok json) /\
  exists items, json = VArr items /\ Forall (exposes_only allow) items.
Proof.
  assert (Hne : ["_id"; "name"] <> []) by discriminate.
  assert (Hd : Forall dotted ["_id"; "name"])
    by (repeat constructor).
  split; [reflexivity|]. split; [exact Hne|]. split; [exact Hd|].
  split; [reflexivity|].
  exact (transformDocuments_hides_unlisted_fields Store
           (allow_service ["_id"; "name"]) (mem_context "users.find" VNull)
           ["_id"; "name"] (VObj [("fields", VStr "name secret _id")])
           (VArr two_users)
           (VArr [VObj [("name", VStr "Ann"); ("_id", VStr "1")];
                  VObj [("name", VStr "Bob"); ("_id", VStr "2")]])
           (mkWorld empty_store []) (mkWorld empty_store [])
           eq_refl Hne Hd eq_refl).
Defined.

Lemma filterFields_plain_names_witness :
  let doc := [("_id", VInt 1); ("name", VStr "Ann"); ("secret", VStr "x");
              ("constructor", VStr "c")] in
  let names := ["name"; "_id"; "age"; "constructor"] in
  Forall filter_name names /\
  filterFields (VObj doc) (VArr (map VStr names))
  = VObj [("name", VStr "Ann"); ("_id", VInt 1)] /\
  exists r,
    filterFields (VObj doc) (VArr (map VStr names)) = VObj r /\
    forall k,
      lookup r k
      = if existsb (String.eqb k) names
           && negb (guarded_key k)
           && negb (strict_eq (obj_get doc k) VUndef)
        then Some (obj_get doc k) else None.
Proof.
  assert (H : Forall filter_name ["name"; "_id"; "age"; "constructor"]).
  { repeat (apply Forall_cons;
            [split;
             [repeat constructor
             |first [left; reflexivity
                    |right; cbn; intuition discriminate]]|]).
    apply Forall_nil. }
  split; [exact H|]. split; [reflexivity|].
  exact (filterFields_plain_names _ _ H).
Defined.

Lemma populate_single_relation_witness :
  let docs := [[("_id", VInt 1); ("owner", VStr "42")];
               [("_id", VInt 2); ("owner", VStr "42")]] in
  populates (settings posts_service)
  = Some [("owner", RuleAction "users.get")] /\
  NoDup (map fst [("owner", @RuleAction Store "users.get")]) /\
  In ("owner", RuleAction "users.get")
     [("owner", @RuleAction Store "users.get")] /\
  rule_handler (@RuleAction Store "users.get") = None /\
  idList_of "owner" docs <> [] /\
  populateDocs posts_service posts_context docs (VArr [VStr "owner"])
               (mkWorld empty_store [])
  = (mkWorld empty_store
       [EvCall "owner" "users.get"
          (VObj [("id", VArr [VStr "42"]); ("mapping", VBool true);
                 ("populate", VUndef); ("ignoreSoftDelete", VBool true)])],
     Ok [[("_id", VInt 1);
          ("owner", VObj [("_id", VStr "42"); ("name", VStr "Ann")])];
         [("_id", VInt 2);
          ("owner", VObj [("_id", VStr "42"); ("name", VStr "Ann")])]]).
Proof.
  assert (Hnd : NoDup (map fst [("owner", @RuleAction Store "users.get")])).
  { repeat constructor. intros []. }
  assert (Hin : In ("owner", RuleAction "users.get")
                   [("owner", @RuleAction Store "users.get")])
    by (left; reflexivity).
  assert (Hids : idList_of "owner"
                   [[("_id", VInt 1); ("owner", VStr "42")];
                    [("_id", VInt 2); ("owner", VStr "42")]] <> [])
    by discriminate.
  split; [reflexivity|]. split; [exact Hnd|]. split; [exact Hin|].
  split; [reflexivity|]. split; [exact Hids|].
  exact (populate_single_relation Store posts_service posts_context
           [[("_id", VInt 1); ("owner", VStr "42")];
            [("_id", VInt 2); ("owner", VStr "42")]]
           [("owner", RuleAction "users.get")]
           "owner" (RuleAction "users.get") (mkWorld empty_store [])
           eq_refl Hnd Hin eq_refl Hids).
Defined.

Lemma populate_leaves_other_fields_witness :
  let docs := [[("_id", VInt 1); ("owner", VStr "42")];
               [("_id", VInt 2); ("owner", VStr "42")]] in
  let docs' := [[("_id", VInt 1);
                 ("owner", VObj [("_id", VStr "42"); ("name", VStr "Ann")])];
                [("_id", VInt 2);
                 ("owner", VObj [("_id", VStr "42"); ("name", VStr "Ann")])]] in
  populates (settings posts_service)
  = Some [("owner", RuleAction "users.get")] /\
  remote_rules [VStr "owner"] [("owner", @RuleAction Store "users.get")] /\
  ~ In "_id" (map fst [("owner", @RuleAction Store "users.get")]) /\
  snd (populateDocs posts_service posts_context docs (VArr [VStr "owner"])
                    (mkWorld empty_store [])) = Ok docs' /\
  map (fun d => obj_get d "_id") docs' = map (fun d => obj_get d "_id") docs.
Proof.
  assert (Hr : remote_rules [VStr "owner"]
                            [("owner", @RuleAction Store "users.get")])
    by (repeat constructor).
  assert (Hk : ~ In "_id" (map fst [("owner", @RuleAction Store "users.get")])).
  { intros [H|[]]. discriminate H. }
  split; [reflexivity|]. split; [exact Hr|]. split; [exact Hk|].
  split; [reflexivity|].
  exact (populate_leaves_other_fields Store posts_service posts_context
           [[("_id", VInt 1); ("owner", VStr "42")];
            [("_id", VInt 2); ("owner", VStr "42")]]
           [[("_id", VInt 1);
             ("owner", VObj [("_id", VStr "42"); ("name", VStr "Ann")])];
            [("_id", VInt 2);
             ("owner", VObj [("_id", VStr "42"); ("name", VStr "Ann")])]]
           [VStr "owner"] [("owner", RuleAction "users.get")] "_id"
           (mkWorld empty_store [])
           (fst (populateDocs posts_service posts_context
                   [[("_id", VInt 1); ("owner", VStr "42")];
                    [("_id", VInt 2); ("owner", VStr "42")]]
                   (VArr [VStr "owner"]) (mkWorld empty_store [])))
           eq_refl Hr Hk eq_refl).
Defined.

Lemma populate_one_call_per_relation_witness :
  let docs := [[("_id", VInt 1); ("owner", VStr "42")];
               [("_id", VInt 2); ("owner", VStr "42")]] in
  populates (settings posts_service)
  = Some [("owner", RuleAction "users.get")] /\
  NoDup (map fst [("owner", @RuleAction Store "users.get")]) /\
  remote_rules [VStr "owner"] [("owner", @RuleAction Store "users.get")] /\
  array_includes [VStr "owner"] (VStr "owner") = true /\
  exists l,
    log (fst (run (populateDocs posts_service posts_context docs
                                (VArr [VStr "owner"])) empty_store))
    = [] ++ l /\
    filter (is_call_for "owner") l
    = [EvCall "owner" "users.get"
         (VObj [("id", VArr [VStr "42"]); ("mapping", VBool true);
                ("populate", VUndef); ("ignoreSoftDelete", VBool true)])].
Proof.
  assert (Hnd : NoDup (map fst [("owner", @RuleAction Store "users.get")])).
  { repeat constructor. intros []. }
  assert (Hr : remote_rules [VStr "owner"]
                            [("owner", @RuleAction Store "users.get")])
    by (repeat constructor).
  split; [reflexivity|]. split; [exact Hnd|]. split; [exact Hr|].
  split; [reflexivity|].
  destruct (populate_one_call_per_relation Store posts_context posts_service
              [[("_id", VInt 1); ("owner", VStr "42")];
               [("_id", VInt 2); ("owner", VStr "42")]]
              [VStr "owner"] [("owner", RuleAction "users.get")]
              "owner" (RuleAction "users.get")
              (mkWorld empty_store []) _ _
              eq_refl Hnd (or_introl eq_refl) Hr eq_refl
              (surjective_pairing _)) as (l & L & F & _).
  exists l. split; [exact L|exact F].
Defined.



Lemma update_of_unknown_entity_witness :
  let entries := [("id", VStr "missing"); ("title", VStr "x")] in
  let this := mem_service mem_settings in
  let update := VObj [("$set", VObj [("title", VStr "x")])] in
  updateById (adapter this) (VStr "missing") update empty_store
  = (empty_store, Ok VNull) /\
  js_truthy VNull = false /\
  _update this (mem_context "posts.update" (VObj entries)) (VObj entries)
          (mkWorld empty_store [])
  = (mkWorld empty_store [EvUpdateById (VStr "missing") update],
     Err (EntityNotFoundError (VStr "missing"))).
Proof.
  split; [reflexivity|]. split; [reflexivity|].
  exact (update_of_unknown_entity Store (mem_service mem_settings)
           (mem_context "posts.update"
              (VObj [("id", VStr "missing"); ("title", VStr "x")]))
           [("id", VStr "missing"); ("title", VStr "x")]
           empty_store VNull (mkWorld empty_store []) eq_refl eq_refl).
Defined.

Lemma remove_of_unknown_entity_witness :
  let params := VObj [("id", VStr "missing")] in
  let this := mem_service mem_settings in
  get_member params "id" = Ok (VStr "missing") /\
  removeById (adapter this) (decodeID this (VStr "missing")) empty_store
  = (empty_store, Ok VNull) /\
  js_truthy VNull = false /\
  _remove this (mem_context "posts.remove" params) params
          (mkWorld empty_store [])
  = (mkWorld empty_store [EvRemoveById (VStr "missing")],
     Err (EntityNotFoundError (VStr "missing"))).
Proof.
  split; [reflexivity|]. split; [reflexivity|]. split; [reflexivity|].
  exact (remove_of_unknown_entity Store (mem_service mem_settings)
           (mem_context "posts.remove" (VObj [("id", VStr "missing")]))
           (VObj [("id", VStr "missing")])
           (VStr "missing") empty_store VNull (mkWorld empty_store [])
           eq_refl eq_refl eq_refl).
Defined.

Lemma remove_runs_removal_witness :
  let w' := mkWorld (mkStore [] 1000)
              [EvRemoveById (VStr "1"); EvBroadcast "cache.clean.posts";
               EvCacheClean "posts.*";
               EvHook "entityRemoved" (VObj live_post)] in
  softDelete (settings hooked_service) = false /\
  remove_handler decimal_number hooked_service remove_1 (mkWorld one_post [])
  = (w', Ok (VObj live_post)) /\
  exists (p : obj) (l_transform : list event),
    sanitizeParams decimal_number hooked_service remove_1 (ctx_params remove_1)
    = Ok p /\
    log w' = [] ++ [EvRemoveById (decodeID hooked_service (prop p "id"))]
                ++ l_transform ++ clear_events hooked_service
                ++ hook_events hooked_service "entityRemoved"
                               (VObj live_post) /\
    Forall (fun e => is_populate_event e = true) l_transform.
Proof.
  split; [reflexivity|]. split; [reflexivity|].
  exact (remove_runs_removal decimal_number Store hooked_service remove_1
           (VObj live_post) (mkWorld one_post [])
           (mkWorld (mkStore [] 1000)
              [EvRemoveById (VStr "1"); EvBroadcast "cache.clean.posts";
               EvCacheClean "posts.*";
               EvHook "entityRemoved" (VObj live_post)])
           eq_refl eq_refl).
Defined.

Lemma update_of_missing_entity_writes_nothing_witness :
  let this := mem_service mem_settings in
  let ctx := mem_context "posts.update"
               (VObj [("id", VStr "missing"); ("title", VStr "x")]) in
  let w1 := mkWorld empty_store [EvFindById (VStr "missing")] in
  get_member (ctx_params ctx) "id" = Ok (VStr "missing") /\
  getById this (VStr "missing") true (mkWorld empty_store [])
  = (w1, Ok VNull) /\
  js_truthy VNull = false /\
  update_handler this ctx (mkWorld empty_store [])
  = (w1, Err (EntityNotFoundError (VStr "missing"))) /\
  exists l, log w1 = [] ++ l /\ Forall (fun e => is_load_event e = true) l.
Proof.
  split; [reflexivity|]. split; [reflexivity|]. split; [reflexivity|].
  exact (update_of_missing_entity_writes_nothing Store
           (mem_service mem_settings)
           (mem_context "posts.update"
              (VObj [("id", VStr "missing"); ("title", VStr "x")]))
           (VStr "missing") VNull (mkWorld empty_store [])
           (mkWorld empty_store [EvFindById (VStr "missing")])
           eq_refl eq_refl eq_refl).
Defined.

Lemma count_ignores_pagination_witness :
  let this := mem_service mem_settings in
  let ctx := mem_context "posts.count"
               (VObj [("limit", VInt 5); ("offset", VInt 2);
                      ("search", VStr "x")]) in
  let p := [("limit", VInt 5); ("offset", VInt 2); ("search", VStr "x")] in
  sanitizeParams decimal_number this ctx (ctx_params ctx) = Ok p /\
  exists cp : obj,
    count_handler decimal_number this ctx (mkWorld store25 [])
    = (mkWorld (fst (count (adapter this) (VObj cp) store25))
               ([] ++ [EvCount (VObj cp)]),
       snd (count (adapter this) (VObj cp) store25)) /\
    js_truthy (prop cp "limit") = false /\
    js_truthy (prop cp "offset") = false /\
    forall k, k <> "limit" -> k <> "offset" -> prop cp k = prop p k.
Proof.
  split; [reflexivity|].
  exact (count_ignores_pagination decimal_number Store
           (mem_service mem_settings)
           (mem_context "posts.count"
              (VObj [("limit", VInt 5); ("offset", VInt 2);
                     ("search", VStr "x")]))
           [("limit", VInt 5); ("offset", VInt 2); ("search", VStr "x")]
           (mkWorld store25 []) eq_refl).
Defined.

Lemma list_fails_with_its_requests_witness :
  let params := VObj first_page_params in
  let cp := VObj (count_params first_page_params) in
  let ctx := mem_context "posts.list" VNull in
  find (adapter broken_service) params store25
  = (store25, Err (Rejected (VStr "down"))) /\
  count (adapter broken_service) cp store25 = (store25, Ok (VInt 25)) /\
  _list decimal_number broken_service ctx params (mkWorld store25 [])
  = (mkWorld store25 [EvFind params; EvCount cp],
     Err (Rejected (VStr "down"))).
Proof.
  split; [reflexivity|]. split; [reflexivity|].
  destruct (list_fails_with_its_requests decimal_number Store broken_service
              (mem_context "posts.list" VNull) (VObj first_page_params)
              store25 store25 (Err (Rejected (VStr "down"))) (Ok (VInt 25))
              (mkWorld store25 []) eq_refl eq_refl
              (or_introl (ex_intro _ (Rejected (VStr "down")) eq_refl)))
    as (e & E & [H|H]); [|discriminate H].
  injection H as <-. exact E.
Defined.

Lemma schema_validation_guards_create_witness :
  isArray (VObj [("title", VStr "t")]) = false /\
  _create hooked_service mem_saver (Some (schema_validator requires_name))
          (mem_context "posts.create" VNull) (VObj [("title", VStr "t")])
          (mkWorld empty_store [])
  = (mkWorld empty_store [],
     Err (ValidationError (VArr [VStr "name is required"]))).
Proof.
  split; [reflexivity|].
  exact (schema_validation_guards_create Store hooked_service mem_saver
           (mem_context "posts.create" VNull) requires_name
           (VObj [("title", VStr "t")]) (mkWorld empty_store []) eq_refl).
Defined.

Lemma schema_validation_guards_insert_witness :
  let m := [("entities", VArr [VObj [("name", VStr "Ann")]; VObj []])] in
  obj_get m "entities" = VArr [VObj [("name", VStr "Ann")]; VObj []] /\
  _insert hooked_service mem_saver (Some (schema_validator requires_name))
          (mem_context "posts.insert" VNull) (VObj m)
          (mkWorld empty_store [])
  = (mkWorld empty_store [],
     Err (ValidationError (VArr [VStr "name is required"]))).
Proof.
  split; [reflexivity|].
  exact (schema_validation_guards_insert Store hooked_service mem_saver
           (mem_context "posts.insert" VNull) requires_name
           [("entities", VArr [VObj [("name", VStr "Ann")]; VObj []])]
           [VObj [("name", VStr "Ann")]; VObj []]
           (mkWorld empty_store []) eq_refl).
Defined.


Lemma insert_prefers_entities_witness :
  let m := [("entities", VArr [VObj [("name", VStr "Ann")]])] in
  isArray (obj_get m "entities") = true /\
  _insert hooked_service mem_saver None (mem_context "posts.insert" VNull)
          (VObj (obj_set m "entity" (VObj [("name", VStr "Bob")])))
          (mkWorld empty_store [])
  = _insert hooked_service mem_saver None (mem_context "posts.insert" VNull)
            (VObj m) (mkWorld empty_store []).
Proof.
  split; [reflexivity|].
  exact (insert_prefers_entities Store hooked_service mem_saver
           (mem_context "posts.insert" VNull) None
           [("entities", VArr [VObj [("name", VStr "Ann")]])]
           (VObj [("name", VStr "Bob")]) (mkWorld empty_store []) eq_refl).
Defined.

Lemma create_runs_creation_witness :
  let entity := VObj [("name", VStr "Ann"); ("populate", VStr "owner")] in
  let json := VObj [("name", VStr "Ann"); ("populate", VStr "owner");
                    ("_id", VUndef)] in
  let w' := mkWorld (mkStore [[("name", VStr "Ann");
                               ("populate", VStr "owner")]] 0)
              [EvBroadcast "cache.clean.posts"; EvCacheClean "posts.*";
               EvHook "entityCreated" json] in
  create_handler hooked_service mem_saver
                 (Some (schema_validator requires_name))
                 (mem_context "posts.create" entity) (mkWorld empty_store [])
  = (w', Ok json) /\
  log w' = [] ++ clear_events hooked_service
              ++ hook_events hooked_service "entityCreated" json.
Proof.
  split; [reflexivity|].
  exact (create_runs_creation Store hooked_service mem_saver
           (mem_context "posts.create"
              (VObj [("name", VStr "Ann"); ("populate", VStr "owner")]))
           (Some (schema_validator requires_name))
           (VObj [("name", VStr "Ann"); ("populate", VStr "owner");
                  ("_id", VUndef)])
           (mkWorld empty_store [])
           (mkWorld (mkStore [[("name", VStr "Ann");
                               ("populate", VStr "owner")]] 0)
              [EvBroadcast "cache.clean.posts"; EvCacheClean "posts.*";
               EvHook "entityCreated"
                 (VObj [("name", VStr "Ann"); ("populate", VStr "owner");
                        ("_id", VUndef)])])
           eq_refl).
Defined.

Lemma started_keeps_retrying_witness :
  let refused := Rejected (VStr "ECONNREFUSED") in
  (forall x, exists x' e, adapter_connect unreachable x = (x', Err e)) /\
  started (Some unreachable) 2 (empty_store, [Wait 5])
  = ((empty_store,
      [Wait 5;
       LogError "Connection error!" refused; Wait 1000;
       LogWarn "Reconnecting...";
       LogError "Connection error!" refused; Wait 1000;
       LogWarn "Reconnecting..."]),
     Pending).
Proof.
  assert (H : forall x, exists x' e,
                adapter_connect unreachable x = (x', Err e)).
  { intros x. exists x, (Rejected (VStr "ECONNREFUSED")). reflexivity. }
  split; [exact H|].
  exact (proj1 (started_keeps_retrying Store unreachable 2 empty_store
                  [Wait 5] H)).
Defined.

Lemma started_after_hook_witness :
  adapter_connect throwing_hook empty_store = (empty_store, Ok VUndef) /\
  afterConnected throwing_hook = Some (fun s => (s, Throws TypeError)) /\
  started (Some throwing_hook) 1 (empty_store, [])
  = ((empty_store, [LogError "afterConnected error!" TypeError]),
     Settled (Ok VUndef)).
Proof.
  split; [reflexivity|]. split; [reflexivity|].
  exact (started_after_hook Store throwing_hook
           (fun s => (s, Throws TypeError)) 0 empty_store empty_store
           empty_store VUndef (Throws TypeError) [] eq_refl eq_refl eq_refl).
Defined.
